(** * vibe native helpers: URL parsing and JSON serialisation

    A shallow embedding of [src/native/url_parser.cc] and
    [src/native/json_stringify.cc], and the properties of the two that the
    specification states.

    Conventions.
    - A [std::string] is a list of 8-bit characters ([ascii]); a [char]
      pointer into its buffer is the index it points at.
    - [size_t] positions and lengths are natural numbers.  No wrap-around is
      written out for them where they measure buffers that exist in memory;
      it is written out in [reserve], whose argument is any [size_t].
    - A loop whose counter only moves forward is a [Fixpoint] on a budget of
      iterations that starts at the length of the input; the loop test comes
      first, so the budget never decides a result. *)

From Stdlib Require Import ZArith Ascii String List Lia Bool.
From Stdlib Require Import Floats.SpecFloat.
From stdpp Require Import base list gmap strings.

(** * The model *)

(** ** Byte strings *)

Abbreviation bytes := (list ascii).

(** A string literal as the bytes it holds. *)
Definition B (s : string) : bytes := list_ascii_of_string s.

(** [data[i]] *)
Definition byte_at (data : bytes) (i : nat) : ascii := nth i data zero.

(** [std::string(data + pos, n)] *)
Definition substr (data : bytes) (pos n : nat) : bytes := take n (drop pos data).

(** [memchr(data + pos, c, n)]: the first index in [pos, pos + n) that holds
    [c], or the null pointer. *)
Fixpoint memchr (data : bytes) (pos : nat) (c : ascii) (n : nat) : option nat :=
  match n with
  | O => None
  | S n' => if Ascii.eqb (byte_at data pos) c then Some pos
            else memchr data (S pos) c n'
  end.

(** The unsigned value of a character. *)
Definition code (c : ascii) : Z := Z.of_N (N_of_ascii c).

(** [str.c_str()] read as a C string, and the bytes [strlen] counts: those
    before the first zero byte. *)
Fixpoint c_str (str : bytes) : bytes :=
  match str with
  | [] => []
  | c :: rest => if Ascii.eqb c zero then [] else c :: c_str rest
  end.

(** A byte of the ASCII range. *)
Definition is_ascii (c : ascii) : bool := (code c <? 128)%Z.

(** [static_cast<char>(v)] for an [int] [v]: its low eight bits. *)
Definition char_of_int (v : Z) : ascii := ascii_of_N (Z.to_N (v mod 256)).

(** ** Host values

    What the code sees of a JavaScript value through the N-API wrappers: the
    answers of the [Is...] tests and the results of the accessors it calls.
    Objects live in a heap and are referred to by address, so that a value
    can contain itself.  A callable is the value it returns for a receiver:
    it leaves the heap as it is, and an exception thrown by it (or by a
    getter) is not part of the model. *)

(** A number is an IEEE-754 double: zero, infinity, NaN, or
    [(-1)^s * m * 2^e]. *)
Abbreviation double := spec_float.

Definition loc := nat.

Inductive Value :=
| VNull
| VUndefined
| VBoolean (b : bool)
| VNumber (d : double)
| VString (utf8 : bytes)
| VRef (l : loc)
| VOther.  (* a symbol, a bigint: no test of the code holds of it *)

Record JsObject := {
  obj_is_array : bool;                 (* [IsArray()] *)
  obj_is_object : bool;                (* [IsObject()] *)
  obj_call : option (Value → Value);   (* [IsFunction()], and what
                                          [Call(receiver, {})] returns *)
  obj_elems : list Value;              (* [Length()], [Get(i)] *)
  obj_keys : list bytes;               (* [GetPropertyNames()], in host order *)
  obj_props : gmap bytes Value         (* [Has(name)], [Get(name)] *)
}.

Definition Heap := loc → JsObject.

Definition IsNull (v : Value) : bool :=
  match v with VNull => true | _ => false end.
Definition IsUndefined (v : Value) : bool :=
  match v with VUndefined => true | _ => false end.
Definition IsBoolean (v : Value) : bool :=
  match v with VBoolean _ => true | _ => false end.
Definition IsNumber (v : Value) : bool :=
  match v with VNumber _ => true | _ => false end.
Definition IsString (v : Value) : bool :=
  match v with VString _ => true | _ => false end.
Definition IsArray (h : Heap) (v : Value) : bool :=
  match v with VRef l => obj_is_array (h l) | _ => false end.
Definition IsObject (h : Heap) (v : Value) : bool :=
  match v with VRef l => obj_is_object (h l) | _ => false end.
Definition IsFunction (h : Heap) (v : Value) : bool :=
  match v with
  | VRef l => match obj_call (h l) with Some _ => true | None => false end
  | _ => false
  end.

(** [value.As<Napi::Boolean>().Value()] *)
Definition BooleanValue (v : Value) : bool :=
  match v with VBoolean b => b | _ => false end.
(** [value.As<Napi::Number>().DoubleValue()] *)
Definition DoubleValue (v : Value) : double :=
  match v with VNumber d => d | _ => S754_nan end.
(** [value.As<Napi::String>().Utf8Value()] *)
Definition Utf8Value (v : Value) : bytes :=
  match v with VString s => s | _ => [] end.
(** [value.As<Napi::Object>()] *)
Definition AsObject (h : Heap) (v : Value) : JsObject :=
  match v with
  | VRef l => h l
  | _ => {| obj_is_array := false; obj_is_object := false; obj_call := None;
            obj_elems := []; obj_keys := []; obj_props := ∅ |}
  end.

(** [obj.Has(name)] and [obj.Get(name)] *)
Definition Has (o : JsObject) (name : bytes) : bool :=
  match obj_props o !! name with Some _ => true | None => false end.
Definition Get (o : JsObject) (name : bytes) : Value :=
  default VUndefined (obj_props o !! name).
(** [arr.Length()] and [arr.Get(i)] *)
Definition Length (arr : JsObject) : nat := length (obj_elems arr).
Definition GetIndex (arr : JsObject) (i : nat) : Value :=
  nth i (obj_elems arr) VUndefined.
(** [fn.Call(receiver, {})] *)
Definition Call (h : Heap) (fn receiver : Value) : Value :=
  match obj_call (AsObject h fn) with Some f => f receiver | None => VUndefined end.

(** [info.Length()] and [info[i]] of a [CallbackInfo] *)
Definition info_at (info : list Value) (i : nat) : Value := nth i info VUndefined.

(** A JavaScript string that the program makes or names, as its UTF-8
    bytes. *)
Abbreviation js_string := bytes.

(** What the program takes from its host.
    - [Napi::String::New(env, s)] for a [std::string] [s], and the property
      name [napi_set_named_property] makes of a C string: the string the
      bytes stand for as UTF-8.  ASCII text stands for itself; what the host
      puts in place of bytes that are no UTF-8 is the host's business.
    - The order in which [for (const auto& pair : parsed.query)] visits a
      [std::unordered_map]: each entry once, in an order of the library's
      choice. *)
Record Host := {
  String_New : bytes → js_string;
  String_New_ascii : ∀ s, forallb is_ascii s = true → String_New s = s;
  iteration : gmap bytes bytes → list (bytes * bytes);
  iteration_each_once : ∀ m, iteration m ≡ₚ map_to_list m
}.

(** [obj.Set(utf8name, value)] for a [std::string] name, on an object made
    by [Napi::Object::New]: the name is handed on as [utf8name.c_str()], so
    it ends at its first zero byte, and the assignment is an ordinary
    property assignment, which for [__proto__] calls the setter inherited
    from [Object.prototype]: given a string, the setter leaves the object
    as it is. *)
Definition Object_Set (host : Host) (obj : gmap js_string js_string)
    (utf8name : bytes) (value : js_string) : gmap js_string js_string :=
  let name := String_New host (c_str utf8name) in
  if decide (name = B "__proto__") then obj else <[name := value]> obj.

(** What an entry point hands back to its caller. *)
Inductive JsResult :=
| RString (s : js_string)
| RObject (fields : gmap js_string js_string)
| RUrl (pathname : js_string) (query : gmap js_string js_string).

Inductive JsError :=
| TypeError (message : bytes)
| RangeError (message : bytes).

Inductive Completion :=
| Returned (r : JsResult)
| Threw (e : JsError).

(** ** url_parser.cc *)

Module UrlParser.

(** [static int HEX_TABLE[256] = {-1};] *)
Definition HEX_TABLE_static : list Z := (-1)%Z :: repeat 0%Z 255.

(** [for (int i = lo; i <= hi; i++) table[i] = f i;] *)
Definition fill (lo hi : nat) (f : Z → Z) (table : list Z) : list Z :=
  fold_left (λ t i, <[i := f (Z.of_nat i)]> t) (seq lo (S hi - lo)) table.

(** The four loops of [initHexTable]. *)
Definition initHexTable (table : list Z) : list Z :=
  let t0 := fill 0 255 (λ _, -1)%Z table in
  let t1 := fill (nat_of_ascii "0") (nat_of_ascii "9") (λ i, i - code "0")%Z t0 in
  let t2 := fill (nat_of_ascii "a") (nat_of_ascii "f") (λ i, i - code "a" + 10)%Z t1 in
  fill (nat_of_ascii "A") (nat_of_ascii "F") (λ i, i - code "A" + 10)%Z t2.

Definition HEX_TABLE : list Z := initHexTable HEX_TABLE_static.

(** [HEX_TABLE[static_cast<unsigned char>(c)]] *)
Definition hex_lookup (c : ascii) : Z := nth (nat_of_ascii c) HEX_TABLE 0%Z.

(** The body of the [for] loop of [DecodeURIComponent], with [i] the loop
    counter and [result] the string built so far. *)
Fixpoint decode_loop (budget : nat) (data : bytes) (len i : nat)
    (result : bytes) : bytes :=
  if negb (i <? len) then result else
  match budget with
  | O => result
  | S budget' =>
    let c := byte_at data i in
    (* the loop header's [i++], then the next iteration *)
    let continue_ (i' : nat) (r : bytes) := decode_loop budget' data len (S i') r in
    if Ascii.eqb c "%" && (i + 2 <? len) then
      let hi := hex_lookup (byte_at data (i + 1)) in
      let lo := hex_lookup (byte_at data (i + 2)) in
      if (0 <=? hi)%Z && (0 <=? lo)%Z then
        continue_ (i + 2) (result ++ [char_of_int (Z.lor (Z.shiftl hi 4) lo)])
      else
        continue_ i (result ++ [c])
    else if Ascii.eqb c "+" then
      continue_ i (result ++ [" "%char])
    else
      continue_ i (result ++ [c])
  end.

Definition DecodeURIComponent (encoded : bytes) : bytes :=
  decode_loop (length encoded) encoded (length encoded) 0 [].

(** [struct ParseResult] *)
Record ParseResult := {
  pathname : bytes;
  query : gmap bytes bytes
}.

(** The [while (pos < end)] loop that [UrlParser::Parse] and [ParseQuery]
    both run; [query] is the mapping filled so far ([result.query[key] = value]
    in the one, [result.Set(key, value)] in the other). *)
Fixpoint query_loop (budget : nat) (data : bytes) (pos end_ : nat)
    (query : gmap bytes bytes) : gmap bytes bytes :=
  if negb (pos <? end_) then query else
  match budget with
  | O => query
  | S budget' =>
    let amp := memchr data pos "&" (end_ - pos) in
    let pairEnd := match amp with Some a => a | None => end_ end in
    let pairLen := pairEnd - pos in
    let eq := memchr data pos "=" pairLen in
    let query' :=
      match eq with
      | Some e =>
        if pos <? e then
          let key := DecodeURIComponent (substr data pos (e - pos)) in
          let value := DecodeURIComponent (substr data (e + 1) (pairEnd - e - 1)) in
          <[key := value]> query
        else query
      | None => query
      end in
    query_loop budget' data (pairEnd + 1) end_ query'
  end.

Definition Parse (url : bytes) : ParseResult :=
  let len := length url in
  match memchr url 0 "?" len with
  | None => {| pathname := url; query := ∅ |}
  | Some qmark =>
    let pathLen := qmark - 0 in
    let queryStart := qmark + 1 in
    let queryLen := len - pathLen - 1 in
    {| pathname := substr url 0 pathLen;
       query := query_loop len url queryStart (queryStart + queryLen) ∅ |}
  end.

End UrlParser.

(** The N-API wrappers of url_parser.cc. *)

Definition ParseUrl (host : Host) (info : list Value) : Completion :=
  if (length info <? 1) || negb (IsString (info_at info 0)) then
    Threw (TypeError (B "URL string expected"))
  else
    let url := Utf8Value (info_at info 0) in
    let parsed := UrlParser.Parse url in
    (* [for (pair : parsed.query)
          query.Set(pair.first, Napi::String::New(env, pair.second))] *)
    let query :=
      fold_left (λ query pair,
                   Object_Set host query pair.1 (String_New host pair.2))
                (iteration host (UrlParser.query parsed)) ∅ in
    Returned (RUrl (String_New host (UrlParser.pathname parsed)) query).

(** The [while (pos < end)] loop of [ParseQuery]: the loop of
    [UrlParser::Parse] over again, with
    [result.Set(key, Napi::String::New(env, value))] on the object it returns
    in place of the assignment to the map. *)
Fixpoint ParseQuery_loop (host : Host) (budget : nat) (data : bytes)
    (pos end_ : nat) (result : gmap js_string js_string)
    : gmap js_string js_string :=
  if negb (pos <? end_) then result else
  match budget with
  | O => result
  | S budget' =>
    let amp := memchr data pos "&" (end_ - pos) in
    let pairEnd := match amp with Some a => a | None => end_ end in
    let pairLen := pairEnd - pos in
    let eq := memchr data pos "=" pairLen in
    let result' :=
      match eq with
      | Some e =>
        if pos <? e then
          let key := UrlParser.DecodeURIComponent (substr data pos (e - pos)) in
          let value :=
            UrlParser.DecodeURIComponent (substr data (e + 1) (pairEnd - e - 1)) in
          Object_Set host result key (String_New host value)
        else result
      | None => result
      end in
    ParseQuery_loop host budget' data (pairEnd + 1) end_ result'
  end.

Definition ParseQuery (host : Host) (info : list Value) : Completion :=
  if (length info <? 1) || negb (IsString (info_at info 0)) then
    Returned (RObject ∅)
  else
    let queryString := Utf8Value (info_at info 0) in
    let len := length queryString in
    (* skip leading [?]: [data++; len--] *)
    let '(data, len) :=
      if (0 <? len) && Ascii.eqb (byte_at queryString 0) "?"
      then (1, len - 1) else (0, len) in
    Returned (RObject (ParseQuery_loop host (length queryString) queryString
                                       data (data + len) ∅)).

Definition DecodeURI (host : Host) (info : list Value) : Completion :=
  if (length info <? 1) || negb (IsString (info_at info 0)) then
    Returned (RString (String_New host []))
  else
    let encoded := Utf8Value (info_at info 0) in
    Returned (RString (String_New host (UrlParser.DecodeURIComponent encoded))).

(** ** json_stringify.cc *)

(** The double quote. *)
Definition dq : ascii := "034"%char.

(** [static const char* ESCAPE_TABLE[256] = {nullptr};] *)
Definition ESCAPE_TABLE_static : list (option bytes) := repeat None 256.

(** The seven assignments of [initEscapeTable]. *)
Definition initEscapeTable (table : list (option bytes)) : list (option bytes) :=
  let t := <[nat_of_ascii dq := Some ["\"%char; dq]]> table in
  let t := <[nat_of_ascii "\" := Some (B "\\")]> t in
  let t := <[nat_of_ascii "008" := Some (B "\b")]> t in
  let t := <[nat_of_ascii "012" := Some (B "\f")]> t in
  let t := <[nat_of_ascii "010" := Some (B "\n")]> t in
  let t := <[nat_of_ascii "013" := Some (B "\r")]> t in
  <[nat_of_ascii "009" := Some (B "\t")]> t.

Definition ESCAPE_TABLE : list (option bytes) := initEscapeTable ESCAPE_TABLE_static.

(** [ESCAPE_TABLE[c]] *)
Definition escape_lookup (c : ascii) : option bytes :=
  nth (nat_of_ascii c) ESCAPE_TABLE None.

(** *** class FastStringBuilder *)

Record FastStringBuilder := {
  buffer_ : bytes;   (* [std::vector<char>]; its size is the capacity *)
  pos_ : nat
}.

(** [std::vector<char>::resize(n)]: keeps the first [n] elements, fills up
    with zero bytes. *)
Definition vector_resize (v : bytes) (n : nat) : bytes :=
  take n v ++ repeat zero (n - length v).

(** [FastStringBuilder() : buffer_(4096) { pos_ = 0; }] *)
Definition FastStringBuilder_new : FastStringBuilder :=
  {| buffer_ := repeat zero 4096; pos_ := 0 |}.

(** [size * 2] for a [size_t] of 64 bits: the product wraps around. *)
Definition size_t_twice (size : nat) : nat :=
  N.to_nat ((N.of_nat size * 2) mod 2 ^ 64)%N.

(** [reserve(size)]; a [resize] that fails (above [max_size()], or for
    want of memory) is not modelled. *)
Definition reserve (sb : FastStringBuilder) (size : nat) : FastStringBuilder :=
  if length (buffer_ sb) <? size
  then {| buffer_ := vector_resize (buffer_ sb) (size_t_twice size);
          pos_ := pos_ sb |}
  else sb.

Definition ensureCapacity (sb : FastStringBuilder) (needed : nat)
    : FastStringBuilder :=
  if length (buffer_ sb) <? pos_ sb + needed
  then {| buffer_ := vector_resize (buffer_ sb) ((pos_ sb + needed) * 2);
          pos_ := pos_ sb |}
  else sb.

(** [memcpy(&dst[at], src, n)] *)
Fixpoint memcpy (dst : bytes) (at_ : nat) (src : bytes) (n : nat) : bytes :=
  match n, src with
  | S n', c :: src' => memcpy (<[at_ := c]> dst) (S at_) src' n'
  | _, _ => dst
  end.

(** [append(char c)] *)
Definition append_char (sb : FastStringBuilder) (c : ascii) : FastStringBuilder :=
  let sb := ensureCapacity sb 1 in
  {| buffer_ := <[pos_ sb := c]> (buffer_ sb); pos_ := pos_ sb + 1 |}.

(** [append(const char* str, size_t len)] *)
Definition append_n (sb : FastStringBuilder) (str : bytes) (len : nat)
    : FastStringBuilder :=
  let sb := ensureCapacity sb len in
  {| buffer_ := memcpy (buffer_ sb) (pos_ sb) str len; pos_ := pos_ sb + len |}.

(** [strlen(str)] *)
Definition strlen (str : bytes) : nat := length (c_str str).

(** [append(const char* str)] *)
Definition append_cstr (sb : FastStringBuilder) (str : bytes) : FastStringBuilder :=
  append_n sb str (strlen str).

Definition toString (sb : FastStringBuilder) : bytes :=
  take (pos_ sb) (buffer_ sb).

(** *** The C library's conversions *)

(** The character of a decimal digit. *)
Definition digit_char (n : N) : ascii := ascii_of_N (48 + n mod 10).

Fixpoint decimal_loop (budget : nat) (n : N) (acc : bytes) : bytes :=
  let acc := digit_char n :: acc in
  match budget with
  | O => acc
  | S budget' => if (n <? 10)%N then acc else decimal_loop budget' (n / 10) acc
  end.

(** The decimal digits of a natural number, without leading zeros; a number
    has no more decimal digits than bits. *)
Definition decimal (n : N) : bytes := decimal_loop (N.to_nat (N.log2 n)) n [].

(** [snprintf(buf, sizeof(buf), "%ld", value)], [long] being 64 bits wide. *)
Definition snprintf_ld (value : Z) : bytes :=
  if (value <? 0)%Z then "-"%char :: decimal (Z.to_N (- value))
  else decimal (Z.to_N value).

(** The character of a lowercase hexadecimal digit. *)
Definition hex_char (n : Z) : ascii :=
  let d := (n mod 16)%Z in
  if (d <? 10)%Z then char_of_int (code "0" + d) else char_of_int (code "a" + d - 10).

(** [snprintf(buf, sizeof(buf), "\\u%04x", c)] for an [unsigned char] *)
Definition snprintf_u04x (c : ascii) : bytes :=
  let v := code c in
  ["\"%char; "u"%char; hex_char (v / 4096); hex_char (v / 256);
   hex_char (v / 16); hex_char v].

(** What [snprintf(buf, sizeof(buf), "%.15g", value)] writes for a finite
    [value] in the C locale: an optional sign, an integer part without
    leading zeros, an optional point and fraction digits, an optional
    exponent of a sign and at least two digits.  Which digits it writes is
    the C library's business; the serializer is [Section]-parameterised by
    it. *)
Record g_format := {
  g_negative : bool;
  g_integer : N;
  g_fraction : list N;              (* digits after the point *)
  g_exponent : option (bool * N)    (* sign (true for [-]) and magnitude *)
}.

Definition g_render (g : g_format) : bytes :=
  (if g_negative g then ["-"%char] else [])
  ++ decimal (g_integer g)
  ++ match g_fraction g with
     | [] => []
     | ds => "."%char :: map digit_char ds
     end
  ++ match g_exponent g with
     | None => []
     | Some (neg, e) =>
       "e"%char :: (if neg then "-"%char else "+"%char)
       :: (if (e <? 10)%N then ["0"%char] else []) ++ decimal e
     end.

(** *** Doubles *)

Definition isnan (d : double) : bool :=
  match d with S754_nan => true | _ => false end.
Definition isinf (d : double) : bool :=
  match d with S754_infinity _ => true | _ => false end.

(** A finite double is [significand d * 2 ^ exponent d]. *)
Definition significand (d : double) : Z :=
  match d with
  | S754_finite s m _ => if s then Z.neg m else Z.pos m
  | _ => 0%Z
  end.
Definition exponent (d : double) : Z :=
  match d with S754_finite _ _ e => e | _ => 0%Z end.

Definition INT64_MIN : Z := (- 2 ^ 63)%Z.
Definition INT64_MAX : Z := (2 ^ 63 - 1)%Z.

(** [static_cast<int64_t>(num)]: the value truncated toward zero.  Out of
    the range of [int64_t] the conversion is undefined; it is given the
    result of x86-64 ([INT64_MIN]), and the range test that follows it in
    [stringifyValueFast] fails there whatever the result. *)
Definition static_cast_int64 (d : double) : Z :=
  match d with
  | S754_nan | S754_infinity _ => INT64_MIN
  | _ =>
    let t := if (0 <=? exponent d)%Z then (significand d * 2 ^ exponent d)%Z
             else Z.quot (significand d) (2 ^ (- exponent d)) in
    if (INT64_MIN <=? t)%Z && (t <=? INT64_MAX)%Z then t else INT64_MIN
  end.

(** The order between a double and the double of an integer [c].  The
    conversion of [c] to double is exact for every [c] it is used with: the
    two constants [±9007199254740991], and the truncation of a double
    (a double of magnitude [2^53] or more is an integer already, and below
    that every integer is a double). *)
Definition double_compare (d : double) (c : Z) : option comparison :=
  match d with
  | S754_nan => None
  | S754_infinity s => Some (if s then Lt else Gt)
  | _ =>
    Some (if (0 <=? exponent d)%Z then (significand d * 2 ^ exponent d ?= c)%Z
          else (significand d ?= c * 2 ^ (- exponent d))%Z)
  end.

Definition double_eq (d : double) (c : Z) : bool :=
  match double_compare d c with Some Eq => true | _ => false end.
Definition double_ge (d : double) (c : Z) : bool :=
  match double_compare d c with Some Eq | Some Gt => true | _ => false end.
Definition double_le (d : double) (c : Z) : bool :=
  match double_compare d c with Some Eq | Some Lt => true | _ => false end.

(** *** The serializer *)

Definition appendInt (sb : FastStringBuilder) (value : Z) : FastStringBuilder :=
  let buf := snprintf_ld value in
  append_n sb buf (length buf).

(** The loop of [escapeStringFast]: [n] iterations are left, [i] is the
    counter, [lastPos] the start of the run not yet flushed. *)
Fixpoint escape_loop (n : nat) (data : bytes) (i lastPos : nat)
    (sb : FastStringBuilder) : FastStringBuilder * nat :=
  match n with
  | O => (sb, lastPos)
  | S n' =>
    let c := byte_at data i in
    if (code c <? 32)%Z || Ascii.eqb c dq || Ascii.eqb c "\" then
      let sb := if lastPos <? i
                then append_n sb (drop lastPos data) (i - lastPos) else sb in
      let sb := match escape_lookup c with
                | Some esc => append_cstr sb esc
                | None => append_n sb (snprintf_u04x c) 6
                end in
      escape_loop n' data (S i) (i + 1) sb
    else
      escape_loop n' data (S i) lastPos sb
  end.

Definition escapeStringFast (sb : FastStringBuilder) (str : bytes)
    : FastStringBuilder :=
  let sb := append_char sb dq in
  let len := length str in
  let '(sb, lastPos) := escape_loop len str 0 0 sb in
  let sb := if lastPos <? len
            then append_n sb (drop lastPos str) (len - lastPos) else sb in
  append_char sb dq.

Section Stringify.

Variable snprintf_g15 : double → g_format.

Definition appendDouble (sb : FastStringBuilder) (value : double)
    : FastStringBuilder :=
  let buf := g_render (snprintf_g15 value) in
  append_n sb buf (length buf).

(** The serializer's three functions call each other; [recurse] stands for
    the call of [stringifyValueFast] in the two loops. *)
Section Containers.

Variable recurse : FastStringBuilder → Value → Z → option FastStringBuilder.

Fixpoint array_loop (arr : JsObject) (depth : Z) (n i : nat)
    (sb : FastStringBuilder) : option FastStringBuilder :=
  match n with
  | O => Some sb
  | S n' =>
    let sb := if 0 <? i then append_char sb "," else sb in
    sb ← recurse sb (GetIndex arr i) (depth + 1)%Z;
    array_loop arr depth n' (S i) sb
  end.

Definition stringifyArrayFast (sb : FastStringBuilder) (arr : JsObject)
    (depth : Z) : option FastStringBuilder :=
  if (10 <? depth)%Z then Some (append_n sb (B "null") 4)
  else
    let sb := append_char sb "[" in
    let len := Length arr in
    sb ← array_loop arr depth len 0 sb;
    Some (append_char sb "]").

Fixpoint object_loop (obj : JsObject) (keys : list bytes) (depth : Z)
    (n i : nat) (first : bool) (sb : FastStringBuilder)
    : option FastStringBuilder :=
  match n with
  | O => Some sb
  | S n' =>
    let key := nth i keys [] in
    let val := Get obj key in
    if IsUndefined val then object_loop obj keys depth n' (S i) first sb
    else
      let sb := if negb first then append_char sb "," else sb in
      let sb := escapeStringFast sb key in
      let sb := append_char sb ":" in
      sb ← recurse sb val (depth + 1)%Z;
      object_loop obj keys depth n' (S i) false sb
  end.

Definition stringifyObjectFast (sb : FastStringBuilder) (obj : JsObject)
    (depth : Z) : option FastStringBuilder :=
  if (10 <? depth)%Z then Some (append_n sb (B "null") 4)
  else
    let sb := append_char sb "{" in
    let keys := obj_keys obj in
    let len := length keys in
    sb ← object_loop obj keys depth len 0 true sb;
    Some (append_char sb "}").

End Containers.

(** [fuel] bounds how deep the calls of [stringifyValueFast] nest (the C++
    call stack); [None] is a run that needs more. *)
Fixpoint stringifyValueFast (fuel : nat) (h : Heap) (sb : FastStringBuilder)
    (value : Value) (depth : Z) : option FastStringBuilder :=
  match fuel with
  | O => None
  | S fuel' =>
    if IsNull value || IsUndefined value then
      Some (append_n sb (B "null") 4)
    else if IsBoolean value then
      if BooleanValue value then Some (append_n sb (B "true") 4)
      else Some (append_n sb (B "false") 5)
    else if IsNumber value then
      let num := DoubleValue value in
      if isnan num || isinf num then
        Some (append_n sb (B "null") 4)
      else if double_eq num (static_cast_int64 num)
              && double_ge num (-9007199254740991)
              && double_le num 9007199254740991 then
        Some (appendInt sb (static_cast_int64 num))
      else
        Some (appendDouble sb num)
    else if IsString value then
      Some (escapeStringFast sb (Utf8Value value))
    else if IsArray h value then
      stringifyArrayFast (stringifyValueFast fuel' h) sb (AsObject h value) depth
    else if IsObject h value then
      let obj := AsObject h value in
      if Has obj (B "toJSON") && IsFunction h (Get obj (B "toJSON")) then
        let toJSON := Get obj (B "toJSON") in
        let result := Call h toJSON value in
        stringifyValueFast fuel' h sb result depth
      else
        stringifyObjectFast (stringifyValueFast fuel' h) sb obj depth
    else
      Some (append_n sb (B "null") 4)
  end.

(** [JsonStringifier::Stringify] *)
Definition Stringify (fuel : nat) (h : Heap) (value : Value) : option bytes :=
  let sb := FastStringBuilder_new in
  sb ← stringifyValueFast fuel h sb value 0;
  Some (toString sb).

(** The N-API wrapper [FastStringify], with the [Napi::String::New] of
    [JsonStringifier::Stringify].  [fuel] is the number of nested calls the
    stack holds: a recursion that needs more is stopped by the host, which
    finds the stack exhausted when [toJSON] is called and raises its
    [RangeError].  A callable is a function of its receiver in this model:
    a [toJSON] or a getter that throws is not part of it. *)
Definition FastStringify (host : Host) (fuel : nat) (h : Heap)
    (info : list Value) : Completion :=
  if length info <? 1 then Returned (RString (String_New host (B "undefined")))
  else
    match Stringify fuel h (info_at info 0) with
    | Some s => Returned (RString (String_New host s))
    | None => Threw (RangeError (B "Maximum call stack size exceeded"))
    end.

End Stringify.

(** * Reference definitions

    The functions and predicates the properties are stated against, in the
    words of the specification. *)

(** ** The URL helpers *)

(** The hex table as a rule: ['0'..'9'], ['a'..'f'], ['A'..'F'] are [0..15];
    every other byte is not a hex digit. *)
Definition hex_digit_value (c : ascii) : option Z :=
  let i := code c in
  if (code "0" <=? i)%Z && (i <=? code "9")%Z then Some (i - code "0")%Z
  else if (code "a" <=? i)%Z && (i <=? code "f")%Z then Some (i - code "a" + 10)%Z
  else if (code "A" <=? i)%Z && (i <=? code "F")%Z then Some (i - code "A" + 10)%Z
  else None.

(** The reference percent-decode: one rule per leading byte, each with the
    number of input bytes it consumes. *)
Fixpoint percent_decode (s : bytes) : bytes :=
  match s with
  | [] => []
  | c :: rest =>
    if Ascii.eqb c "%" then
      match rest with
      | h :: l :: rest' =>
        match hex_digit_value h, hex_digit_value l with
        | Some hi, Some lo =>
          char_of_int (Z.lor (Z.shiftl hi 4) lo) :: percent_decode rest'
        | _, _ => c :: percent_decode rest
        end
      | _ => c :: percent_decode rest
      end
    else if Ascii.eqb c "+" then " "%char :: percent_decode rest
    else c :: percent_decode rest
  end.

(** The index of the first occurrence of a byte. *)
Fixpoint index_of (c : ascii) (s : bytes) : option nat :=
  match s with
  | [] => None
  | x :: rest => if Ascii.eqb x c then Some 0 else S <$> index_of c rest
  end.

(** The segments between the occurrences of a separator; empty segments
    are kept. *)
Fixpoint split_on (sep : ascii) (s : bytes) : list bytes :=
  match s with
  | [] => [[]]
  | c :: rest =>
    if Ascii.eqb c sep then [] :: split_on sep rest
    else match split_on sep rest with
         | seg :: segs => (c :: seg) :: segs
         | [] => [[c]]
         end
  end.

(** What one segment contributes: nothing without [=] or with [=] as its
    first byte; otherwise the decoded key and the decoded value on either
    side of the first [=]. *)
Definition segment_entry (seg : bytes) : option (bytes * bytes) :=
  match index_of "=" seg with
  | Some (S e) =>
    Some (percent_decode (take (S e) seg), percent_decode (drop (S (S e)) seg))
  | _ => None
  end.

(** The remainder [parse_query] splits: its input without a leading [?]. *)
Definition skip_question (q : bytes) : bytes :=
  match q with
  | c :: q' => if Ascii.eqb c "?" then q' else q
  | [] => q
  end.

(** The contributions of a query string, in the order of its segments. *)
Definition contributions (q : bytes) : list (bytes * bytes) :=
  omap segment_entry (split_on "&" q).

(** [mapping[k] := v] for each contribution in turn. *)
Definition assign_all (l : list (bytes * bytes)) (m : gmap bytes bytes)
    : gmap bytes bytes :=
  fold_left (λ m kv, <[kv.1 := kv.2]> m) l m.

Definition assign_entry (o : option (bytes * bytes)) (m : gmap bytes bytes)
    : gmap bytes bytes :=
  match o with Some (k, v) => <[k := v]> m | None => m end.

(** [result.Set(k, Napi::String::New(env, v))] for each pair in turn. *)
Definition set_all (host : Host) (l : list (bytes * bytes))
    (obj : gmap js_string js_string) : gmap js_string js_string :=
  fold_left (λ obj kv, Object_Set host obj kv.1 (String_New host kv.2)) l obj.

(** A key and a value that reach the object as they are: the key holds no
    zero byte and is not [__proto__], and the host reads key and value as
    the strings their bytes spell (as it does well-formed UTF-8). *)
Definition taken_as_is (host : Host) (kv : bytes * bytes) : Prop :=
  c_str kv.1 = kv.1 ∧ String_New host kv.1 = kv.1 ∧ kv.1 ≠ B "__proto__"
  ∧ String_New host kv.2 = kv.2.

(** The value of the last pair of a list that has the key [k]. *)
Fixpoint last_value (k : bytes) (l : list (bytes * bytes)) : option bytes :=
  match l with
  | [] => None
  | (k', v) :: rest =>
    match last_value k rest with
    | Some v' => Some v'
    | None => if decide (k' = k) then Some v else None
    end
  end.

(** Whether a byte occurs in a byte string. *)
Definition has_byte (c : ascii) (s : bytes) : bool :=
  match index_of c s with Some _ => true | None => false end.

(** A raw key and a raw value that can stand in one segment: the key is not
    empty and holds no [&] and no [=]; the value holds no [&]. *)
Definition raw_pair_ok (kv : bytes * bytes) : bool :=
  negb (Nat.eqb (length kv.1) 0)
  && negb (has_byte "&" kv.1) && negb (has_byte "=" kv.1)
  && negb (has_byte "&" kv.2).

(** [s1&s2&...&sn] *)
Fixpoint join_amp (segs : list bytes) : bytes :=
  match segs with
  | [] => []
  | [seg] => seg
  | seg :: rest => seg ++ "&"%char :: join_amp rest
  end.

(** [k1=v1&k2=v2&...&kn=vn] *)
Definition join_query (kvs : list (bytes * bytes)) : bytes :=
  join_amp (map (λ kv, kv.1 ++ "="%char :: kv.2) kvs).

Definition is_alnum (c : ascii) : bool :=
  let i := code c in
  ((code "0" <=? i) && (i <=? code "9")
   || (code "a" <=? i) && (i <=? code "z")
   || (code "A" <=? i) && (i <=? code "Z"))%Z.

(** The hexadecimal digit of [n mod 16], in upper or lower case. *)
Definition hex_digit_char (upper : bool) (n : Z) : ascii :=
  let d := (n mod 16)%Z in
  if (d <? 10)%Z then char_of_int (code "0" + d)
  else char_of_int (code (if upper then "A" else "a") + d - 10).

(** The percent-encoding of the specification's round trip: every byte
    that is not alphanumeric becomes its [%XX] triplet. *)
Definition percent_encode_byte (upper : bool) (c : ascii) : bytes :=
  if is_alnum c then [c]
  else ["%"%char; hex_digit_char upper (code c / 16); hex_digit_char upper (code c)].

Definition percent_encode (upper : bool) (b : bytes) : bytes :=
  concat (map (percent_encode_byte upper) b).

(** The invariant of the output buffer: the committed bytes lie within it. *)
Definition builder_wf (sb : FastStringBuilder) : Prop :=
  pos_ sb ≤ length (buffer_ sb).

(** A builder whose 4096 bytes are all committed. *)
Definition full_builder : FastStringBuilder :=
  append_n FastStringBuilder_new (repeat "a"%char 4096) 4096.

(** ** Heaps used in the statements *)

Definition plain_object (keys : list bytes) (props : list (bytes * Value))
    : JsObject :=
  {| obj_is_array := false; obj_is_object := true; obj_call := None;
     obj_elems := []; obj_keys := keys; obj_props := list_to_map props |}.

Definition array_object (elems : list Value) (keys : list bytes)
    (props : list (bytes * Value)) : JsObject :=
  {| obj_is_array := true; obj_is_object := true; obj_call := None;
     obj_elems := elems; obj_keys := keys; obj_props := list_to_map props |}.

Definition function_object (f : Value → Value) : JsObject :=
  {| obj_is_array := false; obj_is_object := true; obj_call := Some f;
     obj_elems := []; obj_keys := []; obj_props := ∅ |}.

(** The heap [h] with the object at [l] replaced. *)
Definition heap_update (h : Heap) (l : loc) (o : JsObject) : Heap :=
  λ l', if Nat.eqb l' l then o else h l'.

(** [const o = { toJSON() { return this; } }]: [o] at address 0, its
    [toJSON] at address 1; address 2 holds the array [[o]]. *)
Definition self_toJSON_heap : Heap :=
  λ l, match l with
       | 0 => plain_object [B "toJSON"] [(B "toJSON", VRef 1)]
       | 1 => function_object (λ this, this)
       | _ => array_object [VRef 0] [] []
       end.

(** [const a = []; a.push(a)]: the array at address 0 holds itself. *)
Definition cyclic_array_heap : Heap :=
  λ _, array_object [VRef 0] [] [].

(** [const a = [1, 2]; a.toJSON = () => "X"]: the array at address 0, its
    [toJSON] at address 1; address 2 holds the plain object
    [{ toJSON: () => "X" }]. *)
Definition array_toJSON_heap : Heap :=
  λ l, match l with
       | 0 => array_object [VNumber (S754_finite false 1 0);
                            VNumber (S754_finite false 1 1)]
                           [B "0"; B "1"; B "toJSON"] [(B "toJSON", VRef 1)]
       | 1 => function_object (λ _, VString (B "X"))
       | _ => plain_object [B "toJSON"] [(B "toJSON", VRef 1)]
       end.

(** ** JSON texts (RFC 8259), on bytes *)

Definition is_digit (c : ascii) : bool :=
  ((code "0" <=? code c) && (code c <=? code "9"))%Z.
Definition is_digit19 (c : ascii) : bool :=
  ((code "1" <=? code c) && (code c <=? code "9"))%Z.
Definition is_hex_digit (c : ascii) : bool :=
  match hex_digit_value c with Some _ => true | None => false end.
Definition is_ws (c : ascii) : bool :=
  Ascii.eqb c " " || Ascii.eqb c "009" || Ascii.eqb c "010" || Ascii.eqb c "013".
(** A byte that stands for itself inside a string: not a control character,
    not the quote, not the backslash. *)
Definition is_unescaped (c : ascii) : bool :=
  (32 <=? code c)%Z && negb (Ascii.eqb c dq) && negb (Ascii.eqb c "\").
(** The letters that may follow a backslash. *)
Definition is_escape_letter (c : ascii) : bool :=
  Ascii.eqb c dq || Ascii.eqb c "\" || Ascii.eqb c "/" || Ascii.eqb c "b"
  || Ascii.eqb c "f" || Ascii.eqb c "n" || Ascii.eqb c "r" || Ascii.eqb c "t".

Inductive json_int : bytes → Prop :=
| json_int_zero : json_int ["0"%char]
| json_int_nonzero c ds :
    is_digit19 c = true → forallb is_digit ds = true → json_int (c :: ds).

Inductive json_frac : bytes → Prop :=
| json_frac_none : json_frac []
| json_frac_some d ds :
    forallb is_digit (d :: ds) = true → json_frac ("."%char :: d :: ds).

Inductive json_exp : bytes → Prop :=
| json_exp_none : json_exp []
| json_exp_some e sign d ds :
    e = "e"%char ∨ e = "E"%char →
    sign = [] ∨ sign = ["+"%char] ∨ sign = ["-"%char] →
    forallb is_digit (d :: ds) = true →
    json_exp (e :: sign ++ d :: ds).

Inductive json_number : bytes → Prop :=
| json_number_intro minus i f e :
    minus = [] ∨ minus = ["-"%char] →
    json_int i → json_frac f → json_exp e →
    json_number (minus ++ i ++ f ++ e).

Inductive json_chars : bytes → Prop :=
| json_chars_nil : json_chars []
| json_chars_plain c s :
    is_unescaped c = true → json_chars s → json_chars (c :: s)
| json_chars_escape c s :
    is_escape_letter c = true → json_chars s → json_chars ("\"%char :: c :: s)
| json_chars_unicode h1 h2 h3 h4 s :
    forallb is_hex_digit [h1; h2; h3; h4] = true → json_chars s →
    json_chars ("\"%char :: "u"%char :: h1 :: h2 :: h3 :: h4 :: s).

Inductive json_string : bytes → Prop :=
| json_string_intro s : json_chars s → json_string (dq :: s ++ [dq]).

Inductive json_value : bytes → Prop :=
| json_null : json_value (B "null")
| json_true : json_value (B "true")
| json_false : json_value (B "false")
| json_num n : json_number n → json_value n
| json_str s : json_string s → json_value s
| json_array_empty w :
    forallb is_ws w = true → json_value ("["%char :: w ++ ["]"%char])
| json_array es : json_elements es → json_value ("["%char :: es ++ ["]"%char])
| json_object_empty w :
    forallb is_ws w = true → json_value ("{"%char :: w ++ ["}"%char])
| json_object ms : json_members ms → json_value ("{"%char :: ms ++ ["}"%char])
with json_element : bytes → Prop :=
| json_element_intro w1 v w2 :
    forallb is_ws w1 = true → json_value v → forallb is_ws w2 = true →
    json_element (w1 ++ v ++ w2)
with json_elements : bytes → Prop :=
| json_elements_one e : json_element e → json_elements e
| json_elements_more e es :
    json_element e → json_elements es → json_elements (e ++ ","%char :: es)
with json_member : bytes → Prop :=
| json_member_intro w1 k w2 e :
    forallb is_ws w1 = true → json_string k → forallb is_ws w2 = true →
    json_element e → json_member (w1 ++ k ++ w2 ++ ":"%char :: e)
with json_members : bytes → Prop :=
| json_members_one m : json_member m → json_members m
| json_members_more m ms :
    json_member m → json_members ms → json_members (m ++ ","%char :: ms).

(** A JSON text is a value between optional whitespace. *)
Definition json_text (t : bytes) : Prop := json_element t.

(** The text [stringifyValueFast] writes for a number. *)
Definition number_text (snprintf_g15 : double → g_format) (num : double) : bytes :=
  if isnan num || isinf num then B "null"
  else if double_eq num (static_cast_int64 num)
          && double_ge num (-9007199254740991)
          && double_le num 9007199254740991
  then snprintf_ld (static_cast_int64 num)
  else g_render (snprintf_g15 num).

(** [d] is the integer [n], and [n] is a safe integer. *)
Definition is_safe_integer (d : double) (n : Z) : Prop :=
  double_eq d n = true ∧ (-9007199254740991 ≤ n ≤ 9007199254740991)%Z.

(** ** The string emitter, in the specification's words *)

(** The bytes that are not written as they are. *)
Definition needs_escape (c : ascii) : bool :=
  (code c <? 32)%Z || Ascii.eqb c dq || Ascii.eqb c "\".

(** The short escape from the table if there is one, [\u00XX] otherwise;
    every other byte as it is. *)
Definition escape_byte (c : ascii) : bytes :=
  if needs_escape c then
    match escape_lookup c with
    | Some esc => esc
    | None => snprintf_u04x c
    end
  else [c].

Definition escape_bytes (s : bytes) : bytes := concat (map escape_byte s).

(** What is written for a byte that needs an escape has the shape of a JSON
    escape: a backslash and an escape letter, or [\u] and four hex digits. *)
Definition escape_shape_ok (c : ascii) : bool :=
  match escape_lookup c with
  | Some [bs; letter] => Ascii.eqb bs "\" && is_escape_letter letter
  | Some _ => false
  | None =>
    match snprintf_u04x c with
    | [bs; u; h1; h2; h3; h4] =>
      Ascii.eqb bs "\" && Ascii.eqb u "u" && forallb is_hex_digit [h1; h2; h3; h4]
    | _ => false
    end
  end.

(** No object of the heap passes the [toJSON] test of [stringifyValueFast]. *)
Definition no_toJSON (h : Heap) : Prop :=
  ∀ l, Has (h l) (B "toJSON") && IsFunction h (Get (h l) (B "toJSON")) = false.

(** [recurse] appends a JSON value to a well-formed builder whenever it
    returns. *)
Definition writes_value
    (recurse : FastStringBuilder → Value → Z → option FastStringBuilder) : Prop :=
  ∀ sb v d sb',
    builder_wf sb → recurse sb v d = Some sb' →
    builder_wf sb' ∧ ∃ out, toString sb' = toString sb ++ out ∧ json_value out.

(** A stand-in for the C library in the examples: right on [2.5], the only
    number they hold that is no integer. *)
Definition sample_g15 (d : double) : g_format :=
  match d with
  | S754_finite false 5 (-1) =>
    {| g_negative := false; g_integer := 2; g_fraction := [5%N];
       g_exponent := None |}
  | _ =>
    {| g_negative := false; g_integer := 0; g_fraction := [];
       g_exponent := None |}
  end.

(** A stand-in for the host in the examples: well-formed UTF-8 (RFC 3629)
    is read as it is, any other byte as U+FFFD; the entries of a map are
    visited in the order of [map_to_list]. *)
Definition in_range (lo hi : Z) (c : ascii) : bool :=
  ((lo <=? code c) && (code c <=? hi))%Z.

Definition utf8_lead2 (c c1 : ascii) : bool :=
  in_range 194 223 c && in_range 128 191 c1.

Definition utf8_lead3 (c c1 : ascii) : bool :=
  Ascii.eqb c (ascii_of_nat 224) && in_range 160 191 c1
  || in_range 225 236 c && in_range 128 191 c1
  || Ascii.eqb c (ascii_of_nat 237) && in_range 128 159 c1
  || in_range 238 239 c && in_range 128 191 c1.

Definition utf8_lead4 (c c1 : ascii) : bool :=
  Ascii.eqb c (ascii_of_nat 240) && in_range 144 191 c1
  || in_range 241 243 c && in_range 128 191 c1
  || Ascii.eqb c (ascii_of_nat 244) && in_range 128 143 c1.

(** U+FFFD in UTF-8 *)
Definition replacement_character : bytes :=
  [ascii_of_nat 239; ascii_of_nat 191; ascii_of_nat 189].

Fixpoint sample_String_New (s : bytes) : js_string :=
  match s with
  | [] => []
  | c :: rest =>
    if is_ascii c then c :: sample_String_New rest
    else
      match rest with
      | c1 :: rest1 =>
        if utf8_lead2 c c1 then c :: c1 :: sample_String_New rest1
        else
          match rest1 with
          | c2 :: rest2 =>
            if utf8_lead3 c c1 && in_range 128 191 c2 then
              c :: c1 :: c2 :: sample_String_New rest2
            else
              match rest2 with
              | c3 :: rest3 =>
                if utf8_lead4 c c1 && in_range 128 191 c2 && in_range 128 191 c3
                then c :: c1 :: c2 :: c3 :: sample_String_New rest3
                else replacement_character ++ sample_String_New rest
              | [] => replacement_character ++ sample_String_New rest
              end
          | [] => replacement_character ++ sample_String_New rest
          end
      | [] => replacement_character
      end
  end.

Lemma sample_String_New_ascii (s : bytes) :
  forallb is_ascii s = true → sample_String_New s = s.
Proof.
  induction s as [|c s IH]; [reflexivity|]. cbn [forallb sample_String_New].
  intros [Hc Hs]%andb_true_iff. by rewrite Hc, (IH Hs).
Qed.

Definition sample_host : Host :=
  {| String_New := sample_String_New;
     String_New_ascii := sample_String_New_ascii;
     iteration := map_to_list;
     iteration_each_once := λ m, reflexivity (map_to_list m) |}.

(** Single quotes of a literal turned into double quotes. *)
Definition J (s : string) : bytes :=
  map (λ c, if Ascii.eqb c "'" then dq else c) (B s).

(** The values of the specification's scenarios: at 0 the object
    [{a: 1, b: "hi\n", c: null, d: undefined}], at 1 the array
    [[1, 2.5, NaN, true]], at 2 the object [{t: {toJSON: () => "X"}}]. *)
Definition scenario_heap : Heap :=
  λ l, match l with
       | 0 => plain_object [B "a"; B "b"; B "c"; B "d"]
                [(B "a", VNumber (S754_finite false 1 0));
                 (B "b", VString (B "hi" ++ ["010"%char]));
                 (B "c", VNull); (B "d", VUndefined)]
       | 1 => array_object [VNumber (S754_finite false 1 0);
                            VNumber (S754_finite false 5 (-1));
                            VNumber S754_nan; VBoolean true] [] []
       | 2 => plain_object [B "t"] [(B "t", VRef 3)]
       | 3 => plain_object [B "toJSON"] [(B "toJSON", VRef 4)]
       | _ => function_object (λ _, VString (B "X"))
       end.

(** ** Further reference definitions for the URL helpers *)

(** Whether a byte string ends inside a percent escape: a [%] is its last
    byte or its last but one. *)
Fixpoint open_escape (a : bytes) : bool :=
  match a with
  | [] => false
  | c :: rest =>
    match rest with
    | [] => Ascii.eqb c "%"
    | [d] => Ascii.eqb c "%" || Ascii.eqb d "%"
    | _ :: _ :: _ => open_escape rest
    end
  end.

(** ** The serializer as a function of the value *)

(** Items with a comma between them; [lead] asks for a comma before the
    first one as well. *)
Fixpoint comma_separated (lead : bool) (items : list bytes) : bytes :=
  match items with
  | [] => []
  | x :: rest =>
    (if lead then [","%char] else []) ++ x ++ comma_separated true rest
  end.

Definition join_comma (items : list bytes) : bytes := comma_separated false items.

(** ["key":text] *)
Definition member_text (key out : bytes) : bytes :=
  dq :: escape_bytes key ++ dq :: ":"%char :: out.

(** The text of a value, with no buffer: [null] for what has no text of
    its own, the elements of an array in order, the members of an object
    in the order of its keys without those whose value is undefined, what
    [toJSON] returns in place of the object that has it. *)
Fixpoint render (g : double → g_format) (fuel : nat) (h : Heap) (v : Value)
    (depth : Z) : option bytes :=
  match fuel with
  | O => None
  | S fuel' =>
    match v with
    | VNull | VUndefined | VOther => Some (B "null")
    | VBoolean b => Some (if b then B "true" else B "false")
    | VNumber d => Some (number_text g d)
    | VString s => Some (dq :: escape_bytes s ++ [dq])
    | VRef l =>
      let o := h l in
      if obj_is_array o then
        if (10 <? depth)%Z then Some (B "null")
        else
          items ← mapM (λ e, render g fuel' h e (depth + 1)%Z) (obj_elems o);
          Some ("["%char :: join_comma items ++ ["]"%char])
      else if obj_is_object o then
        if Has o (B "toJSON") && IsFunction h (Get o (B "toJSON")) then
          render g fuel' h (Call h (Get o (B "toJSON")) v) depth
        else if (10 <? depth)%Z then Some (B "null")
        else
          let present :=
            List.filter (λ key, negb (IsUndefined (Get o key))) (obj_keys o) in
          members ← mapM (λ key, out ← render g fuel' h (Get o key) (depth + 1)%Z;
                                 Some (member_text key out)) present;
          Some ("{"%char :: join_comma members ++ ["}"%char])
      else Some (B "null")
    end
  end.

(** [recurse] appends to a well-formed builder the text [rend] gives, and
    does not return where [rend] gives none. *)
Definition refines
    (recurse : FastStringBuilder → Value → Z → option FastStringBuilder)
    (rend : Value → Z → option bytes) : Prop :=
  ∀ sb v d,
    builder_wf sb →
    match rend v d with
    | Some out =>
      ∃ sb', recurse sb v d = Some sb' ∧ builder_wf sb'
             ∧ toString sb' = toString sb ++ out
    | None => recurse sb v d = None
    end.

(** A byte below 0x20: a control character. *)
Definition is_control (c : ascii) : bool := (code c <? 32)%Z.

(** No byte of the text is a control character. *)
Definition no_control (t : bytes) : bool := forallb (λ c, negb (is_control c)) t.

(** Every byte's escape is free of control characters. *)
Definition escape_printable_ok (c : ascii) : bool := no_control (escape_byte c).

(** ** Reading a JSON string back (RFC 8259, section 7) *)

(** The byte an escape letter stands for. *)
Definition unescape_letter (c : ascii) : option ascii :=
  if Ascii.eqb c dq then Some dq
  else if Ascii.eqb c "\" then Some "\"%char
  else if Ascii.eqb c "/" then Some "/"%char
  else if Ascii.eqb c "b" then Some "008"%char
  else if Ascii.eqb c "f" then Some "012"%char
  else if Ascii.eqb c "n" then Some "010"%char
  else if Ascii.eqb c "r" then Some "013"%char
  else if Ascii.eqb c "t" then Some "009"%char
  else None.

(** The UTF-8 bytes of a code point of the basic plane (surrogates are not
    paired). *)
Definition utf8_encode (cp : Z) : bytes :=
  if (cp <? 128)%Z then [char_of_int cp]
  else if (cp <? 2048)%Z then
    [char_of_int (192 + cp / 64); char_of_int (128 + cp mod 64)]
  else
    [char_of_int (224 + cp / 4096); char_of_int (128 + (cp / 64) mod 64);
     char_of_int (128 + cp mod 64)].

(** The bytes a string's content stands for: a plain byte for itself, a
    backslash and a letter for the letter's byte, [\uXXXX] for the UTF-8
    bytes of the code point; [None] where the content is no JSON string
    content. *)
Fixpoint json_unescape (s : bytes) : option bytes :=
  match s with
  | [] => Some []
  | c :: rest =>
    if Ascii.eqb c "\" then
      match rest with
      | [] => None
      | e :: rest' =>
        if Ascii.eqb e "u" then
          match rest' with
          | h1 :: h2 :: h3 :: h4 :: rest'' =>
            match hex_digit_value h1, hex_digit_value h2,
                  hex_digit_value h3, hex_digit_value h4 with
            | Some d1, Some d2, Some d3, Some d4 =>
              out ← json_unescape rest'';
              Some (utf8_encode (((d1 * 16 + d2) * 16 + d3) * 16 + d4) ++ out)
            | _, _, _, _ => None
            end
          | _ => None
          end
        else
          b ← unescape_letter e;
          out ← json_unescape rest';
          Some (b :: out)
      end
    else if is_unescaped c then
      out ← json_unescape rest;
      Some (c :: out)
    else None
  end.

(** What is written for the byte [c], read back on its own, is [c]; and
    it is one byte, a backslash and a letter, or [\u] and four digits. *)
Definition unescape_shape_ok (c : ascii) : bool :=
  match escape_byte c with
  | [x] =>
    Ascii.eqb x c && is_unescaped c && negb (Ascii.eqb c "\")
    && negb (needs_escape c)
  | [bs; e] =>
    Ascii.eqb bs "\" && negb (Ascii.eqb e "u")
    && match unescape_letter e with Some b => Ascii.eqb b c | None => false end
  | [bs; u; h1; h2; h3; h4] =>
    Ascii.eqb bs "\" && Ascii.eqb u "u"
    && match hex_digit_value h1, hex_digit_value h2,
             hex_digit_value h3, hex_digit_value h4 with
       | Some d1, Some d2, Some d3, Some d4 =>
         match utf8_encode (((d1 * 16 + d2) * 16 + d3) * 16 + d4) with
         | [b] => Ascii.eqb b c
         | _ => false
         end
       | _, _, _, _ => false
       end
  | _ => false
  end.

(** ** Reading a decimal integer back *)

(** The number a string of decimal digits stands for. *)
Definition read_decimal_from (acc : N) (s : bytes) : N :=
  fold_left (λ a c, a * 10 + (N_of_ascii c - 48))%N s acc.

Definition read_decimal (s : bytes) : N := read_decimal_from 0 s.

(** The integer a string of an optional minus sign and decimal digits
    stands for. *)
Definition read_int (s : bytes) : Z :=
  match s with
  | c :: ds =>
    if Ascii.eqb c "-" then (- Z.of_N (read_decimal ds))%Z
    else Z.of_N (read_decimal s)
  | [] => 0%Z
  end.

(** ** Calls on the output buffer *)

(** One call of a public method of [FastStringBuilder] that changes it. *)
Inductive builder_call :=
| CallReserve (size : nat)
| CallAppendChar (c : ascii)
| CallAppend (str : bytes) (len : nat)
| CallAppendStr (str : bytes).

Definition run_call (sb : FastStringBuilder) (call : builder_call)
    : FastStringBuilder :=
  match call with
  | CallReserve size => reserve sb size
  | CallAppendChar c => append_char sb c
  | CallAppend str len => append_n sb str len
  | CallAppendStr str => append_cstr sb str
  end.

(** The call reads no further than its source goes, and asks [resize]
    for no more than it takes: twice the size reserved is at most
    [max_size()], which is [2^63 - 1]. *)
Definition call_ok (call : builder_call) : bool :=
  match call with
  | CallReserve size => (N.of_nat size <? 2 ^ 62)%N
  | CallAppend str len => len <=? length str
  | _ => true
  end.

(** The bytes the call appends: for a C string, those before its first
    zero byte. *)
Definition call_text (call : builder_call) : bytes :=
  match call with
  | CallReserve _ => []
  | CallAppendChar c => [c]
  | CallAppend str len => take len str
  | CallAppendStr str => c_str str
  end.

Definition is_reserve (call : builder_call) : bool :=
  match call with CallReserve _ => true | _ => false end.

(** ** Where [toJSON] is called *)

(** [stringifyValueFast] reaches its [toJSON] call on [v]: an object that
    is no array and has a callable [toJSON]. *)
Definition takes_toJSON (h : Heap) (v : Value) : bool :=
  match v with
  | VRef l =>
    negb (obj_is_array (h l)) && obj_is_object (h l)
    && (Has (h l) (B "toJSON") && IsFunction h (Get (h l) (B "toJSON")))
  | _ => false
  end.

(** No [toJSON] that is called hands back a value on which [toJSON] is
    called again. *)
Definition toJSON_settles (h : Heap) : Prop :=
  ∀ l, takes_toJSON h (VRef l) = true →
       takes_toJSON h (Call h (Get (h l) (B "toJSON")) (VRef l)) = false.

(** ** The escape table as a rule *)

(** The letter of the two-byte escape of a byte, for the seven bytes that
    have one. *)
Definition short_escape (c : ascii) : option ascii :=
  if Ascii.eqb c dq then Some dq
  else if Ascii.eqb c "\" then Some "\"%char
  else if Ascii.eqb c "008" then Some "b"%char
  else if Ascii.eqb c "012" then Some "f"%char
  else if Ascii.eqb c "010" then Some "n"%char
  else if Ascii.eqb c "013" then Some "r"%char
  else if Ascii.eqb c "009" then Some "t"%char
  else None.

(** The same by table index. *)
Definition short_escape_at (i : nat) : option bytes :=
  (λ e, ["\"%char; e]) <$> (if i <? 256 then short_escape (ascii_of_nat i) else None).

(** * Properties *)

(** ** The percent decoder *)

Lemma hex_lookup_spec (c : ascii) :
  UrlParser.hex_lookup c = default (-1)%Z (hex_digit_value c).
Proof. destruct c as [[] [] [] [] [] [] [] []]; vm_compute; reflexivity. Qed.

Lemma hex_digit_value_range (c : ascii) (v : Z) :
  hex_digit_value c = Some v → (0 ≤ v < 16)%Z.
Proof.
  destruct c as [[] [] [] [] [] [] [] []]; vm_compute; intros H;
    try discriminate H; injection H as <-; split; congruence.
Qed.

Lemma hex_lookup_nonneg (c : ascii) :
  (0 <=? UrlParser.hex_lookup c)%Z
  = match hex_digit_value c with Some _ => true | None => false end.
Proof.
  rewrite hex_lookup_spec. destruct (hex_digit_value c) as [v|] eqn:E; simpl.
  - apply hex_digit_value_range in E. apply Z.leb_le; lia.
  - reflexivity.
Qed.

Lemma drop_byte_at (data : bytes) (i : nat) :
  i < length data → drop i data = byte_at data i :: drop (S i) data.
Proof.
  intros Hi. destruct (lookup_lt_is_Some_2 data i Hi) as [c Hc].
  unfold byte_at. rewrite nth_lookup, Hc. simpl. by apply drop_S.
Qed.

(** The loop of [DecodeURIComponent], started at any index with any prefix
    already written, appends the reference decoding of the rest. *)
Lemma decode_loop_percent_decode (budget : nat) (data : bytes) :
  ∀ (i : nat) (result : bytes),
    length data - i ≤ budget →
    UrlParser.decode_loop budget data (length data) i result
    = result ++ percent_decode (drop i data).
Proof.
  induction budget as [|budget IH]; intros i result Hb.
  - simpl. destruct (Nat.ltb_spec i (length data)); [lia|]. simpl.
    rewrite drop_ge by lia. by rewrite app_nil_r.
  - simpl. destruct (Nat.ltb_spec i (length data)) as [Hi|Hi]; simpl.
    2:{ rewrite drop_ge by lia. by rewrite app_nil_r. }
    rewrite (drop_byte_at data i Hi). set (c := byte_at data i).
    cbn [percent_decode].
    destruct (Ascii.eqb c "%") eqn:Ec; simpl.
    + destruct (Nat.ltb_spec (i + 2) (length data)) as [Hi2|Hi2].
      * rewrite (drop_byte_at data (S i)) by lia.
        rewrite (drop_byte_at data (S (S i))) by lia.
        replace (i + 1) with (S i) by lia. replace (i + 2) with (S (S i)) by lia.
        rewrite !hex_lookup_nonneg, !hex_lookup_spec.
        destruct (hex_digit_value (byte_at data (S i))) as [hi|] eqn:Ehi;
          destruct (hex_digit_value (byte_at data (S (S i)))) as [lo|] eqn:Elo;
          simpl; rewrite IH by lia; rewrite <- app_assoc; try reflexivity;
          rewrite (drop_byte_at data (S i)) by lia;
          rewrite (drop_byte_at data (S (S i))) by lia; reflexivity.
      * destruct (Ascii.eqb c "+") eqn:Ep.
        { apply Ascii.eqb_eq in Ec, Ep. rewrite Ec in Ep. discriminate Ep. }
        rewrite (IH (S i)) by lia. rewrite <- app_assoc. simpl. f_equal.
        destruct (drop (S i) data) as [|h [|l rest']] eqn:Ed; try reflexivity.
        exfalso. apply (f_equal length) in Ed. rewrite length_drop in Ed.
        simpl in Ed. lia.
    + destruct (Ascii.eqb c "+") eqn:Ep; rewrite IH by lia;
        by rewrite <- app_assoc.
Qed.

Lemma DecodeURIComponent_percent_decode (encoded : bytes) :
  UrlParser.DecodeURIComponent encoded = percent_decode encoded.
Proof.
  unfold UrlParser.DecodeURIComponent.
  rewrite decode_loop_percent_decode by lia. reflexivity.
Qed.

Lemma percent_decode_length (s : bytes) :
  length (percent_decode s) ≤ length s.
Proof.
  induction s as [s IH] using (induction_ltof1 _ (@length ascii)).
  unfold ltof in IH. destruct s as [|c rest]; [simpl; lia|].
  cbn [percent_decode].
  pose proof (IH rest ltac:(simpl; lia)) as Hrest.
  destruct (Ascii.eqb c "%").
  - destruct rest as [|h [|l rest']]; [simpl in *; lia..|].
    pose proof (IH rest' ltac:(simpl; lia)) as Hrest'.
    destruct (hex_digit_value h), (hex_digit_value l); simpl in *; lia.
  - destruct (Ascii.eqb c "+"); simpl in *; lia.
Qed.

(** *** The query splitter *)

Lemma memchr_index_of (data : bytes) (c : ascii) (n : nat) :
  ∀ pos, pos + n ≤ length data →
    memchr data pos c n = (λ j, pos + j) <$> index_of c (substr data pos n).
Proof.
  unfold substr. induction n as [|n IH]; intros pos Hn; [reflexivity|].
  rewrite (drop_byte_at data pos) by lia. simpl.
  destruct (Ascii.eqb (byte_at data pos) c).
  - simpl. f_equal. lia.
  - rewrite IH by lia. destruct (index_of c (take n (drop (S pos) data))); simpl;
      [f_equal; lia | reflexivity].
Qed.

Lemma index_of_lt (c : ascii) (s : bytes) (j : nat) :
  index_of c s = Some j → j < length s.
Proof.
  revert j. induction s as [|x s IH]; intros j; simpl; [discriminate|].
  destruct (Ascii.eqb x c).
  - intros [= <-]. lia.
  - destruct (index_of c s) as [j'|]; simpl; [|discriminate].
    intros [= <-]. specialize (IH j' eq_refl). lia.
Qed.

Lemma split_on_index_Some (sep : ascii) (s : bytes) (j : nat) :
  index_of sep s = Some j →
  split_on sep s = take j s :: split_on sep (drop (S j) s).
Proof.
  revert j. induction s as [|x s IH]; intros j; simpl; [discriminate|].
  destruct (Ascii.eqb x sep).
  - intros [= <-]. reflexivity.
  - destruct (index_of sep s) as [j'|]; simpl; [|discriminate].
    intros [= <-]. rewrite (IH j' eq_refl). reflexivity.
Qed.

Lemma split_on_index_None (sep : ascii) (s : bytes) :
  index_of sep s = None → split_on sep s = [s].
Proof.
  induction s as [|x s IH]; simpl; [reflexivity|].
  destruct (Ascii.eqb x sep); [discriminate|].
  destruct (index_of sep s); simpl; [discriminate|].
  intros _. rewrite IH by reflexivity. reflexivity.
Qed.

(** One turn of the loop on the segment [pos, pairEnd) does what
    [segment_entry] says of that segment. *)
Lemma loop_body_segment_entry (data : bytes) (pos pairEnd : nat)
    (m : gmap bytes bytes) :
  pos ≤ pairEnd ≤ length data →
  match memchr data pos "=" (pairEnd - pos) with
  | Some e =>
    if pos <? e then
      <[UrlParser.DecodeURIComponent (substr data pos (e - pos)) :=
          UrlParser.DecodeURIComponent (substr data (e + 1) (pairEnd - e - 1))]> m
    else m
  | None => m
  end = assign_entry (segment_entry (substr data pos (pairEnd - pos))) m.
Proof.
  intros Hp. rewrite memchr_index_of by lia. unfold segment_entry.
  destruct (index_of "=" (substr data pos (pairEnd - pos))) as [k|] eqn:Ek;
    simpl; [|reflexivity].
  pose proof (index_of_lt _ _ _ Ek) as Hk. unfold substr in Hk.
  rewrite length_take, length_drop in Hk.
  destruct k as [|k].
  - rewrite Nat.add_0_r, Nat.ltb_irrefl. reflexivity.
  - destruct (Nat.ltb_spec pos (pos + S k)); [|lia]. simpl.
    rewrite !DecodeURIComponent_percent_decode. unfold substr.
    replace (pos + S k - pos) with (S k) by lia.
    rewrite take_take. replace (S k `min` (pairEnd - pos)) with (S k) by lia.
    rewrite skipn_firstn_comm, drop_drop.
    replace (pos + S k + 1) with (pos + S (S k)) by lia.
    replace (pairEnd - (pos + S k) - 1) with (pairEnd - pos - S (S k)) by lia.
    reflexivity.
Qed.

Lemma query_loop_done (budget : nat) (data : bytes) (pos end_ : nat)
    (m : gmap bytes bytes) :
  end_ ≤ pos → UrlParser.query_loop budget data pos end_ m = m.
Proof.
  intros H. destruct budget; simpl; destruct (Nat.ltb_spec pos end_);
    try lia; reflexivity.
Qed.

Lemma assign_entry_fold (segs : list bytes) (m : gmap bytes bytes) :
  fold_left (λ m seg, assign_entry (segment_entry seg) m) segs m
  = assign_all (omap segment_entry segs) m.
Proof.
  revert m. induction segs as [|seg segs IH]; intros m; simpl; [reflexivity|].
  rewrite IH. destruct (segment_entry seg) as [[k v]|]; reflexivity.
Qed.

(** The loop, started at any position of the buffer, assigns the
    contributions of the segments of the rest of the buffer, in order. *)
Lemma query_loop_contributions (budget : nat) (data : bytes) :
  ∀ (pos : nat) (m : gmap bytes bytes),
    length data - pos ≤ budget →
    UrlParser.query_loop budget data pos (length data) m
    = assign_all (contributions (drop pos data)) m.
Proof.
  unfold contributions.
  induction budget as [|budget IH]; intros pos m Hb.
  - rewrite query_loop_done by lia. rewrite drop_ge by lia. reflexivity.
  - destruct (Nat.ltb_spec pos (length data)) as [Hp|Hp].
    2:{ rewrite query_loop_done by lia. rewrite drop_ge by lia. reflexivity. }
    cbn [UrlParser.query_loop]. apply Nat.ltb_lt in Hp as Hp'. rewrite Hp'.
    cbn [negb]. rewrite memchr_index_of by lia.
    assert (Hs : substr data pos (length data - pos) = drop pos data).
    { unfold substr. apply take_ge. rewrite length_drop. lia. }
    rewrite Hs.
    destruct (index_of "&" (drop pos data)) as [j|] eqn:Ej; cbn [fmap option_fmap option_map].
    + pose proof (index_of_lt _ _ _ Ej) as Hj. rewrite length_drop in Hj.
      rewrite (split_on_index_Some _ _ _ Ej).
      rewrite loop_body_segment_entry by lia.
      rewrite IH by lia. rewrite drop_drop.
      replace (pos + j + 1) with (pos + S j) by lia.
      replace (pos + j - pos) with j by lia.
      rewrite <- !assign_entry_fold. reflexivity.
    + rewrite (split_on_index_None _ _ Ej).
      rewrite loop_body_segment_entry by lia.
      rewrite query_loop_done by lia. rewrite Hs.
      rewrite <- !assign_entry_fold. reflexivity.
Qed.

(** Last write wins. *)
Lemma assign_all_lookup (l : list (bytes * bytes)) :
  ∀ (m : gmap bytes bytes) (k : bytes),
    assign_all l m !! k
    = match last_value k l with Some v => Some v | None => m !! k end.
Proof.
  induction l as [|[k' v] l IH]; intros m k; [reflexivity|].
  cbn [assign_all fold_left last_value]. fold (assign_all l (<[k' := v]> m)).
  rewrite IH. destruct (last_value k l); [reflexivity|].
  cbn [fst snd]. destruct (decide (k' = k)) as [->|Hne].
  - apply lookup_insert_eq.
  - by apply lookup_insert_ne.
Qed.

Lemma Parse_query_contributions (url : bytes) :
  UrlParser.query (UrlParser.Parse url)
  = match index_of "?" url with
    | None => ∅
    | Some i => assign_all (contributions (drop (S i) url)) ∅
    end.
Proof.
  unfold UrlParser.Parse. rewrite memchr_index_of by (simpl; lia).
  assert (Hs : substr url 0 (length url) = url).
  { unfold substr. rewrite drop_0. apply take_ge. lia. }
  rewrite Hs. destruct (index_of "?" url) as [i|] eqn:Ei; simpl; [|reflexivity].
  pose proof (index_of_lt _ _ _ Ei) as Hi.
  replace (i + 1 + (length url - (i - 0) - 1)) with (length url) by lia.
  rewrite query_loop_contributions by lia.
  replace (i + 1) with (S i) by lia. reflexivity.
Qed.

(** The pathname is the URL up to its first [?], as it is written. *)
Theorem Parse_pathname_raw (url : bytes) :
  UrlParser.pathname (UrlParser.Parse url)
  = match index_of "?" url with None => url | Some i => take i url end.
Proof.
  unfold UrlParser.Parse. rewrite memchr_index_of by (simpl; lia).
  assert (Hs : substr url 0 (length url) = url).
  { unfold substr. rewrite drop_0. apply take_ge. lia. }
  rewrite Hs. destruct (index_of "?" url) as [i|] eqn:Ei; simpl; [|reflexivity].
  unfold substr. rewrite drop_0. f_equal. lia.
Qed.

(** The loop of [ParseQuery] makes one [Set] for each contribution of the
    segments of the rest of the buffer, in order. *)
Lemma ParseQuery_body_segment_entry (host : Host) (data : bytes)
    (pos pairEnd : nat) (obj : gmap js_string js_string) :
  pos ≤ pairEnd ≤ length data →
  match memchr data pos "=" (pairEnd - pos) with
  | Some e =>
    if pos <? e then
      Object_Set host obj
        (UrlParser.DecodeURIComponent (substr data pos (e - pos)))
        (String_New host
           (UrlParser.DecodeURIComponent (substr data (e + 1) (pairEnd - e - 1))))
    else obj
  | None => obj
  end = set_all host (option_list (segment_entry (substr data pos (pairEnd - pos)))) obj.
Proof.
  intros Hp. rewrite memchr_index_of by lia. unfold segment_entry.
  destruct (index_of "=" (substr data pos (pairEnd - pos))) as [k|] eqn:Ek;
    simpl; [|reflexivity].
  pose proof (index_of_lt _ _ _ Ek) as Hk. unfold substr in Hk.
  rewrite length_take, length_drop in Hk.
  destruct k as [|k].
  - rewrite Nat.add_0_r, Nat.ltb_irrefl. reflexivity.
  - destruct (Nat.ltb_spec pos (pos + S k)); [|lia]. simpl.
    rewrite !DecodeURIComponent_percent_decode. unfold substr.
    replace (pos + S k - pos) with (S k) by lia.
    rewrite take_take. replace (S k `min` (pairEnd - pos)) with (S k) by lia.
    rewrite skipn_firstn_comm, drop_drop.
    replace (pos + S k + 1) with (pos + S (S k)) by lia.
    replace (pairEnd - (pos + S k) - 1) with (pairEnd - pos - S (S k)) by lia.
    reflexivity.
Qed.

Lemma ParseQuery_loop_done (host : Host) (budget : nat) (data : bytes)
    (pos end_ : nat) (obj : gmap js_string js_string) :
  end_ ≤ pos → ParseQuery_loop host budget data pos end_ obj = obj.
Proof.
  intros H. destruct budget; simpl; destruct (Nat.ltb_spec pos end_);
    try lia; reflexivity.
Qed.

Lemma set_all_app (host : Host) (l l' : list (bytes * bytes))
    (obj : gmap js_string js_string) :
  set_all host (l ++ l') obj = set_all host l' (set_all host l obj).
Proof. apply fold_left_app. Qed.

Lemma ParseQuery_loop_contributions (host : Host) (budget : nat) (data : bytes) :
  ∀ (pos : nat) (obj : gmap js_string js_string),
    length data - pos ≤ budget →
    ParseQuery_loop host budget data pos (length data) obj
    = set_all host (contributions (drop pos data)) obj.
Proof.
  unfold contributions.
  induction budget as [|budget IH]; intros pos obj Hb.
  - rewrite ParseQuery_loop_done by lia. rewrite drop_ge by lia. reflexivity.
  - destruct (Nat.ltb_spec pos (length data)) as [Hp|Hp].
    2:{ rewrite ParseQuery_loop_done by lia. rewrite drop_ge by lia. reflexivity. }
    cbn [ParseQuery_loop]. apply Nat.ltb_lt in Hp as Hp'. rewrite Hp'.
    cbn [negb]. rewrite memchr_index_of by lia.
    assert (Hs : substr data pos (length data - pos) = drop pos data).
    { unfold substr. apply take_ge. rewrite length_drop. lia. }
    rewrite Hs.
    destruct (index_of "&" (drop pos data)) as [j|] eqn:Ej; cbn [fmap option_fmap option_map].
    + pose proof (index_of_lt _ _ _ Ej) as Hj. rewrite length_drop in Hj.
      rewrite (split_on_index_Some _ _ _ Ej).
      rewrite ParseQuery_body_segment_entry by lia.
      rewrite IH by lia. rewrite drop_drop.
      replace (pos + j + 1) with (pos + S j) by lia.
      replace (pos + j - pos) with j by lia.
      cbn [omap list_omap]. unfold substr.
      destruct (segment_entry (take j (drop pos data))) as [kv|]; reflexivity.
    + rewrite (split_on_index_None _ _ Ej).
      rewrite ParseQuery_body_segment_entry by lia.
      rewrite ParseQuery_loop_done by lia. rewrite Hs.
      cbn [omap list_omap].
      destruct (segment_entry (drop pos data)) as [kv|]; reflexivity.
Qed.

Lemma ParseQuery_contributions (host : Host) (q : bytes) :
  ParseQuery host [VString q]
  = Returned (RObject (set_all host (contributions (skip_question q)) ∅)).
Proof.
  unfold ParseQuery. cbn [length info_at nth IsString Utf8Value Nat.ltb Nat.leb negb orb].
  destruct q as [|c q']; [reflexivity|].
  cbn [length byte_at nth skip_question].
  replace (0 <? S (length q')) with true by reflexivity.
  cbn [andb]. destruct (Ascii.eqb c "?") eqn:Ec.
  - replace (1 + (S (length q') - 1)) with (length (c :: q')) by (simpl; lia).
    rewrite ParseQuery_loop_contributions by (simpl; lia). reflexivity.
  - replace (0 + S (length q')) with (length (c :: q')) by (simpl; lia).
    rewrite ParseQuery_loop_contributions by (simpl; lia). by rewrite drop_0.
Qed.

Lemma ParseUrl_string (host : Host) (url : bytes) :
  ParseUrl host [VString url]
  = Returned (RUrl (String_New host (UrlParser.pathname (UrlParser.Parse url)))
                   (set_all host (iteration host (UrlParser.query (UrlParser.Parse url)))
                            ∅)).
Proof. reflexivity. Qed.

(** *** What [Set] does with a key *)

Lemma c_str_no_zero (s : bytes) : has_byte zero s = false → c_str s = s.
Proof.
  induction s as [|c s IH]; [reflexivity|]. unfold has_byte. cbn [index_of c_str].
  destruct (Ascii.eqb c zero); [discriminate|].
  destruct (index_of zero s) eqn:Ei; [discriminate|]. intros _.
  rewrite IH; [reflexivity|]. unfold has_byte. by rewrite Ei.
Qed.

Lemma Object_Set_as_is (host : Host) (obj : gmap js_string js_string)
    (kv : bytes * bytes) :
  taken_as_is host kv →
  Object_Set host obj kv.1 (String_New host kv.2) = <[kv.1 := kv.2]> obj.
Proof.
  intros (Hc & Hk & Hp & Hv). unfold Object_Set. rewrite Hc, Hk, Hv.
  by destruct (decide (kv.1 = B "__proto__")).
Qed.

Lemma set_all_as_is (host : Host) (l : list (bytes * bytes)) :
  Forall (taken_as_is host) l →
  ∀ obj, set_all host l obj = assign_all l obj.
Proof.
  induction 1 as [|kv l Hkv _ IH]; intros obj; [reflexivity|].
  cbn [set_all assign_all fold_left]. rewrite (Object_Set_as_is _ _ _ Hkv).
  apply IH.
Qed.

Lemma ascii_taken_as_is (host : Host) (kv : bytes * bytes) :
  forallb is_ascii kv.1 = true → has_byte zero kv.1 = false →
  kv.1 ≠ B "__proto__" → forallb is_ascii kv.2 = true →
  taken_as_is host kv.
Proof.
  intros Hk Hz Hp Hv. unfold taken_as_is.
  by rewrite (c_str_no_zero _ Hz), !String_New_ascii.
Qed.

Lemma last_value_elem (k v : bytes) (l : list (bytes * bytes)) :
  last_value k l = Some v → (k, v) ∈ l.
Proof.
  induction l as [|[k' v'] l IH]; [done|]. cbn [last_value].
  destruct (last_value k l) as [w|].
  - intros [= ->]. right. by apply IH.
  - destruct (decide (k' = k)) as [->|]; [|done]. intros [= ->]. left.
Qed.

Lemma Object_Set_ascii (host : Host) (obj : gmap js_string js_string)
    (k v : bytes) :
  forallb is_ascii (c_str k) = true → c_str k ≠ B "__proto__" →
  forallb is_ascii v = true →
  Object_Set host obj k (String_New host v) = <[c_str k := v]> obj.
Proof.
  intros Hk Hp Hv. unfold Object_Set. rewrite !String_New_ascii by assumption.
  by destruct (decide (c_str k = B "__proto__")).
Qed.

Lemma Object_Set_proto (host : Host) (obj : gmap js_string js_string)
    (k : bytes) (v : js_string) :
  c_str k = B "__proto__" → Object_Set host obj k v = obj.
Proof.
  intros Hk. unfold Object_Set. rewrite Hk, String_New_ascii by reflexivity.
  by destruct (decide (B "__proto__" = B "__proto__")).
Qed.

(** Entries visited each once, with keys and values that reach the object
    as they are, give the map back, whatever the order. *)
Lemma last_value_in (k v : bytes) (l : list (bytes * bytes)) :
  NoDup l.*1 → (k, v) ∈ l → last_value k l = Some v.
Proof.
  induction l as [|[k' v'] l IH]; [by intros _ ?%elem_of_nil|].
  cbn [fmap list_fmap fst]. intros [Hk' Hnd]%NoDup_cons Hin.
  cbn [last_value]. apply elem_of_cons in Hin as [[= -> ->]|Hin].
  - destruct (last_value k' l) as [w|] eqn:Ew.
    + apply last_value_elem in Ew. destruct Hk'.
      apply list_elem_of_fmap. by exists (k', w).
    + by destruct (decide (k' = k')).
  - by rewrite (IH Hnd Hin).
Qed.

Lemma assign_all_each_once (l : list (bytes * bytes)) (m : gmap bytes bytes) :
  l ≡ₚ map_to_list m → assign_all l ∅ = m.
Proof.
  intros Hperm. apply map_eq. intros k.
  rewrite assign_all_lookup, lookup_empty.
  assert (Hnd : NoDup l.*1).
  { rewrite Hperm. apply NoDup_fst_map_to_list. }
  destruct (m !! k) as [v|] eqn:Ek.
  - rewrite (last_value_in k v l Hnd); [reflexivity|].
    rewrite Hperm. by apply elem_of_map_to_list.
  - destruct (last_value k l) as [w|] eqn:Ew; [|reflexivity].
    apply last_value_elem in Ew. rewrite Hperm in Ew.
    apply elem_of_map_to_list in Ew. congruence.
Qed.

Lemma ParseUrl_query_as_is (host : Host) (m : gmap bytes bytes) :
  (∀ k v, m !! k = Some v → taken_as_is host (k, v)) →
  set_all host (iteration host m) ∅ = m.
Proof.
  intros Hm. rewrite set_all_as_is.
  - apply assign_all_each_once, iteration_each_once.
  - apply Forall_forall. intros [k v] Hin. apply Hm.
    apply elem_of_map_to_list. by rewrite <- (iteration_each_once host m).
Qed.

(** *** Splitting comes before decoding *)

Lemma has_byte_cons (c x : ascii) (s : bytes) :
  has_byte c (x :: s) = Ascii.eqb x c || has_byte c s.
Proof.
  unfold has_byte. simpl. destruct (Ascii.eqb x c); [reflexivity|].
  destruct (index_of c s); reflexivity.
Qed.

Lemma index_of_app_sep (c : ascii) (k v : bytes) :
  has_byte c k = false → index_of c (k ++ c :: v) = Some (length k).
Proof.
  induction k as [|x k IH]; intros Hk.
  - simpl. rewrite Ascii.eqb_refl. reflexivity.
  - rewrite has_byte_cons in Hk. apply orb_false_iff in Hk as [Hx Hk].
    simpl. rewrite Hx, (IH Hk). reflexivity.
Qed.

Lemma has_byte_false_index (c : ascii) (s : bytes) :
  has_byte c s = false → index_of c s = None.
Proof. unfold has_byte. destruct (index_of c s); [discriminate | reflexivity]. Qed.

Lemma has_byte_app (c : ascii) (s1 s2 : bytes) :
  has_byte c (s1 ++ s2) = has_byte c s1 || has_byte c s2.
Proof.
  induction s1 as [|x s1 IH]; [reflexivity|].
  simpl. rewrite !has_byte_cons, IH. apply orb_assoc.
Qed.

Lemma drop_app_sep (k : bytes) (c : ascii) (v : bytes) :
  drop (S (length k)) (k ++ c :: v) = v.
Proof. induction k as [|x k IH]; [reflexivity | exact IH]. Qed.

Lemma segment_entry_key_value (k v : bytes) :
  length k ≠ 0 → has_byte "=" k = false →
  segment_entry (k ++ "="%char :: v) = Some (percent_decode k, percent_decode v).
Proof.
  intros Hlen Heq. unfold segment_entry. rewrite (index_of_app_sep _ _ _ Heq).
  destruct k as [|x k]; [done|]. cbn [length].
  change (S (length k)) with (length (x :: k)).
  rewrite take_app_length, drop_app_sep. reflexivity.
Qed.

Lemma segment_entry_pair (kv : bytes * bytes) :
  raw_pair_ok kv = true →
  has_byte "&" (kv.1 ++ "="%char :: kv.2) = false
  ∧ segment_entry (kv.1 ++ "="%char :: kv.2)
    = Some (percent_decode kv.1, percent_decode kv.2).
Proof.
  destruct kv as [k v]. unfold raw_pair_ok. cbn [fst snd].
  rewrite !andb_true_iff, !negb_true_iff. intros [[[Hlen Hamp] Heq] Hv].
  split.
  - rewrite has_byte_app, has_byte_cons, Hamp, Hv. reflexivity.
  - apply segment_entry_key_value; [|exact Heq].
    by apply Nat.eqb_neq.
Qed.

Lemma contributions_join_query (kvs : list (bytes * bytes)) :
  forallb raw_pair_ok kvs = true →
  contributions (join_query kvs)
  = map (λ kv, (percent_decode kv.1, percent_decode kv.2)) kvs.
Proof.
  unfold contributions, join_query.
  induction kvs as [|kv kvs IH]; [reflexivity|].
  cbn [forallb]. rewrite andb_true_iff. intros [Hkv Hkvs].
  destruct (segment_entry_pair kv Hkv) as [Hamp Hentry].
  cbn [map join_amp]. destruct kvs as [|kv' kvs].
  - cbn [map]. rewrite split_on_index_None by (by apply has_byte_false_index).
    cbn [omap list_omap]. rewrite Hentry. reflexivity.
  - cbn [map]. cbn [map] in IH.
    rewrite (split_on_index_Some _ _ (length (kv.1 ++ "="%char :: kv.2))).
    2:{ by apply index_of_app_sep. }
    rewrite take_app_length, drop_app_sep. cbn [omap list_omap].
    rewrite Hentry, (IH Hkvs). reflexivity.
Qed.

(** A byte that is no hex digit ends whatever escape is open before it. *)
Lemma percent_decode_app (c : ascii) (a b : bytes) :
  hex_digit_value c = None →
  percent_decode (a ++ c :: b) = percent_decode a ++ percent_decode (c :: b).
Proof.
  intros Hc. induction a as [a IH] using (induction_ltof1 _ (@length ascii)).
  unfold ltof in IH. destruct a as [|x a]; [reflexivity|].
  cbn [app]. cbn [percent_decode].
  pose proof (IH a ltac:(simpl; lia)) as IHa.
  destruct (Ascii.eqb x "%") eqn:Ex.
  - destruct a as [|h [|l a'']].
    + cbn [app]. rewrite Hc. destruct b; reflexivity.
    + cbn [app]. rewrite Hc. destruct (hex_digit_value h); cbn [app]; f_equal; exact IHa.
    + cbn [app].
      destruct (hex_digit_value h), (hex_digit_value l); cbn [app]; f_equal;
        try exact IHa; apply IH; simpl; lia.
  - destruct (Ascii.eqb x "+"); cbn [app]; f_equal; exact IHa.
Qed.

(** *** The round trip through percent-encoding *)

Lemma alnum_plain (c : ascii) :
  is_alnum c = true → Ascii.eqb c "%" = false ∧ Ascii.eqb c "+" = false.
Proof.
  destruct c as [[] [] [] [] [] [] [] []]; vm_compute; intros H;
    try discriminate H; split; reflexivity.
Qed.

Lemma hex_digit_char_value (upper : bool) (c : ascii) :
  hex_digit_value (hex_digit_char upper (code c / 16)) = Some (code c / 16)%Z
  ∧ hex_digit_value (hex_digit_char upper (code c)) = Some (code c mod 16)%Z
  ∧ char_of_int (Z.lor (Z.shiftl (code c / 16) 4) (code c mod 16)) = c.
Proof.
  destruct upper, c as [[] [] [] [] [] [] [] []]; vm_compute;
    repeat split; reflexivity.
Qed.

Lemma percent_decode_encode_byte (upper : bool) (c : ascii) (rest : bytes) :
  percent_decode (percent_encode_byte upper c ++ rest) = c :: percent_decode rest.
Proof.
  unfold percent_encode_byte. destruct (is_alnum c) eqn:Ea.
  - destruct (alnum_plain c Ea) as [Hp Hq]. cbn [app percent_decode].
    rewrite Hp, Hq. reflexivity.
  - destruct (hex_digit_char_value upper c) as (Hhi & Hlo & Hc).
    cbn [app percent_decode]. rewrite Ascii.eqb_refl, Hhi, Hlo, Hc. reflexivity.
Qed.

(** ** The URL helpers against their reference *)

(** C2. [DecodeURIComponent] is the reference percent-decode: [%] and two hex
    digits give the byte [(hi << 4) | lo] and use up three bytes, any other [%]
    and every other byte pass through and use up one, [+] gives a space; so
    the output is never longer than the input. *)
Theorem DecodeURIComponent_is_percent_decode (encoded : bytes) :
  UrlParser.DecodeURIComponent encoded = percent_decode encoded
  ∧ length (UrlParser.DecodeURIComponent encoded) ≤ length encoded.
Proof.
  pose proof (DecodeURIComponent_percent_decode encoded) as Heq.
  split; [exact Heq|]. rewrite Heq. apply percent_decode_length.
Qed.

(** C6. Decoding the percent-encoding of a byte string gives the byte string
    back, whichever case the encoder writes its hex digits in. *)
Theorem DecodeURIComponent_percent_encode (upper : bool) (b : bytes) :
  UrlParser.DecodeURIComponent (percent_encode upper b) = b.
Proof.
  rewrite DecodeURIComponent_percent_decode. unfold percent_encode.
  induction b as [|c b IH]; [reflexivity|].
  cbn [map concat]. rewrite percent_decode_encode_byte. f_equal. exact IH.
Qed.

(** C3. The query splitter of [UrlParser::Parse] assigns, segment by
    segment of the split on [&], what [segment_entry] gives: nothing for a
    segment without [=] or with [=] first, the decoded key and value
    otherwise; a key's value in the mapping is that of the last segment with
    that decoded key.  The splitter of [ParseQuery] makes one [Set] on the
    object it returns for each of the same contributions, in order: that is
    the same mapping where keys and values reach the object as they are, and
    it is not where a decoded key holds a zero byte (the key is cut there)
    or is [__proto__] (nothing is stored). *)
Theorem query_splitter_last_write_wins (host : Host) (url q key : bytes) :
  UrlParser.query (UrlParser.Parse url)
  = match index_of "?" url with
    | None => ∅
    | Some i => assign_all (contributions (drop (S i) url)) ∅
    end
  ∧ assign_all (contributions q) ∅ !! key = last_value key (contributions q)
  ∧ (∀ seg : bytes, has_byte "=" seg = false → segment_entry seg = None)
  ∧ (∀ v : bytes, segment_entry ("="%char :: v) = None)
  ∧ (∀ k v : bytes, length k ≠ 0 → has_byte "=" k = false →
       segment_entry (k ++ "="%char :: v)
       = Some (UrlParser.DecodeURIComponent k, UrlParser.DecodeURIComponent v))
  ∧ ParseQuery host [VString q]
    = Returned (RObject (set_all host (contributions (skip_question q)) ∅))
  ∧ (Forall (taken_as_is host) (contributions (skip_question q)) →
     ParseQuery host [VString q]
     = Returned (RObject (assign_all (contributions (skip_question q)) ∅)))
  ∧ UrlParser.query (UrlParser.Parse (B "?a%00b=1"))
    = {[ ["a"%char; zero; "b"%char] := B "1" ]}
  ∧ ParseQuery host [VString (B "a%00b=1")] = Returned (RObject {[ B "a" := B "1" ]})
  ∧ UrlParser.query (UrlParser.Parse (B "?__proto__=1&a=2"))
    = {[ B "__proto__" := B "1"; B "a" := B "2" ]}
  ∧ ParseQuery host [VString (B "__proto__=1&a=2")]
    = Returned (RObject {[ B "a" := B "2" ]}).
Proof.
  split; [apply Parse_query_contributions|].
  split.
  { rewrite assign_all_lookup, lookup_empty.
    destruct (last_value key (contributions q)); reflexivity. }
  split; [|split; [|split]].
  - intros seg Hseg. unfold segment_entry.
    rewrite (has_byte_false_index _ _ Hseg). reflexivity.
  - intros v. reflexivity.
  - intros k v Hk Heq. rewrite !DecodeURIComponent_percent_decode.
    apply segment_entry_key_value; assumption.
  - split; [apply ParseQuery_contributions|].
    split.
    { intros Hclean. rewrite ParseQuery_contributions.
      by rewrite (set_all_as_is host _ Hclean). }
    split; [vm_compute; reflexivity|]. split; [|split; [vm_compute; reflexivity|]].
    + rewrite ParseQuery_contributions.
      assert (Hc : contributions (skip_question (B "a%00b=1"))
                   = [(["a"%char; zero; "b"%char], B "1")])
        by (vm_compute; reflexivity).
      rewrite Hc. cbn [set_all fold_left fst snd].
      rewrite Object_Set_ascii by (try reflexivity; discriminate).
      reflexivity.
    + rewrite ParseQuery_contributions.
      assert (Hc : contributions (skip_question (B "__proto__=1&a=2"))
                   = [(B "__proto__", B "1"); (B "a", B "2")])
        by (vm_compute; reflexivity).
      rewrite Hc. cbn [set_all fold_left fst snd].
      rewrite (Object_Set_proto host ∅ (B "__proto__")) by reflexivity.
      rewrite Object_Set_ascii by (try reflexivity; discriminate).
      reflexivity.
Qed.

(** C10. A query string written from raw keys and values is split where it
    was joined, whatever the keys and values decode to: each raw pair gives
    one assignment of the decoded key and the decoded value, to the map in
    [UrlParser::Parse] and as one [Set] in [ParseQuery].  An encoded [&] or
    [=] and a [+] decode in place. *)
Theorem split_before_decode (host : Host) (path : bytes)
    (kvs : list (bytes * bytes)) :
  has_byte "?" path = false →
  forallb raw_pair_ok kvs = true →
  let decoded :=
    map (λ kv, (UrlParser.DecodeURIComponent kv.1,
                UrlParser.DecodeURIComponent kv.2)) kvs in
  UrlParser.query (UrlParser.Parse (path ++ "?"%char :: join_query kvs))
  = assign_all decoded ∅
  ∧ ParseQuery host [VString ("?"%char :: join_query kvs)]
    = Returned (RObject (set_all host decoded ∅))
  ∧ (Forall (taken_as_is host) decoded →
     ParseQuery host [VString ("?"%char :: join_query kvs)]
     = Returned (RObject (assign_all decoded ∅)))
  ∧ ∀ a b : bytes,
      UrlParser.DecodeURIComponent (a ++ B "%26" ++ b)
      = UrlParser.DecodeURIComponent a ++ "&"%char :: UrlParser.DecodeURIComponent b
      ∧ UrlParser.DecodeURIComponent (a ++ B "%3D" ++ b)
        = UrlParser.DecodeURIComponent a ++ "="%char :: UrlParser.DecodeURIComponent b
      ∧ UrlParser.DecodeURIComponent (a ++ B "+" ++ b)
        = UrlParser.DecodeURIComponent a ++ " "%char :: UrlParser.DecodeURIComponent b.
Proof.
  intros Hpath Hkvs decoded.
  assert (Hdec : decoded = map (λ kv, (percent_decode kv.1, percent_decode kv.2)) kvs).
  { subst decoded. apply map_ext. intros [k v]. cbn [fst snd].
    by rewrite !DecodeURIComponent_percent_decode. }
  rewrite Hdec, <- (contributions_join_query kvs Hkvs).
  split; [|split; [|split]].
  - rewrite Parse_query_contributions.
    rewrite (index_of_app_sep _ _ _ Hpath), drop_app_sep. reflexivity.
  - apply (ParseQuery_contributions host ("?"%char :: join_query kvs)).
  - intros Hclean.
    rewrite (ParseQuery_contributions host ("?"%char :: join_query kvs)).
    cbn [skip_question Ascii.eqb Bool.eqb]. by rewrite (set_all_as_is host _ Hclean).
  - intros a b. rewrite !DecodeURIComponent_percent_decode.
    change (B "%26" ++ b) with ("%"%char :: "2"%char :: "6"%char :: b).
    change (B "%3D" ++ b) with ("%"%char :: "3"%char :: "D"%char :: b).
    change (B "+" ++ b) with ("+"%char :: b).
    rewrite !percent_decode_app by reflexivity.
    repeat split; reflexivity.
Qed.

Lemma split_before_decode_witness :
  has_byte "?" (B "/search") = false
  ∧ forallb raw_pair_ok [(B "a%26b", B "c%3Dd+e"); (B "x", B "1=2")] = true
  ∧ UrlParser.query (UrlParser.Parse (B "/search?a%26b=c%3Dd+e&x=1=2"))
    = assign_all [(B "a&b", B "c=d e"); (B "x", B "1=2")] ∅.
Proof.
  split; [reflexivity|]. split; [reflexivity|].
  exact (proj1 (split_before_decode sample_host (B "/search")
                  [(B "a%26b", B "c%3Dd+e"); (B "x", B "1=2")]
                  eq_refl eq_refl)).
Defined.

(** A URL without [?] is its own pathname and has no query; the pathname
    before a [?] is not decoded. *)
Theorem Parse_without_query (url : bytes) :
  has_byte "?" url = false →
  UrlParser.Parse url = {| UrlParser.pathname := url; UrlParser.query := ∅ |}.
Proof.
  intros Hq. unfold UrlParser.Parse. rewrite memchr_index_of by (simpl; lia).
  assert (Hs : substr url 0 (length url) = url).
  { unfold substr. rewrite drop_0. apply take_ge. lia. }
  rewrite Hs, (has_byte_false_index _ _ Hq). reflexivity.
Qed.

(** ** The output buffer *)

Lemma length_vector_resize (v : bytes) (n : nat) : length (vector_resize v n) = n.
Proof.
  unfold vector_resize. rewrite length_app, length_take, repeat_length. lia.
Qed.

Lemma ensureCapacity_pos (sb : FastStringBuilder) (needed : nat) :
  pos_ (ensureCapacity sb needed) = pos_ sb.
Proof. unfold ensureCapacity. destruct (_ <? _); reflexivity. Qed.

Lemma ensureCapacity_room (sb : FastStringBuilder) (needed : nat) :
  pos_ sb + needed ≤ length (buffer_ (ensureCapacity sb needed)).
Proof.
  unfold ensureCapacity.
  destruct (Nat.ltb_spec (length (buffer_ sb)) (pos_ sb + needed)); simpl;
    [rewrite length_vector_resize|]; lia.
Qed.

Lemma ensureCapacity_toString (sb : FastStringBuilder) (needed : nat) :
  builder_wf sb → toString (ensureCapacity sb needed) = toString sb.
Proof.
  unfold builder_wf, ensureCapacity, toString. intros Hwf.
  destruct (Nat.ltb_spec (length (buffer_ sb)) (pos_ sb + needed)); simpl;
    [|reflexivity].
  unfold vector_resize. rewrite (take_ge (buffer_ sb)) by lia.
  apply take_app_le. exact Hwf.
Qed.

Lemma memcpy_spec (n : nat) :
  ∀ (src dst : bytes) (at_ : nat),
    at_ + n ≤ length dst → n ≤ length src →
    memcpy dst at_ src n = take at_ dst ++ take n src ++ drop (at_ + n) dst.
Proof.
  induction n as [|n IH]; intros src dst at_ Hd Hs.
  - destruct src; simpl; rewrite Nat.add_0_r; by rewrite take_drop.
  - destruct src as [|c src]; [simpl in Hs; lia|]. cbn [memcpy].
    rewrite IH by (rewrite ?length_insert; simpl in Hs; lia).
    rewrite (take_S_r _ at_ c) by (apply list_lookup_insert_eq; lia).
    rewrite take_insert_ge by lia. rewrite drop_insert_lt by lia.
    replace (S at_ + n) with (at_ + S n) by lia.
    cbn [take]. rewrite <- app_assoc. reflexivity.
Qed.

Lemma append_char_toString (sb : FastStringBuilder) (c : ascii) :
  builder_wf sb →
  toString (append_char sb c) = toString sb ++ [c]
  ∧ builder_wf (append_char sb c).
Proof.
  intros Hwf. unfold append_char, toString, builder_wf. cbn [buffer_ pos_].
  pose proof (ensureCapacity_room sb 1) as Hroom.
  pose proof (ensureCapacity_toString sb 1 Hwf) as Hts. unfold toString in Hts.
  rewrite ensureCapacity_pos in *. rewrite length_insert. split; [|lia].
  replace (pos_ sb + 1) with (S (pos_ sb)) by lia.
  rewrite (take_S_r _ _ c) by (apply list_lookup_insert_eq; lia).
  rewrite take_insert_ge by lia. rewrite Hts. reflexivity.
Qed.

Lemma append_n_toString (sb : FastStringBuilder) (str : bytes) (len : nat) :
  builder_wf sb → len ≤ length str →
  toString (append_n sb str len) = toString sb ++ take len str
  ∧ builder_wf (append_n sb str len).
Proof.
  intros Hwf Hlen. unfold append_n, toString, builder_wf. cbn [buffer_ pos_].
  pose proof (ensureCapacity_room sb len) as Hroom.
  pose proof (ensureCapacity_toString sb len Hwf) as Hts. unfold toString in Hts.
  rewrite ensureCapacity_pos in *.
  rewrite memcpy_spec by lia. rewrite Hts. unfold builder_wf in Hwf. split.
  - rewrite app_assoc. apply take_app_length'.
    rewrite length_app, !length_take. lia.
  - rewrite !length_app, !length_take, length_drop. lia.
Qed.

(** C8, as the code has it.  The buffer starts with 4096 bytes; an append
    that would pass the capacity grows it to twice the size required, the
    committed position plus the bytes appended; no append loses committed
    bytes. *)
Theorem builder_growth_policy :
  length (buffer_ FastStringBuilder_new) = 4096
  ∧ pos_ FastStringBuilder_new = 0
  ∧ (∀ (sb : FastStringBuilder) (needed : nat),
       length (buffer_ (ensureCapacity sb needed))
       = if length (buffer_ sb) <? pos_ sb + needed
         then (pos_ sb + needed) * 2 else length (buffer_ sb))
  ∧ (∀ (sb : FastStringBuilder) (c : ascii),
       builder_wf sb →
       toString (append_char sb c) = toString sb ++ [c]
       ∧ builder_wf (append_char sb c))
  ∧ (∀ (sb : FastStringBuilder) (str : bytes) (len : nat),
       builder_wf sb → len ≤ length str →
       toString (append_n sb str len) = toString sb ++ take len str
       ∧ builder_wf (append_n sb str len)).
Proof.
  split; [vm_compute; reflexivity|]. split; [reflexivity|]. split; [|split].
  - intros sb needed. unfold ensureCapacity.
    destruct (length (buffer_ sb) <? pos_ sb + needed); [|reflexivity].
    apply length_vector_resize.
  - apply append_char_toString.
  - apply append_n_toString.
Qed.

(** The growth rule of the specification, [max(required, current × 2) × 2],
    against the code: with all 4096 bytes committed, one more byte takes the
    capacity to 8194, not to 16384. *)
Lemma builder_growth_counterexample :
  length (buffer_ full_builder) = 4096
  ∧ pos_ full_builder = 4096
  ∧ length (buffer_ (append_char full_builder "x")) = (4096 + 1) * 2
  ∧ Nat.max (pos_ full_builder + 1) (length (buffer_ full_builder) * 2) * 2
    = 4096 * 2 * 2.
Proof.
  split; [vm_compute; reflexivity|].
  split; [vm_compute; reflexivity|].
  split; vm_compute; reflexivity.
Qed.

(** ** Number tokens *)

Lemma digit_char_cases (n : N) :
  ∃ c, digit_char n = c ∧ is_digit c = true
       ∧ ((n mod 10)%N ≠ 0%N → is_digit19 c = true).
Proof.
  unfold digit_char. pose proof (N.mod_lt n 10 ltac:(discriminate)) as Hlt.
  set (m := (n mod 10)%N) in *.
  assert (Hm : m ∈ [0; 1; 2; 3; 4; 5; 6; 7; 8; 9]%N).
  { rewrite !elem_of_cons. lia. }
  rewrite !elem_of_cons in Hm.
  destruct Hm as [->|[->|[->|[->|[->|[->|[->|[->|[->|[->|Hm]]]]]]]]]];
    [eexists; split; [reflexivity|split; [reflexivity|intros; try reflexivity; done]]..|].
  by apply elem_of_nil in Hm.
Qed.

Lemma is_digit_digit_char (n : N) : is_digit (digit_char n) = true.
Proof. destruct (digit_char_cases n) as (c & -> & H & _). exact H. Qed.

Lemma decimal_loop_shape (budget : nat) :
  ∀ (n : N) (acc : bytes),
    n ≠ 0%N → N.to_nat (N.log2 n) ≤ budget →
    ∃ c ds, decimal_loop budget n acc = c :: ds ++ acc
            ∧ is_digit19 c = true ∧ forallb is_digit ds = true.
Proof.
  induction budget as [|budget IH]; intros n acc Hn Hlog.
  - assert (n = 1%N) as ->.
    { assert (N.log2 n = 0%N) as H0 by lia.
      destruct (N.log2_null n) as [Hnull _]. specialize (Hnull H0). lia. }
    exists "1"%char, []. split; [reflexivity|]. split; reflexivity.
  - cbn [decimal_loop]. destruct (N.ltb_spec n 10) as [Hlt|Hge].
    + destruct (digit_char_cases n) as (c & -> & _ & H19).
      exists c, []. rewrite N.mod_small in H19 by exact Hlt.
      split; [reflexivity|]. split; [by apply H19 | reflexivity].
    + assert (Hq : (n / 10 ≠ 0)%N).
      { intros H0. apply N.div_small_iff in H0; lia. }
      assert (Hlog' : N.to_nat (N.log2 (n / 10)) ≤ budget).
      { assert (n / 10 ≤ N.div2 n)%N.
        { rewrite N.div2_div. apply N.div_le_compat_l. lia. }
        assert (N.log2 (n / 10) ≤ N.log2 (N.div2 n))%N by (by apply N.log2_le_mono).
        assert (N.log2 (N.div2 n) = N.log2 n - 1)%N.
        { rewrite N.div2_spec. apply N.log2_shiftr. }
        assert (N.log2 n ≠ 0)%N.
        { intros Hz. apply N.log2_null in Hz. lia. }
        lia. }
      destruct (IH (n / 10)%N (digit_char n :: acc) Hq Hlog') as (c & ds & -> & Hc & Hds).
      exists c, (ds ++ [digit_char n]). rewrite <- app_assoc.
      split; [reflexivity|]. split; [exact Hc|].
      rewrite forallb_app, Hds. cbn [forallb]. by rewrite is_digit_digit_char.
Qed.

Lemma json_int_decimal (n : N) : json_int (decimal n).
Proof.
  destruct (N.eq_dec n 0%N) as [->|Hn]; [apply json_int_zero|].
  unfold decimal.
  destruct (decimal_loop_shape (N.to_nat (N.log2 n)) n [] Hn (le_n _))
    as (c & ds & -> & Hc & Hds).
  rewrite app_nil_r. by apply json_int_nonzero.
Qed.

Lemma json_int_digits (i : bytes) :
  json_int i → ∃ d ds, i = d :: ds ∧ forallb is_digit (d :: ds) = true.
Proof.
  intros [|c ds Hc Hds]; [by exists "0"%char, []|].
  exists c, ds. split; [reflexivity|]. cbn [forallb]. rewrite Hds, andb_true_r.
  unfold is_digit19, is_digit in *. apply andb_true_iff in Hc as [H1 H2].
  apply andb_true_iff; split; [|exact H2].
  apply Z.leb_le. apply Z.leb_le in H1. change (code "0") with 48%Z.
  change (code "1") with 49%Z in H1. lia.
Qed.

Lemma json_number_snprintf_ld (value : Z) : json_number (snprintf_ld value).
Proof.
  unfold snprintf_ld. destruct (value <? 0)%Z.
  - rewrite <- (app_nil_r (decimal _)).
    apply (json_number_intro ["-"%char] _ [] []); eauto using json_int_decimal,
      json_frac_none, json_exp_none.
  - rewrite <- (app_nil_r (decimal _)).
    apply (json_number_intro [] _ [] []); eauto using json_int_decimal,
      json_frac_none, json_exp_none.
Qed.

Lemma json_number_g_render (g : g_format) : json_number (g_render g).
Proof.
  unfold g_render. apply json_number_intro.
  - destruct (g_negative g); eauto.
  - apply json_int_decimal.
  - destruct (g_fraction g) as [|d ds]; [apply json_frac_none|].
    cbn [map]. apply json_frac_some. cbn [forallb].
    rewrite is_digit_digit_char. cbn [andb].
    induction ds as [|x ds IH]; [reflexivity|].
    cbn [map forallb]. by rewrite is_digit_digit_char.
  - destruct (g_exponent g) as [[neg e]|]; [|apply json_exp_none].
    destruct (json_int_digits _ (json_int_decimal e)) as (d & ds & He & Hds).
    rewrite He.
    destruct (e <? 10)%N.
    + change ("e"%char :: (if neg then "-"%char else "+"%char) :: ["0"%char] ++ d :: ds)
        with ("e"%char :: [if neg then "-"%char else "+"%char] ++ "0"%char :: d :: ds).
      apply json_exp_some; [by left | destruct neg; eauto |].
      cbn [forallb] in *. exact Hds.
    + change ("e"%char :: (if neg then "-"%char else "+"%char) :: [] ++ d :: ds)
        with ("e"%char :: [if neg then "-"%char else "+"%char] ++ d :: ds).
      apply json_exp_some; [by left | destruct neg; eauto | exact Hds].
Qed.

(** A number token begins with [-] or a digit. *)
Lemma json_number_head (s : bytes) :
  json_number s →
  ∃ c rest, s = c :: rest ∧ (c = "-"%char ∨ is_digit c = true).
Proof.
  intros [minus i f e Hminus Hi _ _].
  destruct (json_int_digits i Hi) as (d & ds & -> & Hds).
  cbn [forallb] in Hds. apply andb_true_iff in Hds as [Hd _].
  destruct Hminus as [->| ->]; cbn [app]; eauto.
Qed.

Lemma json_number_not_null (s : bytes) : json_number s → s ≠ B "null".
Proof.
  intros Hs Heq. destruct (json_number_head s Hs) as (c & rest & -> & [->|Hc]).
  - discriminate Heq.
  - injection Heq as -> _. discriminate Hc.
Qed.

(** *** Doubles that are integers *)

Lemma double_compare_exact (d : double) (n c : Z) :
  double_eq d n = true → double_compare d c = Some (n ?= c)%Z.
Proof.
  unfold double_eq, double_compare.
  destruct d as [s|[]| |s m e]; try discriminate.
  - cbn [exponent significand Z.leb Z.compare]. rewrite Z.mul_0_l.
    destruct (Z.compare_spec 0 n) as [<-| |]; try discriminate. reflexivity.
  - cbn [exponent]. destruct (Z.leb_spec 0 e) as [He|He].
    + destruct (Z.compare_spec (significand (S754_finite s m e) * 2 ^ e) n)
        as [->| |]; try discriminate. reflexivity.
    + destruct (Z.compare_spec (significand (S754_finite s m e)) (n * 2 ^ (- e)))
        as [->| |]; try discriminate.
      intros _. f_equal.
      assert (Hp : (0 < 2 ^ (- e))%Z) by (apply Z.pow_pos_nonneg; lia).
      destruct (Z.compare_spec (n * 2 ^ (- e)) (c * 2 ^ (- e))),
               (Z.compare_spec n c); try reflexivity; nia.
Qed.

Lemma static_cast_exact (d : double) (n : Z) :
  double_eq d n = true → (INT64_MIN ≤ n ≤ INT64_MAX)%Z →
  static_cast_int64 d = n.
Proof.
  unfold double_eq, double_compare, static_cast_int64.
  destruct d as [s|[]| |s m e]; try discriminate.
  - cbn [exponent significand Z.leb Z.compare]. rewrite Z.mul_0_l.
    destruct (Z.compare_spec 0 n) as [<-| |]; try discriminate. reflexivity.
  - cbn [exponent]. intros Heq Hrange.
    assert (Ht : (if (0 <=? e)%Z
                  then (significand (S754_finite s m e) * 2 ^ e)%Z
                  else Z.quot (significand (S754_finite s m e)) (2 ^ (- e))) = n).
    { destruct (Z.leb_spec 0 e) as [He|He].
      - destruct (Z.compare_spec (significand (S754_finite s m e) * 2 ^ e) n);
          [assumption | discriminate..].
      - destruct (Z.compare_spec (significand (S754_finite s m e)) (n * 2 ^ (- e)))
          as [->| |]; try discriminate.
        apply Z.quot_mul. assert (0 < 2 ^ (- e))%Z by (apply Z.pow_pos_nonneg; lia).
        lia. }
    rewrite Ht.
    destruct (Z.leb_spec INT64_MIN n), (Z.leb_spec n INT64_MAX); try lia.
    reflexivity.
Qed.

Lemma int64_covers_safe (n : Z) :
  (-9007199254740991 ≤ n ≤ 9007199254740991)%Z → (INT64_MIN ≤ n ≤ INT64_MAX)%Z.
Proof. unfold INT64_MIN, INT64_MAX. lia. Qed.

(** The test of [stringifyValueFast] holds exactly of the safe integers. *)
Lemma safe_integer_test (d : double) :
  double_eq d (static_cast_int64 d)
  && double_ge d (-9007199254740991) && double_le d 9007199254740991 = true
  ↔ ∃ n, is_safe_integer d n.
Proof.
  unfold is_safe_integer. split.
  - rewrite !andb_true_iff. intros [[Heq Hge] Hle].
    exists (static_cast_int64 d). split; [exact Heq|].
    unfold double_ge, double_le in *.
    rewrite (double_compare_exact d _ (-9007199254740991) Heq) in Hge.
    rewrite (double_compare_exact d _ 9007199254740991 Heq) in Hle.
    destruct (Z.compare_spec (static_cast_int64 d) (-9007199254740991));
      destruct (Z.compare_spec (static_cast_int64 d) 9007199254740991);
      try discriminate; lia.
  - intros (n & Heq & Hrange).
    rewrite (static_cast_exact d n Heq (int64_covers_safe n Hrange)).
    unfold double_ge, double_le. rewrite Heq, !(double_compare_exact d n _ Heq).
    destruct (Z.compare_spec n (-9007199254740991));
      destruct (Z.compare_spec n 9007199254740991); try lia; reflexivity.
Qed.

Lemma number_text_safe_integer (g : double → g_format) (d : double) (n : Z) :
  is_safe_integer d n → number_text g d = snprintf_ld n.
Proof.
  intros Hn. pose proof Hn as [Heq Hrange]. unfold number_text.
  assert (Hfin : isnan d || isinf d = false).
  { unfold double_eq, double_compare in Heq.
    destruct d as [s|[]| |s m e]; try discriminate; reflexivity. }
  rewrite Hfin. rewrite (proj2 (safe_integer_test d)) by eauto.
  by rewrite (static_cast_exact d n Heq (int64_covers_safe n Hrange)).
Qed.

Lemma number_text_other (g : double → g_format) (d : double) :
  isnan d = false → isinf d = false → (∀ n, ¬ is_safe_integer d n) →
  number_text g d = g_render (g d).
Proof.
  intros Hnan Hinf Hno. unfold number_text. rewrite Hnan, Hinf. cbn [orb].
  destruct (_ && _ && _) eqn:Et; [|reflexivity].
  apply safe_integer_test in Et as [n Hn]. by destruct (Hno n).
Qed.

Lemma number_text_finite (g : double → g_format) (d : double) :
  isnan d = false → isinf d = false → json_number (number_text g d).
Proof.
  intros Hnan Hinf. unfold number_text. rewrite Hnan, Hinf. cbn [orb].
  destruct (_ && _ && _); [apply json_number_snprintf_ld | apply json_number_g_render].
Qed.

Lemma number_text_null (g : double → g_format) (d : double) :
  number_text g d = B "null" ↔ isnan d = true ∨ isinf d = true.
Proof.
  split.
  - intros Heq. destruct (isnan d) eqn:Hnan; [by left|].
    destruct (isinf d) eqn:Hinf; [by right|].
    by destruct (json_number_not_null _ (number_text_finite g d Hnan Hinf)).
  - unfold number_text. intros [-> | ->]; [reflexivity|].
    by rewrite orb_true_r.
Qed.

Lemma decimal_digits (n : N) : forallb is_digit (decimal n) = true.
Proof.
  destruct (json_int_digits _ (json_int_decimal n)) as (d & ds & -> & Hds).
  exact Hds.
Qed.

Lemma has_byte_digits (c : ascii) (s : bytes) :
  is_digit c = false → forallb is_digit s = true → has_byte c s = false.
Proof.
  intros Hc. induction s as [|x s IH]; [reflexivity|].
  cbn [forallb]. rewrite andb_true_iff, has_byte_cons. intros [Hx Hs].
  rewrite (IH Hs), orb_false_r. destruct (Ascii.eqb_spec x c) as [->|]; [|reflexivity].
  by rewrite Hx in Hc.
Qed.

(** A safe integer is written with digits and at most a sign: no point,
    no exponent. *)
Theorem safe_integer_plain_digits (g : double → g_format) (d : double) (n : Z) :
  is_safe_integer d n →
  number_text g d = snprintf_ld n
  ∧ has_byte "." (snprintf_ld n) = false
  ∧ has_byte "e" (snprintf_ld n) = false.
Proof.
  intros Hn. split; [by apply number_text_safe_integer|].
  unfold snprintf_ld. destruct (n <? 0)%Z; rewrite ?has_byte_cons; cbn [orb];
    split; by apply has_byte_digits, decimal_digits.
Qed.

(** ** The string emitter *)

Lemma escape_shape_checked (c : ascii) :
  needs_escape c = true → escape_shape_ok c = true.
Proof.
  destruct c as [[] [] [] [] [] [] [] []]; vm_compute; intros H;
    first [discriminate H | reflexivity].
Qed.

Lemma escape_byte_length (c : ascii) :
  needs_escape c = true →
  match escape_lookup c with
  | Some esc => ∃ letter, esc = ["\"%char; letter] ∧ is_escape_letter letter = true
  | None => ∃ h1 h2 h3 h4,
      snprintf_u04x c = ["\"%char; "u"%char; h1; h2; h3; h4]
      ∧ forallb is_hex_digit [h1; h2; h3; h4] = true
  end.
Proof.
  intros Hc. apply escape_shape_checked in Hc. unfold escape_shape_ok in Hc.
  destruct (escape_lookup c) as [esc|].
  - destruct esc as [|bs [|letter [|]]]; try discriminate Hc.
    apply andb_true_iff in Hc as [Hbs Hl]. apply Ascii.eqb_eq in Hbs as ->.
    by exists letter.
  - destruct (snprintf_u04x c) as [|bs [|u [|h1 [|h2 [|h3 [|h4 [|]]]]]]];
      try discriminate Hc.
    apply andb_true_iff in Hc as [Hc Hh]. apply andb_true_iff in Hc as [Hbs Hu].
    apply Ascii.eqb_eq in Hbs as ->. apply Ascii.eqb_eq in Hu as ->.
    by exists h1, h2, h3, h4.
Qed.

Lemma unescaped_iff (c : ascii) : is_unescaped c = negb (needs_escape c).
Proof.
  unfold is_unescaped, needs_escape. rewrite !negb_orb, Z.leb_antisym.
  reflexivity.
Qed.

Lemma json_chars_escape_bytes (s : bytes) : json_chars (escape_bytes s).
Proof.
  unfold escape_bytes. induction s as [|c s IH]; [apply json_chars_nil|].
  cbn [map concat]. unfold escape_byte at 1.
  destruct (needs_escape c) eqn:Ec.
  - pose proof (escape_byte_length c Ec) as Hesc.
    destruct (escape_lookup c) as [esc|].
    + destruct Hesc as (letter & -> & Hl). by apply json_chars_escape.
    + destruct Hesc as (h1 & h2 & h3 & h4 & -> & Hh). by apply json_chars_unicode.
  - apply json_chars_plain; [|exact IH]. by rewrite unescaped_iff, Ec.
Qed.

Lemma c_str_prefix (str : bytes) :
  strlen str ≤ length str ∧ take (strlen str) str = c_str str.
Proof.
  unfold strlen. induction str as [|c str [IHl IHt]]; [by split|].
  cbn [c_str]. destruct (Ascii.eqb c zero); cbn [length take]; [split; [lia|done]|].
  split; [lia | by rewrite IHt].
Qed.

Lemma append_cstr_toString (sb : FastStringBuilder) (str : bytes) :
  builder_wf sb →
  toString (append_cstr sb str) = toString sb ++ c_str str
  ∧ builder_wf (append_cstr sb str).
Proof.
  intros Hwf. unfold append_cstr. destruct (c_str_prefix str) as [Hlen Htake].
  destruct (append_n_toString sb str (strlen str) Hwf Hlen) as [Hts Hwf'].
  rewrite Htake in Hts. by split.
Qed.

(** No entry of the escape table holds a zero byte: [strlen] is its
    length. *)
Lemma escape_lookup_c_str (c : ascii) (esc : bytes) :
  escape_lookup c = Some esc → c_str esc = esc.
Proof.
  intros H. destruct c as [[] [] [] [] [] [] [] []]; vm_compute in H;
    first [discriminate H | injection H as <-; reflexivity].
Qed.

(** What the loop has written and what it still holds back, together, are
    the run it was holding back, then the escaped rest. *)
Lemma escape_loop_spec (data : bytes) (n : nat) :
  ∀ (i lastPos : nat) (sb : FastStringBuilder),
    builder_wf sb → i + n = length data → lastPos ≤ i →
    builder_wf (escape_loop n data i lastPos sb).1
    ∧ (escape_loop n data i lastPos sb).2 ≤ length data
    ∧ toString (escape_loop n data i lastPos sb).1
        ++ drop (escape_loop n data i lastPos sb).2 data
      = toString sb ++ take (i - lastPos) (drop lastPos data)
        ++ escape_bytes (drop i data).
Proof.
  induction n as [|n IH]; intros i lastPos sb Hwf Hlen Hlast.
  - cbn [escape_loop fst snd]. rewrite (drop_ge data i) by lia.
    rewrite take_ge by (rewrite length_drop; lia).
    split; [exact Hwf|]. split; [lia|]. by rewrite app_nil_r.
  - cbn [escape_loop]. rewrite (drop_byte_at data i) by lia.
    set (c := byte_at data i). unfold escape_bytes. cbn [map concat].
    fold (escape_bytes (drop (S i) data)). unfold escape_byte at 1.
    fold (needs_escape c). destruct (needs_escape c) eqn:Ec.
    + (* flush the run, write the escape *)
      set (sb1 := if lastPos <? i
                  then append_n sb (drop lastPos data) (i - lastPos) else sb).
      assert (H1 : toString sb1 = toString sb ++ take (i - lastPos) (drop lastPos data)
                   ∧ builder_wf sb1).
      { subst sb1. destruct (Nat.ltb_spec lastPos i).
        - apply append_n_toString; [exact Hwf | rewrite length_drop; lia].
        - replace (i - lastPos) with 0 by lia. cbn [take].
          by rewrite app_nil_r. }
      destruct H1 as [Hts1 Hwf1].
      set (sb2 := match escape_lookup c with
                  | Some esc => append_cstr sb1 esc
                  | None => append_n sb1 (snprintf_u04x c) 6
                  end).
      assert (H2 : toString sb2
                   = toString sb1 ++ match escape_lookup c with
                                     | Some esc => esc
                                     | None => snprintf_u04x c
                                     end
                   ∧ builder_wf sb2).
      { subst sb2. destruct (escape_lookup c) as [esc|] eqn:Eesc.
        - rewrite <- (escape_lookup_c_str c esc Eesc) at 2.
          by apply append_cstr_toString.
        - apply (append_n_toString sb1 (snprintf_u04x c) 6 Hwf1). reflexivity. }
      destruct H2 as [Hts2 Hwf2].
      destruct (IH (S i) (i + 1) sb2 Hwf2 ltac:(lia) ltac:(lia)) as (Hw & Hl & Hout).
      split; [exact Hw|]. split; [exact Hl|].
      rewrite Hout, Hts2, Hts1. replace (S i - (i + 1)) with 0 by lia.
      cbn [take app]. by rewrite <- !app_assoc.
    + destruct (IH (S i) lastPos sb Hwf ltac:(lia) ltac:(lia)) as (Hw & Hl & Hout).
      split; [exact Hw|]. split; [exact Hl|].
      rewrite Hout. f_equal.
      replace (S i - lastPos) with (S (i - lastPos)) by lia.
      rewrite (take_S_r _ _ c).
      2:{ rewrite lookup_drop. replace (lastPos + (i - lastPos)) with i by lia.
          subst c. unfold byte_at. rewrite nth_lookup.
          destruct (lookup_lt_is_Some_2 data i ltac:(lia)) as [x ->]. reflexivity. }
      by rewrite <- app_assoc.
Qed.

(** The contract of the string emitter: a quote, each byte escaped or as
    it is, a quote. *)
Lemma escapeStringFast_spec (sb : FastStringBuilder) (str : bytes) :
  builder_wf sb →
  toString (escapeStringFast sb str)
  = toString sb ++ dq :: escape_bytes str ++ [dq]
  ∧ builder_wf (escapeStringFast sb str).
Proof.
  intros Hwf. unfold escapeStringFast.
  destruct (append_char_toString sb dq Hwf) as [Hts0 Hwf0].
  pose proof (escape_loop_spec str (length str) 0 0 (append_char sb dq)
                Hwf0 eq_refl (le_n _)) as (Hw & Hl & Hout).
  destruct (escape_loop (length str) str 0 0 (append_char sb dq)) as [sb1 lastPos].
  cbn [fst snd] in *. rewrite drop_0 in Hout. cbn [take app] in Hout.
  set (sb2 := if lastPos <? length str
              then append_n sb1 (drop lastPos str) (length str - lastPos)
              else sb1).
  assert (H2 : toString sb2 = toString sb1 ++ drop lastPos str ∧ builder_wf sb2).
  { subst sb2. destruct (Nat.ltb_spec lastPos (length str)).
    - destruct (append_n_toString sb1 (drop lastPos str) (length str - lastPos) Hw)
        as [Hts Hwf']; [rewrite length_drop; lia|].
      rewrite take_ge in Hts by (rewrite length_drop; lia). by split.
    - rewrite drop_ge by lia. by rewrite app_nil_r. }
  destruct H2 as [Hts2 Hwf2].
  destruct (append_char_toString sb2 dq Hwf2) as [Hts3 Hwf3].
  split; [|exact Hwf3].
  rewrite Hts3, Hts2, Hout, Hts0. rewrite <- !app_assoc. reflexivity.
Qed.

(** The string emitter writes a quote, then each byte as it is or as its
    escape, then a quote; what it writes is a JSON string. *)
Theorem escapeStringFast_contract (sb : FastStringBuilder) (str : bytes) :
  builder_wf sb →
  toString (escapeStringFast sb str)
  = toString sb ++ dq :: escape_bytes str ++ [dq]
  ∧ json_string (dq :: escape_bytes str ++ [dq]).
Proof.
  intros Hwf. split; [apply (escapeStringFast_spec sb str Hwf)|].
  apply json_string_intro, json_chars_escape_bytes.
Qed.

Lemma json_string_escaped (str : bytes) :
  json_string (dq :: escape_bytes str ++ [dq]).
Proof. apply json_string_intro, json_chars_escape_bytes. Qed.

(** ** The serializer *)

Section Serializer.

Variable snprintf_g15 : double → g_format.

Local Abbreviation stringifyValue := (stringifyValueFast snprintf_g15).

(** One call of [stringifyValueFast] on a heap object. *)
Lemma stringifyValueFast_ref (fuel : nat) (h : Heap) (sb : FastStringBuilder)
    (l : loc) (depth : Z) :
  stringifyValue (S fuel) h sb (VRef l) depth
  = if obj_is_array (h l) then
      stringifyArrayFast (stringifyValue fuel h) sb (h l) depth
    else if obj_is_object (h l) then
      if Has (h l) (B "toJSON") && IsFunction h (Get (h l) (B "toJSON")) then
        stringifyValue fuel h sb (Call h (Get (h l) (B "toJSON")) (VRef l)) depth
      else stringifyObjectFast (stringifyValue fuel h) sb (h l) depth
    else Some (append_n sb (B "null") 4).
Proof. reflexivity. Qed.

Lemma self_toJSON_lookup :
  obj_is_array (self_toJSON_heap 0) = false
  ∧ obj_is_object (self_toJSON_heap 0) = true
  ∧ Has (self_toJSON_heap 0) (B "toJSON") = true
  ∧ IsFunction self_toJSON_heap (Get (self_toJSON_heap 0) (B "toJSON")) = true
  ∧ Call self_toJSON_heap (Get (self_toJSON_heap 0) (B "toJSON")) (VRef 0) = VRef 0.
Proof. repeat split; vm_compute; reflexivity. Qed.

(** The recursion on [{ toJSON() { return this; } }] has no end: the value
    that replaces the object is the object, at the same depth. *)
Lemma self_toJSON_diverges (fuel : nat) :
  ∀ (sb : FastStringBuilder) (depth : Z),
    stringifyValue fuel self_toJSON_heap sb (VRef 0) depth = None.
Proof.
  destruct self_toJSON_lookup as (Harr & Hobj & Hhas & Hfun & Hcall).
  induction fuel as [|fuel IH]; intros sb depth; [reflexivity|].
  rewrite stringifyValueFast_ref, Harr, Hobj, Hhas, Hfun, Hcall. apply IH.
Qed.

(** C1, at its failing input: [stringify({ toJSON() { return this; } })]
    returns no text, whatever the stack it is given: the recursion has no
    end, and the call ends in the host's [RangeError]. *)
Theorem FastStringify_self_toJSON (host : Host) (fuel : nat) :
  Stringify snprintf_g15 fuel self_toJSON_heap (VRef 0) = None
  ∧ FastStringify snprintf_g15 host fuel self_toJSON_heap [VRef 0]
    = Threw (RangeError (B "Maximum call stack size exceeded")).
Proof.
  unfold FastStringify, Stringify. cbn [length Nat.ltb Nat.leb info_at nth].
  rewrite self_toJSON_diverges. split; reflexivity.
Qed.

(** C4, at its failing input: the depth guard is not on the path that
    follows [toJSON], so the array [[o]] with [o.toJSON() === o] is not
    serialized at any depth of the stack; the array that holds itself is
    cut at depth 11. *)
Theorem stringify_depth_guard_misses_toJSON (fuel : nat) :
  Stringify snprintf_g15 fuel self_toJSON_heap (VRef 2) = None
  ∧ Stringify snprintf_g15 12 cyclic_array_heap (VRef 0)
    = Some (B "[[[[[[[[[[[null]]]]]]]]]]]").
Proof.
  split; [|vm_compute; reflexivity].
  unfold Stringify. destruct fuel as [|fuel]; [reflexivity|].
  rewrite stringifyValueFast_ref.
  replace (obj_is_array (self_toJSON_heap 2)) with true by reflexivity.
  unfold stringifyArrayFast. cbn [Z.ltb Z.compare].
  replace (Length (self_toJSON_heap 2)) with 1 by reflexivity.
  cbn [array_loop Nat.ltb Nat.leb].
  replace (GetIndex (self_toJSON_heap 2) 0) with (VRef 0) by reflexivity.
  rewrite self_toJSON_diverges. reflexivity.
Qed.

(** *** Arrays come before [toJSON] *)

Lemma array_loop_ext
    (rec1 rec2 : FastStringBuilder → Value → Z → option FastStringBuilder)
    (a1 a2 : JsObject) (depth : Z) :
  (∀ sb v d, rec1 sb v d = rec2 sb v d) →
  obj_elems a1 = obj_elems a2 →
  ∀ n i sb, array_loop rec1 a1 depth n i sb = array_loop rec2 a2 depth n i sb.
Proof.
  intros Hrec Helems. induction n as [|n IH]; intros i sb; [reflexivity|].
  cbn [array_loop]. unfold GetIndex. rewrite Helems, Hrec.
  destruct (rec2 _ _ _); cbn [mbind option_bind]; [apply IH | reflexivity].
Qed.

Lemma stringifyArrayFast_ext
    (rec1 rec2 : FastStringBuilder → Value → Z → option FastStringBuilder)
    (a1 a2 : JsObject) (depth : Z) (sb : FastStringBuilder) :
  (∀ sb v d, rec1 sb v d = rec2 sb v d) →
  obj_elems a1 = obj_elems a2 →
  stringifyArrayFast rec1 sb a1 depth = stringifyArrayFast rec2 sb a2 depth.
Proof.
  intros Hrec Helems. unfold stringifyArrayFast, Length. rewrite Helems.
  rewrite (array_loop_ext rec1 rec2 a1 a2 depth Hrec Helems). reflexivity.
Qed.

Lemma object_loop_ext
    (rec1 rec2 : FastStringBuilder → Value → Z → option FastStringBuilder)
    (obj : JsObject) (keys : list bytes) (depth : Z) :
  (∀ sb v d, rec1 sb v d = rec2 sb v d) →
  ∀ n i first sb,
    object_loop rec1 obj keys depth n i first sb
    = object_loop rec2 obj keys depth n i first sb.
Proof.
  intros Hrec. induction n as [|n IH]; intros i first sb; [reflexivity|].
  cbn [object_loop]. destruct (IsUndefined _); [apply IH|].
  rewrite Hrec. destruct (rec2 _ _ _); cbn [mbind option_bind];
    [apply IH | reflexivity].
Qed.

Lemma stringifyObjectFast_ext
    (rec1 rec2 : FastStringBuilder → Value → Z → option FastStringBuilder)
    (obj : JsObject) (depth : Z) (sb : FastStringBuilder) :
  (∀ sb v d, rec1 sb v d = rec2 sb v d) →
  stringifyObjectFast rec1 sb obj depth = stringifyObjectFast rec2 sb obj depth.
Proof.
  intros Hrec. unfold stringifyObjectFast.
  rewrite (object_loop_ext rec1 rec2 obj (obj_keys obj) depth Hrec). reflexivity.
Qed.

Lemma heap_update_eq (h : Heap) (l : loc) (o : JsObject) :
  heap_update h l o l = o.
Proof. unfold heap_update. by rewrite Nat.eqb_refl. Qed.

Lemma heap_update_ne (h : Heap) (l l' : loc) (o : JsObject) :
  l' ≠ l → heap_update h l o l' = h l'.
Proof. unfold heap_update. intros H. by destruct (Nat.eqb_spec l' l). Qed.

(** Nothing the serializer writes depends on the properties of an array:
    not on their names, not on their values, not on what the host says
    [IsObject] of it. *)
Lemma array_properties_unread (h : Heap) (l : loc) (o' : JsObject) :
  obj_is_array (h l) = true →
  obj_is_array o' = true →
  obj_elems o' = obj_elems (h l) →
  obj_call o' = obj_call (h l) →
  ∀ fuel sb v depth,
    stringifyValue fuel (heap_update h l o') sb v depth
    = stringifyValue fuel h sb v depth.
Proof.
  intros Harr Harr' Helems Hcall.
  assert (Hfun : ∀ v, IsFunction (heap_update h l o') v = IsFunction h v).
  { intros [| | | | |l0|]; try reflexivity. unfold IsFunction, heap_update.
    destruct (Nat.eqb_spec l0 l) as [->|]; [by rewrite Hcall | reflexivity]. }
  assert (Hcallv : ∀ fn this, Call (heap_update h l o') fn this = Call h fn this).
  { intros [| | | | |l0|] this; try reflexivity. unfold Call, AsObject, heap_update.
    destruct (Nat.eqb_spec l0 l) as [->|]; [by rewrite Hcall | reflexivity]. }
  induction fuel as [|fuel IH]; intros sb v depth; [reflexivity|].
  destruct v as [| |b|d|s|l0|]; try reflexivity.
  rewrite !stringifyValueFast_ref.
  destruct (Nat.eq_dec l0 l) as [->|Hne].
  - rewrite heap_update_eq, Harr, Harr'.
    apply stringifyArrayFast_ext; [exact IH | exact Helems].
  - rewrite !(heap_update_ne h l l0 o' Hne), Hfun, Hcallv, IH.
    destruct (obj_is_array (h l0)).
    { by apply stringifyArrayFast_ext. }
    destruct (obj_is_object (h l0)); [|reflexivity].
    destruct (Has (h l0) (B "toJSON") && IsFunction h (Get (h l0) (B "toJSON")));
      [reflexivity|].
    by apply stringifyObjectFast_ext.
Qed.

(** C9. A value that is an array goes to [stringifyArrayFast] whatever its
    properties are, a callable [toJSON] included: replacing the properties
    of the array changes nothing in what is written, for the array and for
    every value that holds it.  An object that is no array and has a
    callable [toJSON] is replaced by what [toJSON] returns. *)
Theorem array_dispatch_before_toJSON (h : Heap) (l : loc) (o' : JsObject)
    (fuel : nat) (sb : FastStringBuilder) (depth : Z) :
  obj_is_array (h l) = true →
  obj_is_array o' = true →
  obj_elems o' = obj_elems (h l) →
  obj_call o' = obj_call (h l) →
  stringifyValue (S fuel) h sb (VRef l) depth
  = stringifyArrayFast (stringifyValue fuel h) sb (h l) depth
  ∧ (∀ v, stringifyValue fuel (heap_update h l o') sb v depth
          = stringifyValue fuel h sb v depth)
  ∧ (∀ l', obj_is_array (h l') = false → obj_is_object (h l') = true →
           Has (h l') (B "toJSON") = true →
           IsFunction h (Get (h l') (B "toJSON")) = true →
           stringifyValue (S fuel) h sb (VRef l') depth
           = stringifyValue fuel h sb
               (Call h (Get (h l') (B "toJSON")) (VRef l')) depth).
Proof.
  intros Harr Harr' Helems Hcall. split; [|split].
  - rewrite stringifyValueFast_ref, Harr. reflexivity.
  - intros v. by apply array_properties_unread.
  - intros l' Hnarr Hobj Hhas Hfun.
    rewrite stringifyValueFast_ref, Hnarr, Hobj, Hhas, Hfun. reflexivity.
Qed.

(** *** Numbers *)

Lemma builder_wf_new : builder_wf FastStringBuilder_new.
Proof. unfold builder_wf. apply Nat.le_0_l. Qed.

Lemma toString_append_n_whole (sb : FastStringBuilder) (str : bytes) :
  builder_wf sb →
  toString (append_n sb str (length str)) = toString sb ++ str
  ∧ builder_wf (append_n sb str (length str)).
Proof.
  intros Hwf. destruct (append_n_toString sb str (length str) Hwf (le_n _))
    as [Hts Hwf'].
  rewrite take_ge in Hts by lia. by split.
Qed.

Lemma Stringify_number (fuel : nat) (h : Heap) (d : double) :
  Stringify snprintf_g15 (S fuel) h (VNumber d)
  = Some (number_text snprintf_g15 d).
Proof.
  unfold Stringify, number_text.
  cbn [stringifyValueFast IsNull IsUndefined IsBoolean IsNumber DoubleValue orb].
  destruct (isnan d || isinf d);
    [|destruct (_ && _ && _)]; cbn [mbind option_bind]; f_equal;
    unfold appendInt, appendDouble;
    [change 4 with (length (B "null"))|..];
    by rewrite (proj1 (toString_append_n_whole _ _ builder_wf_new)).
Qed.

(** C5. A number is written as [null] exactly when it is NaN or an
    infinity; every other number is written as a number token: the decimal
    digits of the integer when it is a safe integer, what [%.15g] gives
    otherwise. *)
Theorem number_null_iff_not_finite (fuel : nat) (h : Heap) (d : double) :
  Stringify snprintf_g15 (S fuel) h (VNumber d)
  = Some (number_text snprintf_g15 d)
  ∧ (number_text snprintf_g15 d = B "null" ↔ isnan d = true ∨ isinf d = true)
  ∧ (isnan d = false → isinf d = false →
     json_number (number_text snprintf_g15 d))
  ∧ (∀ n, is_safe_integer d n → number_text snprintf_g15 d = snprintf_ld n)
  ∧ (isnan d = false → isinf d = false → (∀ n, ¬ is_safe_integer d n) →
     number_text snprintf_g15 d = g_render (snprintf_g15 d)).
Proof.
  split; [apply Stringify_number|].
  split; [apply number_text_null|].
  split; [apply number_text_finite|].
  split; [apply number_text_safe_integer | apply number_text_other].
Qed.

(** *** What is written is JSON *)

Lemma json_element_of_value (v : bytes) : json_value v → json_element v.
Proof.
  intros Hv. rewrite <- (app_nil_r v).
  by apply (json_element_intro [] v []).
Qed.

Lemma json_member_of (k v : bytes) :
  json_string k → json_value v → json_member (k ++ ":"%char :: v).
Proof.
  intros Hk Hv.
  apply (json_member_intro [] k [] v); auto using json_element_of_value.
Qed.

Lemma array_loop_valid
    (recurse : FastStringBuilder → Value → Z → option FastStringBuilder)
    (arr : JsObject) (depth : Z) :
  writes_value recurse →
  ∀ n i sb sb',
    builder_wf sb → array_loop recurse arr depth n i sb = Some sb' →
    builder_wf sb'
    ∧ ∃ body, toString sb' = toString sb ++ body
              ∧ match n with
                | O => body = []
                | S _ => if 0 <? i
                         then ∃ es, body = ","%char :: es ∧ json_elements es
                         else json_elements body
                end.
Proof.
  intros Hrec. induction n as [|n IH]; intros i sb sb' Hwf Hrun.
  - injection Hrun as <-. split; [exact Hwf|]. exists []. by rewrite app_nil_r.
  - cbn [array_loop] in Hrun.
    set (sb1 := if 0 <? i then append_char sb "," else sb) in Hrun.
    assert (H1 : toString sb1 = toString sb ++ (if 0 <? i then [","%char] else [])
                 ∧ builder_wf sb1).
    { subst sb1. destruct (0 <? i).
      - by apply append_char_toString.
      - by rewrite app_nil_r. }
    destruct H1 as [Hts1 Hwf1].
    destruct (recurse sb1 (GetIndex arr i) (depth + 1)%Z) as [sb2|] eqn:Erec;
      cbn [mbind option_bind] in Hrun; [|discriminate Hrun].
    destruct (Hrec _ _ _ _ Hwf1 Erec) as (Hwf2 & out & Hts2 & Hout).
    destruct (IH (S i) sb2 sb' Hwf2 Hrun) as (Hwf' & body & Hts' & Hbody).
    split; [exact Hwf'|].
    assert (Hes : json_elements (out ++ body)).
    { destruct n as [|n].
      - subst body. rewrite app_nil_r.
        by apply json_elements_one, json_element_of_value.
      - cbn [Nat.ltb Nat.leb] in Hbody. destruct Hbody as (es & -> & Hes).
        apply json_elements_more; [by apply json_element_of_value | exact Hes]. }
    exists ((if 0 <? i then [","%char] else []) ++ out ++ body).
    split.
    + rewrite Hts', Hts2, Hts1. by rewrite <- !app_assoc.
    + destruct (0 <? i); [|exact Hes]. by exists (out ++ body).
Qed.

Lemma stringifyArrayFast_valid
    (recurse : FastStringBuilder → Value → Z → option FastStringBuilder) :
  writes_value recurse →
  ∀ sb arr depth sb',
    builder_wf sb → stringifyArrayFast recurse sb arr depth = Some sb' →
    builder_wf sb' ∧ ∃ out, toString sb' = toString sb ++ out ∧ json_value out.
Proof.
  intros Hrec sb arr depth sb' Hwf. unfold stringifyArrayFast.
  destruct (10 <? depth)%Z.
  - intros [= <-].
    destruct (append_n_toString sb (B "null") 4 Hwf (le_n _)) as [Hts Hwf'].
    split; [exact Hwf'|]. exists (B "null"). split; [exact Hts | apply json_null].
  - destruct (append_char_toString sb "[" Hwf) as [Hts0 Hwf0].
    destruct (array_loop recurse arr depth (Length arr) 0 (append_char sb "["))
      as [sb1|] eqn:Eloop; cbn [mbind option_bind]; [|discriminate].
    intros [= <-].
    destruct (array_loop_valid recurse arr depth Hrec _ _ _ _ Hwf0 Eloop)
      as (Hwf1 & body & Hts1 & Hbody).
    destruct (append_char_toString sb1 "]" Hwf1) as [Hts2 Hwf2].
    split; [exact Hwf2|]. exists ("["%char :: body ++ ["]"%char]). split.
    + rewrite Hts2, Hts1, Hts0. by rewrite <- !app_assoc.
    + destruct (Length arr).
      * subst body. by apply (json_array_empty []).
      * by apply json_array.
Qed.

Lemma object_loop_valid
    (recurse : FastStringBuilder → Value → Z → option FastStringBuilder)
    (obj : JsObject) (keys : list bytes) (depth : Z) :
  writes_value recurse →
  ∀ n i first sb sb',
    builder_wf sb → object_loop recurse obj keys depth n i first sb = Some sb' →
    builder_wf sb'
    ∧ ∃ body, toString sb' = toString sb ++ body
              ∧ (body = []
                 ∨ if first then json_members body
                   else ∃ ms, body = ","%char :: ms ∧ json_members ms).
Proof.
  intros Hrec. induction n as [|n IH]; intros i first sb sb' Hwf Hrun.
  - injection Hrun as <-. split; [exact Hwf|]. exists [].
    split; [by rewrite app_nil_r | by left].
  - cbn [object_loop] in Hrun.
    destruct (IsUndefined (Get obj (nth i keys []))); [by apply (IH _ _ _ _ Hwf Hrun)|].
    set (sb1 := if negb first then append_char sb "," else sb) in Hrun.
    assert (H1 : toString sb1 = toString sb ++ (if first then [] else [","%char])
                 ∧ builder_wf sb1).
    { subst sb1. destruct first; cbn [negb].
      - by rewrite app_nil_r.
      - by apply append_char_toString. }
    destruct H1 as [Hts1 Hwf1].
    destruct (escapeStringFast_spec sb1 (nth i keys []) Hwf1) as [Hts2 Hwf2].
    destruct (append_char_toString _ ":" Hwf2) as [Hts3 Hwf3].
    destruct (recurse _ (Get obj (nth i keys [])) (depth + 1)%Z) as [sb4|] eqn:Erec;
      cbn [mbind option_bind] in Hrun; [|discriminate Hrun].
    destruct (Hrec _ _ _ _ Hwf3 Erec) as (Hwf4 & out & Hts4 & Hout).
    destruct (IH (S i) false sb4 sb' Hwf4 Hrun) as (Hwf' & body & Hts' & Hbody).
    split; [exact Hwf'|].
    set (member := (dq :: escape_bytes (nth i keys []) ++ [dq]) ++ ":"%char :: out).
    assert (Hm : json_member member).
    { apply json_member_of; [apply json_string_escaped | exact Hout]. }
    assert (Hms : json_members (member ++ body)).
    { destruct Hbody as [->|(ms & -> & Hms)].
      - rewrite app_nil_r. by apply json_members_one.
      - by apply json_members_more. }
    exists ((if first then [] else [","%char]) ++ member ++ body). split.
    + rewrite Hts', Hts4, Hts3, Hts2, Hts1. subst member.
      rewrite <- !app_assoc. cbn [app]. by rewrite <- !app_assoc.
    + right. destruct first; [exact Hms | by exists (member ++ body)].
Qed.

Lemma stringifyObjectFast_valid
    (recurse : FastStringBuilder → Value → Z → option FastStringBuilder) :
  writes_value recurse →
  ∀ sb obj depth sb',
    builder_wf sb → stringifyObjectFast recurse sb obj depth = Some sb' →
    builder_wf sb' ∧ ∃ out, toString sb' = toString sb ++ out ∧ json_value out.
Proof.
  intros Hrec sb obj depth sb' Hwf. unfold stringifyObjectFast.
  destruct (10 <? depth)%Z.
  - intros [= <-].
    destruct (append_n_toString sb (B "null") 4 Hwf (le_n _)) as [Hts Hwf'].
    split; [exact Hwf'|]. exists (B "null"). split; [exact Hts | apply json_null].
  - destruct (append_char_toString sb "{" Hwf) as [Hts0 Hwf0].
    destruct (object_loop recurse obj (obj_keys obj) depth (length (obj_keys obj))
                0 true (append_char sb "{")) as [sb1|] eqn:Eloop;
      cbn [mbind option_bind]; [|discriminate].
    intros [= <-].
    destruct (object_loop_valid recurse obj _ depth Hrec _ _ _ _ _ Hwf0 Eloop)
      as (Hwf1 & body & Hts1 & Hbody).
    destruct (append_char_toString sb1 "}" Hwf1) as [Hts2 Hwf2].
    split; [exact Hwf2|]. exists ("{"%char :: body ++ ["}"%char]). split.
    + rewrite Hts2, Hts1, Hts0. by rewrite <- !app_assoc.
    + destruct Hbody as [->|Hms].
      * by apply (json_object_empty []).
      * by apply json_object.
Qed.

Lemma stringifyValueFast_valid (fuel : nat) (h : Heap) :
  writes_value (stringifyValue fuel h).
Proof.
  induction fuel as [|fuel IH]; intros sb v depth sb' Hwf Hrun; [discriminate Hrun|].
  assert (Hnull : ∀ sb0, Some (append_n sb (B "null") 4) = Some sb0 →
            builder_wf sb0
            ∧ ∃ out, toString sb0 = toString sb ++ out ∧ json_value out).
  { intros sb0 [= <-].
    destruct (append_n_toString sb (B "null") 4 Hwf (le_n _)) as [Hts Hwf'].
    split; [exact Hwf'|]. exists (B "null"). split; [exact Hts | apply json_null]. }
  destruct v as [| |b|d|s|l|]; try (by apply Hnull).
  - (* boolean *)
    cbn [stringifyValueFast IsNull IsUndefined IsBoolean BooleanValue orb] in Hrun.
    destruct b; injection Hrun as <-.
    + destruct (append_n_toString sb (B "true") 4 Hwf (le_n _)) as [Hts Hwf'].
      split; [exact Hwf'|]. exists (B "true"). split; [exact Hts | apply json_true].
    + destruct (append_n_toString sb (B "false") 5 Hwf (le_n _)) as [Hts Hwf'].
      split; [exact Hwf'|]. exists (B "false"). split; [exact Hts | apply json_false].
  - (* number *)
    cbn [stringifyValueFast IsNull IsUndefined IsBoolean IsNumber DoubleValue orb]
      in Hrun.
    assert (Hnum : ∃ sb0, Some sb0 = Some sb'
              ∧ toString sb0 = toString sb ++ number_text snprintf_g15 d
              ∧ builder_wf sb0).
    { unfold number_text. destruct (isnan d || isinf d).
      - eexists. split; [exact Hrun|].
        by apply (append_n_toString sb (B "null") 4).
      - destruct (_ && _ && _); eexists; (split; [exact Hrun|]);
          by apply toString_append_n_whole. }
    destruct Hnum as (sb0 & [= ->] & Hts & Hwf'). split; [exact Hwf'|].
    exists (number_text snprintf_g15 d). split; [exact Hts|].
    destruct (isnan d) eqn:Hnan.
    { rewrite (proj2 (number_text_null _ d)) by (by left). apply json_null. }
    destruct (isinf d) eqn:Hinf.
    { rewrite (proj2 (number_text_null _ d)) by (by right). apply json_null. }
    by apply json_num, number_text_finite.
  - (* string *)
    cbn [stringifyValueFast IsNull IsUndefined IsBoolean IsNumber IsString
         Utf8Value orb] in Hrun.
    injection Hrun as <-. destruct (escapeStringFast_spec sb s Hwf) as [Hts Hwf'].
    split; [exact Hwf'|]. eexists. split; [exact Hts|].
    apply json_str, json_string_escaped.
  - (* object, array, function *)
    rewrite stringifyValueFast_ref in Hrun.
    destruct (obj_is_array (h l)).
    { by apply (stringifyArrayFast_valid _ IH sb (h l) depth). }
    destruct (obj_is_object (h l)); [|by apply Hnull].
    destruct (Has (h l) (B "toJSON") && IsFunction h (Get (h l) (B "toJSON"))).
    + by apply (IH _ _ _ _ Hwf Hrun).
    + by apply (stringifyObjectFast_valid _ IH sb (h l) depth).
Qed.

(** Whenever [stringify] returns, what it returns is a JSON text: [null]
    stands for the numbers that are not finite, for the containers below
    depth 10 and for the values of no kind the code tests for. *)
Theorem Stringify_valid_json (fuel : nat) (h : Heap) (v : Value) (out : bytes) :
  Stringify snprintf_g15 fuel h v = Some out → json_text out.
Proof.
  unfold Stringify.
  destruct (stringifyValue fuel h FastStringBuilder_new v 0) as [sb'|] eqn:Erun;
    cbn [mbind option_bind]; [|discriminate].
  intros [= <-].
  destruct (stringifyValueFast_valid fuel h _ _ _ _ builder_wf_new Erun)
    as (_ & text & -> & Htext).
  by apply json_element_of_value.
Qed.

(** *** The recursion ends where no [toJSON] is called *)

Lemma array_loop_total
    (recurse : FastStringBuilder → Value → Z → option FastStringBuilder)
    (arr : JsObject) (depth : Z) :
  (∀ sb v, ∃ sb', recurse sb v (depth + 1)%Z = Some sb') →
  ∀ n i sb, ∃ sb', array_loop recurse arr depth n i sb = Some sb'.
Proof.
  intros Hrec. induction n as [|n IH]; intros i sb; [by eexists|].
  cbn [array_loop].
  destruct (Hrec (if 0 <? i then append_char sb "," else sb) (GetIndex arr i))
    as [sb1 ->].
  cbn [mbind option_bind]. apply IH.
Qed.

Lemma object_loop_total
    (recurse : FastStringBuilder → Value → Z → option FastStringBuilder)
    (obj : JsObject) (keys : list bytes) (depth : Z) :
  (∀ sb v, ∃ sb', recurse sb v (depth + 1)%Z = Some sb') →
  ∀ n i first sb, ∃ sb', object_loop recurse obj keys depth n i first sb = Some sb'.
Proof.
  intros Hrec. induction n as [|n IH]; intros i first sb; [by eexists|].
  cbn [object_loop]. destruct (IsUndefined _); [apply IH|].
  match goal with |- context [recurse ?s ?v _] => destruct (Hrec s v) as [sb1 ->] end.
  cbn [mbind option_bind]. apply IH.
Qed.

(** A stack of [12 - depth] calls is enough at depth [depth]. *)
Lemma stringifyValueFast_total (h : Heap) :
  no_toJSON h →
  ∀ fuel sb v depth,
    1 ≤ fuel → (12 - depth ≤ Z.of_nat fuel)%Z →
    ∃ sb', stringifyValue fuel h sb v depth = Some sb'.
Proof.
  intros Hno. induction fuel as [|fuel IH]; intros sb v depth H1 Hfuel; [lia|].
  destruct v as [| |b|d|s|l|]; try (by eexists).
  - cbn [stringifyValueFast IsNull IsUndefined IsBoolean BooleanValue orb].
    destruct b; by eexists.
  - cbn [stringifyValueFast IsNull IsUndefined IsBoolean IsNumber orb].
    destruct (_ || _); [by eexists|]. destruct (_ && _ && _); by eexists.
  - rewrite stringifyValueFast_ref, Hno.
    assert (Hrec : (10 <? depth)%Z = false →
              ∀ sb0 v0, ∃ sb', stringifyValue fuel h sb0 v0 (depth + 1)%Z = Some sb').
    { intros Hd sb0 v0. apply Z.ltb_ge in Hd. apply IH; lia. }
    destruct (obj_is_array (h l)).
    { unfold stringifyArrayFast. destruct (10 <? depth)%Z; [by eexists|].
      destruct (array_loop_total _ (h l) depth (Hrec eq_refl) (Length (h l)) 0
                  (append_char sb "[")) as [sb1 ->].
      by eexists. }
    destruct (obj_is_object (h l)); [|by eexists].
    unfold stringifyObjectFast. destruct (10 <? depth)%Z; [by eexists|].
    destruct (object_loop_total _ (h l) (obj_keys (h l)) depth (Hrec eq_refl)
                (length (obj_keys (h l))) 0 true (append_char sb "{")) as [sb1 ->].
    by eexists.
Qed.

Lemma Stringify_run (fuel : nat) (h : Heap) (v : Value)
    (sb' : FastStringBuilder) :
  stringifyValue fuel h FastStringBuilder_new v 0 = Some sb' →
  Stringify snprintf_g15 fuel h v = Some (toString sb').
Proof. unfold Stringify. by intros ->. Qed.

(** Where no object has a callable [toJSON], [stringify] returns a JSON
    text for every value, cyclic or not, on a stack of twelve calls. *)
Theorem Stringify_returns_json (h : Heap) (v : Value) :
  no_toJSON h →
  ∃ out, Stringify snprintf_g15 12 h v = Some out ∧ json_text out.
Proof.
  intros Hno.
  destruct (stringifyValueFast_total h Hno 12 FastStringBuilder_new v 0
              ltac:(lia) ltac:(lia)) as [sb' Hrun].
  destruct (stringifyValueFast_valid 12 h _ _ _ _ builder_wf_new Hrun)
    as (_ & text & Hts & Htext).
  exists (toString sb'). split; [by apply Stringify_run|].
  rewrite Hts. by apply json_element_of_value.
Qed.

End Serializer.

(** ** Examples *)

(** [[1, 2]] with a callable [toJSON] is written as [[1,2]], as it is
    without the property; the plain object with the same [toJSON] is
    written as the string ["X"]. *)
Lemma array_dispatch_before_toJSON_witness :
  obj_is_array (array_toJSON_heap 0) = true
  ∧ Stringify sample_g15 3 array_toJSON_heap (VRef 0) = Some (B "[1,2]")
  ∧ Stringify sample_g15 3
      (heap_update array_toJSON_heap 0
         (array_object (obj_elems (array_toJSON_heap 0)) [] []))
      (VRef 0)
    = Stringify sample_g15 3 array_toJSON_heap (VRef 0)
  ∧ Stringify sample_g15 3 array_toJSON_heap (VRef 2)
    = Some [dq; "X"%char; dq].
Proof.
  split; [reflexivity|]. split; [vm_compute; reflexivity|].
  split; [|vm_compute; reflexivity].
  unfold Stringify.
  rewrite (proj1 (proj2 (array_dispatch_before_toJSON sample_g15 array_toJSON_heap 0
    (array_object (obj_elems (array_toJSON_heap 0)) [] [])
    3 FastStringBuilder_new 0 eq_refl eq_refl eq_refl eq_refl))).
  reflexivity.
Defined.

Lemma Stringify_valid_json_witness :
  Stringify sample_g15 3 scenario_heap (VRef 1) = Some (B "[1,2.5,null,true]")
  ∧ json_text (B "[1,2.5,null,true]").
Proof.
  assert (Hrun : Stringify sample_g15 3 scenario_heap (VRef 1)
                 = Some (B "[1,2.5,null,true]")) by (vm_compute; reflexivity).
  split; [exact Hrun | exact (Stringify_valid_json _ _ _ _ _ Hrun)].
Defined.

Lemma no_toJSON_cyclic_array : no_toJSON cyclic_array_heap.
Proof. intros l. reflexivity. Qed.

Lemma Stringify_returns_json_witness :
  no_toJSON cyclic_array_heap
  ∧ ∃ out, Stringify sample_g15 12 cyclic_array_heap (VRef 0) = Some out
           ∧ json_text out.
Proof.
  split; [exact no_toJSON_cyclic_array|].
  exact (Stringify_returns_json sample_g15 cyclic_array_heap (VRef 0)
           no_toJSON_cyclic_array).
Defined.

(** The scenarios of the specification. *)
Example stringify_scenarios :
  Stringify sample_g15 3 scenario_heap (VRef 0)
  = Some (J "{'a':1,'b':'hi\n','c':null}")
  ∧ Stringify sample_g15 3 scenario_heap (VRef 1) = Some (B "[1,2.5,null,true]")
  ∧ Stringify sample_g15 4 scenario_heap (VRef 2) = Some (J "{'t':'X'}")
  ∧ Stringify sample_g15 1 scenario_heap (VString ["001"%char; "127"%char])
    = Some (J "'\u0001" ++ ["127"%char; dq]).
Proof.
  split; [vm_compute; reflexivity|]. split; [vm_compute; reflexivity|].
  split; vm_compute; reflexivity.
Qed.

Example url_scenarios :
  ParseUrl sample_host [VString (B "/a/b?x=1&y=hello%20world&z")]
  = Returned (RUrl (B "/a/b")
                (<[B "y" := B "hello world"]> (<[B "x" := B "1"]> ∅)))
  ∧ ParseQuery sample_host [VString (B "?k=a+b&k=c")]
    = Returned (RObject {[B "k" := B "c"]})
  ∧ DecodeURI sample_host [VString (B "%E2%9C%93")]
    = Returned (RString [ascii_of_nat 226; ascii_of_nat 156; ascii_of_nat 147]).
Proof.
  split; [vm_compute; reflexivity|]. split; vm_compute; reflexivity.
Qed.

Lemma Parse_without_query_witness :
  has_byte "?" (B "/a/b") = false
  ∧ UrlParser.Parse (B "/a/b") = {| UrlParser.pathname := B "/a/b";
                                    UrlParser.query := ∅ |}.
Proof.
  split; [reflexivity|]. exact (Parse_without_query (B "/a/b") eq_refl).
Defined.

Lemma escapeStringFast_contract_witness :
  builder_wf FastStringBuilder_new
  ∧ toString (escapeStringFast FastStringBuilder_new (J "a'b\c" ++ ["010"%char; "001"%char]))
    = J "'a\'b\\c\n\u0001'"
  ∧ json_string (J "'a\'b\\c\n\u0001'").
Proof.
  split; [apply Nat.le_0_l|].
  exact (escapeStringFast_contract FastStringBuilder_new
           (J "a'b\c" ++ ["010"%char; "001"%char]) (Nat.le_0_l _)).
Defined.

Lemma safe_integer_plain_digits_witness :
  is_safe_integer (S754_finite true 9007199254740991 0) (-9007199254740991)
  ∧ number_text sample_g15 (S754_finite true 9007199254740991 0)
    = B "-9007199254740991"
  ∧ has_byte "." (B "-9007199254740991") = false.
Proof.
  assert (Hn : is_safe_integer (S754_finite true 9007199254740991 0)
                               (-9007199254740991)).
  { split; [reflexivity | lia]. }
  split; [exact Hn|].
  pose proof (safe_integer_plain_digits sample_g15 _ _ Hn) as (H1 & H2 & _).
  split; [exact H1 | exact H2].
Defined.

(** * Further properties *)

(** ** The hex table *)

Lemma fill_prefix (c : Z) (k : nat) :
  ∀ (pre rest : list Z),
    k ≤ length rest →
    fold_left (λ t i, <[i := c]> t) (seq (length pre) k) (pre ++ rest)
    = pre ++ repeat c k ++ drop k rest.
Proof.
  induction k as [|k IH]; intros pre rest Hk; [reflexivity|].
  destruct rest as [|x rest]; [simpl in Hk; lia|].
  cbn [seq fold_left]. rewrite insert_app_r_alt by lia.
  rewrite Nat.sub_diag. cbn [insert list_insert].
  change (pre ++ c :: rest) with (pre ++ [c] ++ rest). rewrite app_assoc.
  replace (S (length pre)) with (length (pre ++ [c]))
    by (rewrite length_app; simpl; lia).
  rewrite IH by (simpl in Hk; lia). rewrite <- app_assoc. reflexivity.
Qed.

Lemma fill_whole_table (table : list Z) :
  length table = 256 →
  UrlParser.fill 0 255 (λ _, -1)%Z table = repeat (-1)%Z 256.
Proof.
  intros Hlen. unfold UrlParser.fill.
  change (S 255 - 0) with 256.
  pose proof (fill_prefix (-1) 256 [] table ltac:(lia)) as H.
  cbn [length app] in H. rewrite H.
  rewrite drop_ge by lia. apply app_nil_r.
Qed.

(** [initHexTable] writes all 256 entries: what the table held before does
    not matter, and running it again changes nothing.  An entry is the
    value of the hex digit, or -1 for a byte that is no hex digit. *)
Theorem initHexTable_overwrites (table : list Z) (c : ascii) :
  length table = 256 →
  UrlParser.initHexTable table = UrlParser.HEX_TABLE
  ∧ UrlParser.initHexTable (UrlParser.initHexTable table)
    = UrlParser.initHexTable table
  ∧ nth (nat_of_ascii c) (UrlParser.initHexTable table) 0%Z
    = default (-1)%Z (hex_digit_value c).
Proof.
  intros Hlen.
  assert (Hany : ∀ t, length t = 256 → UrlParser.initHexTable t = UrlParser.HEX_TABLE).
  { intros t Ht. unfold UrlParser.HEX_TABLE, UrlParser.initHexTable.
    rewrite (fill_whole_table t Ht).
    rewrite (fill_whole_table UrlParser.HEX_TABLE_static) by reflexivity.
    reflexivity. }
  split; [by apply Hany|]. split.
  - rewrite (Hany table Hlen). apply Hany. reflexivity.
  - rewrite (Hany table Hlen). apply hex_lookup_spec.
Qed.

(** ** The percent decoder, further *)

Lemma percent_decode_lower (s : bytes) :
  length s ≤ 3 * length (percent_decode s).
Proof.
  induction s as [s IH] using (induction_ltof1 _ (@length ascii)).
  unfold ltof in IH. destruct s as [|c rest]; [simpl; lia|].
  cbn [percent_decode].
  pose proof (IH rest ltac:(simpl; lia)) as Hrest.
  destruct (Ascii.eqb c "%").
  - destruct rest as [|h [|l rest']]; [simpl in *; lia..|].
    pose proof (IH rest' ltac:(simpl; lia)) as Hrest'.
    destruct (hex_digit_value h), (hex_digit_value l); simpl in *; lia.
  - destruct (Ascii.eqb c "+"); simpl in *; lia.
Qed.

(** Every byte written uses up one to three bytes read: the output is
    empty only for the empty input. *)
Theorem DecodeURIComponent_length_bounds (encoded : bytes) :
  length (UrlParser.DecodeURIComponent encoded) ≤ length encoded
  ∧ length encoded ≤ 3 * length (UrlParser.DecodeURIComponent encoded)
  ∧ (UrlParser.DecodeURIComponent encoded = [] ↔ encoded = []).
Proof.
  rewrite DecodeURIComponent_percent_decode.
  pose proof (percent_decode_length encoded) as Hup.
  pose proof (percent_decode_lower encoded) as Hlow.
  split; [exact Hup|]. split; [exact Hlow|]. split.
  - intros Hnil. rewrite Hnil in Hlow. simpl in Hlow.
    destruct encoded; [reflexivity | simpl in Hlow; lia].
  - intros ->. reflexivity.
Qed.

(** A string without [%] and [+] decodes to itself. *)
Theorem DecodeURIComponent_plain (encoded : bytes) :
  has_byte "%" encoded = false → has_byte "+" encoded = false →
  UrlParser.DecodeURIComponent encoded = encoded.
Proof.
  rewrite DecodeURIComponent_percent_decode.
  induction encoded as [|c s IH]; [reflexivity|].
  rewrite !has_byte_cons, !orb_false_iff. intros [Hc Hs] [Hc' Hs'].
  cbn [percent_decode]. rewrite Hc, Hc', (IH Hs Hs'). reflexivity.
Qed.

Lemma open_escape_tail (c : ascii) (a : bytes) :
  open_escape (c :: a) = false → open_escape a = false.
Proof.
  destruct a as [|d [|e a]]; [reflexivity | | by intros H].
  cbn [open_escape]. rewrite orb_false_iff. by intros [_ H].
Qed.

Lemma percent_decode_app_closed (a b : bytes) :
  open_escape a = false →
  percent_decode (a ++ b) = percent_decode a ++ percent_decode b.
Proof.
  induction a as [a IH] using (induction_ltof1 _ (@length ascii)).
  unfold ltof in IH. intros Hopen. destruct a as [|c a]; [reflexivity|].
  pose proof (IH a ltac:(simpl; lia) (open_escape_tail c a Hopen)) as IHa.
  cbn [app percent_decode].
  destruct (Ascii.eqb c "%") eqn:Ec.
  - destruct a as [|h [|l a'']].
    + cbn [open_escape] in Hopen. congruence.
    + cbn [open_escape] in Hopen. rewrite Ec in Hopen. discriminate Hopen.
    + cbn [app].
      assert (Ha'' : open_escape a'' = false).
      { apply (open_escape_tail l), (open_escape_tail h), (open_escape_tail c).
        exact Hopen. }
      destruct (hex_digit_value h), (hex_digit_value l); cbn [app]; f_equal;
        try exact IHa; apply IH; [simpl; lia | exact Ha''].
  - destruct (Ascii.eqb c "+"); cbn [app]; f_equal; exact IHa.
Qed.

(** Decoding goes through a concatenation wherever the first part does not
    end inside an escape, and at every byte that is no hex digit. *)
Theorem DecodeURIComponent_app (a b : bytes) :
  (open_escape a = false →
   UrlParser.DecodeURIComponent (a ++ b)
   = UrlParser.DecodeURIComponent a ++ UrlParser.DecodeURIComponent b)
  ∧ (∀ c, hex_digit_value c = None →
       UrlParser.DecodeURIComponent (a ++ c :: b)
       = UrlParser.DecodeURIComponent a ++ UrlParser.DecodeURIComponent (c :: b)).
Proof.
  rewrite !DecodeURIComponent_percent_decode. split.
  - apply percent_decode_app_closed.
  - intros c Hc. rewrite !DecodeURIComponent_percent_decode.
    by apply percent_decode_app.
Qed.


(** ** The query splitter, further *)

Lemma Parse_pathname_index (url : bytes) :
  UrlParser.pathname (UrlParser.Parse url)
  = match index_of "?" url with None => url | Some i => take i url end.
Proof.
  unfold UrlParser.Parse. rewrite memchr_index_of by (simpl; lia).
  assert (Hs : substr url 0 (length url) = url).
  { unfold substr. rewrite drop_0. apply take_ge. lia. }
  rewrite Hs. destruct (index_of "?" url) as [i|]; simpl; [|reflexivity].
  unfold substr. rewrite drop_0. f_equal. lia.
Qed.

Lemma split_on_not_nil (sep : ascii) (s : bytes) : split_on sep s ≠ [].
Proof.
  destruct s as [|c s]; [done|]. cbn [split_on].
  destruct (Ascii.eqb c sep); [done|]. by destruct (split_on sep s).
Qed.

Lemma split_on_app_sep (sep : ascii) (a b : bytes) :
  split_on sep (a ++ sep :: b) = split_on sep a ++ split_on sep b.
Proof.
  induction a as [|c a IH].
  - cbn [app split_on]. rewrite Ascii.eqb_refl. reflexivity.
  - cbn [app split_on]. rewrite IH. destruct (Ascii.eqb c sep); [reflexivity|].
    pose proof (split_on_not_nil sep a) as Hne.
    destruct (split_on sep a) as [|seg segs]; [done | reflexivity].
Qed.

Lemma index_of_split (c : ascii) (s : bytes) :
  ∀ j, index_of c s = Some j →
    s = take j s ++ c :: drop (S j) s ∧ has_byte c (take j s) = false.
Proof.
  induction s as [|x s IH]; intros j Hj; [discriminate Hj|].
  cbn [index_of] in Hj. destruct (Ascii.eqb x c) eqn:Ex.
  - injection Hj as <-. apply Ascii.eqb_eq in Ex as ->.
    split; [cbn [take drop app]; by rewrite drop_0 | reflexivity].
  - destruct (index_of c s) as [j'|] eqn:Ej; [|discriminate Hj].
    injection Hj as <-. destruct (IH j' eq_refl) as [Hs Hno].
    cbn [take drop app]. rewrite has_byte_cons, Ex, Hno. split; [|reflexivity].
    f_equal. exact Hs.
Qed.

Lemma index_of_app_Some (c : ascii) (s t : bytes) (j : nat) :
  index_of c s = Some j → index_of c (s ++ t) = Some j.
Proof.
  revert j. induction s as [|x s IH]; intros j Hj; [discriminate Hj|].
  cbn [app index_of] in *. destruct (Ascii.eqb x c); [exact Hj|].
  destruct (index_of c s) as [j'|]; [|discriminate Hj].
  by rewrite (IH j' eq_refl).
Qed.

Lemma has_byte_true_index (c : ascii) (s : bytes) :
  has_byte c s = true → ∃ j, index_of c s = Some j.
Proof. unfold has_byte. destruct (index_of c s) as [j|]; [by exists j | done]. Qed.

Lemma segment_entry_origin (seg k v : bytes) :
  segment_entry seg = Some (k, v) →
  ∃ rk rv, seg = rk ++ "="%char :: rv ∧ rk ≠ [] ∧ has_byte "=" rk = false
           ∧ k = percent_decode rk ∧ v = percent_decode rv.
Proof.
  unfold segment_entry. destruct (index_of "=" seg) as [[|e]|] eqn:Ei; [done| |done].
  intros [= <- <-]. destruct (index_of_split _ _ _ Ei) as [Hseg Hno].
  exists (take (S e) seg), (drop (S (S e)) seg).
  split; [exact Hseg|]. split; [|by split].
  apply index_of_lt in Ei. destruct seg; [simpl in Ei; lia | done].
Qed.

Lemma contributions_origin (q k v : bytes) :
  assign_all (contributions q) ∅ !! k = Some v →
  ∃ rk rv, (rk ++ "="%char :: rv) ∈ split_on "&" q
           ∧ rk ≠ [] ∧ has_byte "=" rk = false
           ∧ k = percent_decode rk ∧ v = percent_decode rv.
Proof.
  rewrite assign_all_lookup, lookup_empty.
  destruct (last_value k (contributions q)) as [w|] eqn:El; [|done].
  intros [= ->]. apply last_value_elem in El. unfold contributions in El.
  apply list_elem_of_omap in El as (seg & Hin & Hseg).
  destruct (segment_entry_origin _ _ _ Hseg) as (rk & rv & -> & Hrest).
  by exists rk, rv.
Qed.

Lemma percent_decode_not_nil (s : bytes) : s ≠ [] → percent_decode s ≠ [].
Proof.
  intros Hs Hd. pose proof (percent_decode_lower s) as Hl.
  rewrite Hd in Hl. destruct s; [done | simpl in Hl; lia].
Qed.

(** Every entry of the query mapping comes from a segment of the text
    after the first [?]: the segment is a raw key that is not empty and
    holds no [=], then [=], then a raw value, and the entry is the decoded
    key mapped to the decoded value.  No key of the mapping is empty. *)
Theorem Parse_query_entries_origin (url k v : bytes) :
  UrlParser.query (UrlParser.Parse url) !! k = Some v →
  k ≠ []
  ∧ ∃ i rk rv,
      index_of "?" url = Some i
      ∧ (rk ++ "="%char :: rv) ∈ split_on "&" (drop (S i) url)
      ∧ rk ≠ [] ∧ has_byte "=" rk = false
      ∧ k = UrlParser.DecodeURIComponent rk
      ∧ v = UrlParser.DecodeURIComponent rv.
Proof.
  rewrite Parse_query_contributions.
  destruct (index_of "?" url) as [i|]; [|by rewrite lookup_empty].
  intros Hkv. apply contributions_origin in Hkv
    as (rk & rv & Hin & Hrk & Heq & -> & ->).
  split; [by apply percent_decode_not_nil|].
  exists i, rk, rv. by rewrite !DecodeURIComponent_percent_decode.
Qed.

Lemma assign_all_snoc (l l' : list (bytes * bytes)) (m : gmap bytes bytes) :
  assign_all (l ++ l') m = assign_all l' (assign_all l m).
Proof. apply fold_left_app. Qed.

Lemma contributions_app_segment (q seg : bytes) :
  has_byte "&" seg = false →
  ∀ m, assign_all (contributions (q ++ "&"%char :: seg)) m
       = assign_entry (segment_entry seg) (assign_all (contributions q) m).
Proof.
  intros Hseg m. unfold contributions.
  rewrite split_on_app_sep, omap_app, assign_all_snoc.
  rewrite (split_on_index_None _ seg) by (by apply has_byte_false_index).
  cbn [omap list_omap]. by destruct (segment_entry seg) as [[k v]|].
Qed.

(** A segment appended to a URL that has a query is one more assignment on
    the mapping of the URL before: the new segment overrides an equal key
    and leaves every other entry as it was. *)
Theorem Parse_append_segment (url seg : bytes) :
  has_byte "?" url = true → has_byte "&" seg = false →
  UrlParser.pathname (UrlParser.Parse (url ++ "&"%char :: seg))
  = UrlParser.pathname (UrlParser.Parse url)
  ∧ UrlParser.query (UrlParser.Parse (url ++ "&"%char :: seg))
    = assign_entry (segment_entry seg) (UrlParser.query (UrlParser.Parse url))
  ∧ ∀ rk rv, seg = rk ++ "="%char :: rv → rk ≠ [] → has_byte "=" rk = false →
      UrlParser.query (UrlParser.Parse (url ++ "&"%char :: seg))
      = <[UrlParser.DecodeURIComponent rk := UrlParser.DecodeURIComponent rv]>
          (UrlParser.query (UrlParser.Parse url)).
Proof.
  intros Hq Hseg. apply has_byte_true_index in Hq as [i Hi].
  pose proof (index_of_lt _ _ _ Hi) as Hlt.
  assert (Hquery :
    UrlParser.query (UrlParser.Parse (url ++ "&"%char :: seg))
    = assign_entry (segment_entry seg) (UrlParser.query (UrlParser.Parse url))).
  { rewrite !Parse_query_contributions.
    rewrite (index_of_app_Some _ _ ("&"%char :: seg) _ Hi), Hi.
    rewrite drop_app_le by lia. by apply contributions_app_segment. }
  split; [|split].
  - rewrite !Parse_pathname_index.
    rewrite (index_of_app_Some _ _ ("&"%char :: seg) _ Hi), Hi.
    rewrite take_app_le by lia. reflexivity.
  - exact Hquery.
  - intros rk rv -> Hrk Heq. rewrite Hquery.
    rewrite segment_entry_key_value; [|by destruct rk|exact Heq].
    by rewrite !DecodeURIComponent_percent_decode.
Qed.

Lemma has_byte_take_drop (c : ascii) (s : bytes) (j : nat) :
  has_byte c s = false →
  has_byte c (take j s) = false ∧ has_byte c (drop j s) = false.
Proof.
  intros Hs. rewrite <- (take_drop j s), has_byte_app in Hs.
  by apply orb_false_iff in Hs.
Qed.

Lemma contributions_without_equals (q : bytes) :
  has_byte "=" q = false → contributions q = [].
Proof.
  unfold contributions.
  induction q as [q IH] using (induction_ltof1 _ (@length ascii)).
  unfold ltof in IH. intros Hq.
  destruct (index_of "&" q) as [j|] eqn:Ej.
  - rewrite (split_on_index_Some _ _ _ Ej). cbn [omap list_omap].
    unfold segment_entry at 1.
    rewrite (has_byte_false_index _ _ (proj1 (has_byte_take_drop _ _ j Hq))).
    apply IH; [|apply (has_byte_take_drop _ _ (S j) Hq)].
    apply index_of_lt in Ej. rewrite length_drop. lia.
  - rewrite (split_on_index_None _ _ Ej). cbn [omap list_omap].
    unfold segment_entry. by rewrite (has_byte_false_index _ _ Hq).
Qed.

(** Segments without [=] are dropped: a string in which no [=] occurs
    gives the empty mapping, as a query string and as a URL. *)
Theorem query_without_equals_empty (host : Host) (s : bytes) :
  has_byte "=" s = false →
  ParseQuery host [VString s] = Returned (RObject ∅)
  ∧ ParseUrl host [VString s]
    = Returned (RUrl (String_New host (UrlParser.pathname (UrlParser.Parse s))) ∅).
Proof.
  intros Hs. split.
  - rewrite ParseQuery_contributions, contributions_without_equals; [reflexivity|].
    destruct s as [|c s]; [reflexivity|]. cbn [skip_question].
    destruct (Ascii.eqb c "?"); [|exact Hs].
    rewrite has_byte_cons in Hs. apply orb_false_iff in Hs as [_ Hs]. exact Hs.
  - rewrite ParseUrl_string, Parse_query_contributions.
    assert (Hnone : set_all host (iteration host ∅) ∅ = ∅).
    { pose proof (iteration_each_once host ∅) as Hperm.
      rewrite map_to_list_empty in Hperm. apply Permutation_nil_r in Hperm.
      by rewrite Hperm. }
    destruct (index_of "?" s) as [i|]; cbv beta iota; [|by rewrite Hnone].
    rewrite contributions_without_equals;
      [cbn [assign_all fold_left]; by rewrite Hnone|].
    by apply has_byte_take_drop.
Qed.

(** For [path?rest] whose keys and values reach the object as they are (no
    zero byte in a decoded key, no key [__proto__], text the host reads as
    it is written), the query [parseUrl] returns is what [parseQuery]
    returns for [?rest], and for [rest] when it does not itself begin with
    [?]: the mapping of the contributions of [rest], whatever the order in
    which the map is visited.  The pathname is [path]. *)
Theorem ParseUrl_query_is_ParseQuery (host : Host) (path rest : bytes) :
  has_byte "?" path = false →
  Forall (taken_as_is host) (contributions rest) →
  ∃ m, ParseUrl host [VString (path ++ "?"%char :: rest)]
       = Returned (RUrl (String_New host path) m)
       ∧ ParseQuery host [VString ("?"%char :: rest)] = Returned (RObject m)
       ∧ ((∀ rest', rest ≠ "?"%char :: rest') →
          ParseQuery host [VString rest] = Returned (RObject m))
       ∧ m = assign_all (contributions rest) ∅.
Proof.
  intros Hpath Hclean. exists (assign_all (contributions rest) ∅).
  split; [|split; [|split; [|reflexivity]]].
  - rewrite ParseUrl_string, Parse_query_contributions, Parse_pathname_index.
    rewrite (index_of_app_sep _ _ _ Hpath), drop_app_sep, take_app_length.
    rewrite ParseUrl_query_as_is; [reflexivity|].
    intros k v Hkv. rewrite assign_all_lookup, lookup_empty in Hkv.
    destruct (last_value k (contributions rest)) as [w|] eqn:Ew; [|discriminate Hkv].
    injection Hkv as ->. apply last_value_elem in Ew.
    by apply (proj1 (Forall_forall _ _) Hclean).
  - rewrite (ParseQuery_contributions host ("?"%char :: rest)).
    cbn [skip_question Ascii.eqb Bool.eqb]. by rewrite (set_all_as_is host _ Hclean).
  - intros Hrest. rewrite ParseQuery_contributions.
    assert (Hskip : skip_question rest = rest).
    { destruct rest as [|c rest']; [reflexivity|]. cbn [skip_question].
      destruct (Ascii.eqb c "?") eqn:Ec; [|reflexivity].
      apply Ascii.eqb_eq in Ec as ->. by destruct (Hrest rest'). }
    rewrite Hskip. by rewrite (set_all_as_is host _ Hclean).
Qed.

(** ** The serializer against the text of a value *)

Lemma map_nth_seq_all {A : Type} (d : A) (l : list A) :
  map (λ i, nth i l d) (seq 0 (length l)) = l.
Proof.
  induction l as [|x l IH]; [reflexivity|].
  cbn [length seq map nth]. f_equal.
  rewrite <- seq_shift, map_map. exact IH.
Qed.

Lemma array_loop_refines (recurse : FastStringBuilder → Value → Z → option FastStringBuilder)
    (rend : Value → Z → option bytes) (arr : JsObject) (depth : Z) :
  refines recurse rend →
  ∀ n i sb,
    builder_wf sb →
    match mapM (λ e, rend e (depth + 1)%Z) (map (GetIndex arr) (seq i n)) with
    | Some items =>
      ∃ sb', array_loop recurse arr depth n i sb = Some sb' ∧ builder_wf sb'
             ∧ toString sb' = toString sb ++ comma_separated (0 <? i) items
    | None => array_loop recurse arr depth n i sb = None
    end.
Proof.
  intros Hrec. induction n as [|n IH]; intros i sb Hwf.
  - cbn. exists sb. by rewrite app_nil_r.
  - cbn [seq map mapM array_loop].
    set (sb1 := if 0 <? i then append_char sb "," else sb).
    assert (H1 : toString sb1 = toString sb ++ (if 0 <? i then [","%char] else [])
                 ∧ builder_wf sb1).
    { subst sb1. destruct (0 <? i).
      - by apply append_char_toString.
      - by rewrite app_nil_r. }
    destruct H1 as [Hts1 Hwf1].
    pose proof (Hrec sb1 (GetIndex arr i) (depth + 1)%Z Hwf1) as Hstep.
    destruct (rend (GetIndex arr i) (depth + 1)%Z) as [out|];
      cbn [mbind option_bind mret option_ret].
    + destruct Hstep as (sb2 & -> & Hwf2 & Hts2). cbn [mbind option_bind].
      pose proof (IH (S i) sb2 Hwf2) as Hnext.
      destruct (mapM _ (map (GetIndex arr) (seq (S i) n))) as [items|];
        cbn [mbind option_bind].
      * destruct Hnext as (sb' & -> & Hwf' & Hts'). exists sb'.
        split; [reflexivity|]. split; [exact Hwf'|].
        rewrite Hts', Hts2, Hts1. cbn [comma_separated Nat.ltb Nat.leb].
        by rewrite <- !app_assoc.
      * exact Hnext.
    + by rewrite Hstep.
Qed.

Lemma object_loop_refines (recurse : FastStringBuilder → Value → Z → option FastStringBuilder)
    (rend : Value → Z → option bytes) (obj : JsObject) (keys : list bytes)
    (depth : Z) :
  refines recurse rend →
  ∀ n i first sb,
    builder_wf sb →
    match mapM (λ key, out ← rend (Get obj key) (depth + 1)%Z;
                       Some (member_text key out))
               (List.filter (λ key, negb (IsUndefined (Get obj key)))
                            (map (λ j, nth j keys []) (seq i n))) with
    | Some members =>
      ∃ sb', object_loop recurse obj keys depth n i first sb = Some sb'
             ∧ builder_wf sb'
             ∧ toString sb' = toString sb ++ comma_separated (negb first) members
    | None => object_loop recurse obj keys depth n i first sb = None
    end.
Proof.
  intros Hrec. induction n as [|n IH]; intros i first sb Hwf.
  - cbn. exists sb. by rewrite app_nil_r.
  - cbn [seq map List.filter object_loop].
    destruct (IsUndefined (Get obj (nth i keys []))); cbn [negb];
      [by apply IH|].
    cbn [mapM].
    set (sb1 := if negb first then append_char sb "," else sb).
    assert (H1 : toString sb1 = toString sb ++ (if negb first then [","%char] else [])
                 ∧ builder_wf sb1).
    { subst sb1. destruct first; cbn [negb].
      - by rewrite app_nil_r.
      - by apply append_char_toString. }
    destruct H1 as [Hts1 Hwf1].
    destruct (escapeStringFast_spec sb1 (nth i keys []) Hwf1) as [Hts2 Hwf2].
    destruct (append_char_toString _ ":" Hwf2) as [Hts3 Hwf3].
    pose proof (Hrec _ (Get obj (nth i keys [])) (depth + 1)%Z Hwf3) as Hstep.
    destruct (rend (Get obj (nth i keys [])) (depth + 1)%Z) as [out|];
      cbn [mbind option_bind mret option_ret].
    + destruct Hstep as (sb4 & -> & Hwf4 & Hts4). cbn [mbind option_bind].
      pose proof (IH (S i) false sb4 Hwf4) as Hnext.
      destruct (mapM _ (List.filter _ (map _ (seq (S i) n)))) as [members|];
        cbn [mbind option_bind].
      * destruct Hnext as (sb' & -> & Hwf' & Hts'). exists sb'.
        split; [reflexivity|]. split; [exact Hwf'|].
        rewrite Hts', Hts4, Hts3, Hts2, Hts1.
        cbn [comma_separated negb]. unfold member_text.
        rewrite <- !app_assoc. cbn [app]. by rewrite <- !app_assoc.
      * exact Hnext.
    + by rewrite Hstep.
Qed.

Lemma stringifyValueFast_render (g : double → g_format) (fuel : nat) (h : Heap) :
  refines (stringifyValueFast g fuel h) (render g fuel h).
Proof.
  induction fuel as [|fuel IH]; intros sb v depth Hwf; [reflexivity|].
  assert (Hnull : ∃ sb', Some (append_n sb (B "null") 4) = Some sb'
                         ∧ builder_wf sb'
                         ∧ toString sb' = toString sb ++ B "null").
  { eexists. split; [reflexivity|].
    destruct (append_n_toString sb (B "null") 4 Hwf (le_n _)) as [Hts Hwf'].
    by split. }
  destruct v as [| |b|d|s|l|]; try exact Hnull.
  - (* boolean *)
    cbn [render stringifyValueFast IsNull IsUndefined IsBoolean BooleanValue orb].
    destruct b; eexists; (split; [reflexivity|]).
    + destruct (append_n_toString sb (B "true") 4 Hwf (le_n _)) as [Hts Hwf'].
      by split.
    + destruct (append_n_toString sb (B "false") 5 Hwf (le_n _)) as [Hts Hwf'].
      by split.
  - (* number *)
    cbn [render stringifyValueFast IsNull IsUndefined IsBoolean IsNumber
         DoubleValue orb].
    unfold number_text. destruct (isnan d || isinf d); [exact Hnull|].
    destruct (_ && _ && _); eexists; (split; [reflexivity|]);
      unfold appendInt, appendDouble.
    + destruct (toString_append_n_whole sb (snprintf_ld (static_cast_int64 d)) Hwf)
        as [Hts Hwf']. by split.
    + destruct (toString_append_n_whole sb (g_render (g d)) Hwf) as [Hts Hwf'].
      by split.
  - (* string *)
    cbn [render stringifyValueFast IsNull IsUndefined IsBoolean IsNumber IsString
         Utf8Value orb].
    eexists. split; [reflexivity|].
    destruct (escapeStringFast_spec sb s Hwf) as [Hts Hwf']. by split.
  - (* object, array, function *)
    rewrite stringifyValueFast_ref. cbn [render].
    destruct (obj_is_array (h l)).
    { unfold stringifyArrayFast. destruct (10 <? depth)%Z; [exact Hnull|].
      destruct (append_char_toString sb "[" Hwf) as [Hts0 Hwf0].
      pose proof (array_loop_refines _ _ (h l) depth IH (Length (h l)) 0 _ Hwf0)
        as Hloop.
      unfold GetIndex, Length in Hloop. rewrite map_nth_seq_all in Hloop.
      destruct (mapM _ (obj_elems (h l))) as [items|]; cbn [mbind option_bind].
      - destruct Hloop as (sb1 & Hrun & Hwf1 & Hts1).
        unfold Length. rewrite Hrun. cbn [mbind option_bind].
        destruct (append_char_toString sb1 "]" Hwf1) as [Hts2 Hwf2].
        eexists. split; [reflexivity|]. split; [exact Hwf2|].
        rewrite Hts2, Hts1, Hts0. unfold join_comma.
        cbn [Nat.ltb Nat.leb]. by rewrite <- !app_assoc.
      - unfold Length. by rewrite Hloop. }
    destruct (obj_is_object (h l)); [|exact Hnull].
    destruct (Has (h l) (B "toJSON") && IsFunction h (Get (h l) (B "toJSON"))).
    { by apply IH. }
    unfold stringifyObjectFast. destruct (10 <? depth)%Z; [exact Hnull|].
    destruct (append_char_toString sb "{" Hwf) as [Hts0 Hwf0].
    pose proof (object_loop_refines _ _ (h l) (obj_keys (h l)) depth IH
                  (length (obj_keys (h l))) 0 true _ Hwf0) as Hloop.
    rewrite map_nth_seq_all in Hloop.
    destruct (mapM _ (List.filter _ (obj_keys (h l)))) as [members|];
      cbn [mbind option_bind].
    + destruct Hloop as (sb1 & -> & Hwf1 & Hts1). cbn [mbind option_bind].
      destruct (append_char_toString sb1 "}" Hwf1) as [Hts2 Hwf2].
      eexists. split; [reflexivity|]. split; [exact Hwf2|].
      rewrite Hts2, Hts1, Hts0. unfold join_comma. cbn [negb].
      by rewrite <- !app_assoc.
    + by rewrite Hloop.
Qed.

Lemma toString_new : toString FastStringBuilder_new = [].
Proof. reflexivity. Qed.

Lemma Stringify_render (g : double → g_format) (fuel : nat) (h : Heap) (v : Value) :
  Stringify g fuel h v = render g fuel h v 0%Z.
Proof.
  unfold Stringify.
  pose proof (stringifyValueFast_render g fuel h FastStringBuilder_new v 0%Z
                builder_wf_new) as Hrun.
  destruct (render g fuel h v 0%Z) as [out|].
  - destruct Hrun as (sb' & -> & _ & Hts). cbn [mbind option_bind].
    by rewrite Hts, toString_new.
  - by rewrite Hrun.
Qed.

(** What [stringify] returns is the text of its argument, a function of
    the value and the heap alone: the elements of an array in order with
    [null] for an undefined one, the members of an object in key order
    without the undefined ones and with no comma left over, and what is in
    the buffer before a value does not change what is appended for it.
    Where the value has no text within the stack, the call ends in the
    host's [RangeError]. *)
Theorem FastStringify_is_render (host : Host) (g : double → g_format)
    (fuel : nat) (h : Heap) (v : Value) (rest : list Value) :
  FastStringify g host fuel h (v :: rest)
  = match render g fuel h v 0%Z with
    | Some out => Returned (RString (String_New host out))
    | None => Threw (RangeError (B "Maximum call stack size exceeded"))
    end
  ∧ ∀ sb depth,
      builder_wf sb →
      toString <$> stringifyValueFast g fuel h sb v depth
      = (λ out, toString sb ++ out) <$> render g fuel h v depth.
Proof.
  split.
  - unfold FastStringify. cbn [length Nat.ltb Nat.leb info_at nth].
    by rewrite Stringify_render.
  - intros sb depth Hwf.
    pose proof (stringifyValueFast_render g fuel h sb v depth Hwf) as Hrun.
    destruct (render g fuel h v depth) as [out|].
    + destruct Hrun as (sb' & -> & _ & Hts). cbn. by rewrite Hts.
    + by rewrite Hrun.
Qed.


(** ** No control character is written *)

Lemma no_control_app (a b : bytes) :
  no_control (a ++ b) = no_control a && no_control b.
Proof. apply forallb_app. Qed.

Lemma no_control_digits (s : bytes) :
  forallb is_digit s = true → no_control s = true.
Proof.
  induction s as [|c s IH]; [reflexivity|]. cbn [forallb no_control].
  rewrite !andb_true_iff. intros [Hc Hs]. split; [|by apply IH].
  unfold is_digit in Hc. unfold is_control.
  apply andb_true_iff in Hc as [Hc _]. apply Z.leb_le in Hc.
  change (code "0") with 48%Z in Hc.
  apply negb_true_iff, Z.ltb_ge. lia.
Qed.

Lemma no_control_decimal (n : N) : no_control (decimal n) = true.
Proof. apply no_control_digits, decimal_digits. Qed.

Lemma no_control_snprintf_ld (v : Z) : no_control (snprintf_ld v) = true.
Proof.
  unfold snprintf_ld. destruct (v <? 0)%Z; [cbn [no_control forallb]|];
    apply no_control_decimal.
Qed.

Lemma no_control_g_render (g : g_format) : no_control (g_render g) = true.
Proof.
  unfold g_render. rewrite !no_control_app, no_control_decimal.
  assert (Hfrac : no_control match g_fraction g with
                             | [] => []
                             | ds => "."%char :: map digit_char ds
                             end = true).
  { assert (Hds : ∀ ds, no_control (map digit_char ds) = true).
    { intros ds. apply no_control_digits. induction ds as [|d ds IH]; [reflexivity|].
      cbn [map forallb]. by rewrite is_digit_digit_char, IH. }
    destruct (g_fraction g) as [|d ds]; [reflexivity|].
    change (no_control ("."%char :: map digit_char (d :: ds)))
      with (no_control (map digit_char (d :: ds))). apply Hds. }
  rewrite Hfrac.
  destruct (g_negative g); destruct (g_exponent g) as [[neg e]|]; try reflexivity;
    destruct neg; destruct (e <? 10)%N; cbn [app];
    repeat (change (no_control (?c :: ?s)) with (negb (is_control c) && no_control s));
    cbn [is_control]; rewrite ?no_control_decimal; reflexivity.
Qed.

Lemma no_control_number_text (g : double → g_format) (d : double) :
  no_control (number_text g d) = true.
Proof.
  unfold number_text. destruct (isnan d || isinf d); [reflexivity|].
  destruct (_ && _ && _); [apply no_control_snprintf_ld | apply no_control_g_render].
Qed.

Lemma escape_printable_checked (c : ascii) : escape_printable_ok c = true.
Proof.
  destruct c as [[] [] [] [] [] [] [] []]; vm_compute; reflexivity.
Qed.

Lemma no_control_escape_bytes (s : bytes) : no_control (escape_bytes s) = true.
Proof.
  unfold escape_bytes. induction s as [|c s IH]; [reflexivity|].
  cbn [map concat]. rewrite no_control_app, IH, andb_true_r.
  apply escape_printable_checked.
Qed.

Lemma no_control_quoted (s : bytes) :
  no_control (dq :: escape_bytes s ++ [dq]) = true.
Proof.
  change (dq :: escape_bytes s ++ [dq]) with ([dq] ++ escape_bytes s ++ [dq]).
  by rewrite !no_control_app, no_control_escape_bytes.
Qed.

Lemma no_control_comma_separated (lead : bool) (items : list bytes) :
  Forall (λ x, no_control x = true) items →
  no_control (comma_separated lead items) = true.
Proof.
  intros Hitems. revert lead. induction Hitems as [|x items Hx _ IH]; intros lead;
    [reflexivity|].
  cbn [comma_separated]. rewrite !no_control_app, Hx, IH. by destruct lead.
Qed.

Lemma no_control_bracketed (open close : ascii) (items : list bytes) :
  is_control open = false → is_control close = false →
  Forall (λ x, no_control x = true) items →
  no_control (open :: join_comma items ++ [close]) = true.
Proof.
  intros Ho Hc Hitems.
  change (open :: join_comma items ++ [close])
    with ([open] ++ join_comma items ++ [close]).
  rewrite !no_control_app. unfold join_comma.
  rewrite (no_control_comma_separated _ _ Hitems).
  cbn [no_control forallb]. by rewrite Ho, Hc.
Qed.

Lemma render_no_control (g : double → g_format) (fuel : nat) (h : Heap) :
  ∀ v depth out, render g fuel h v depth = Some out → no_control out = true.
Proof.
  induction fuel as [|fuel IH]; intros v depth out Hrun; [discriminate Hrun|].
  cbn [render] in Hrun.
  destruct v as [| |b|d|s|l|]; try (by injection Hrun as <-).
  - injection Hrun as <-. by destruct b.
  - injection Hrun as <-. apply no_control_number_text.
  - injection Hrun as <-. apply no_control_quoted.
  - destruct (obj_is_array (h l)).
    { destruct (10 <? depth)%Z; [by injection Hrun as <-|].
      destruct (mapM _ (obj_elems (h l))) as [items|] eqn:Eitems;
        cbn [mbind option_bind] in Hrun; [|discriminate Hrun].
      injection Hrun as <-. apply no_control_bracketed; [reflexivity..|].
      apply mapM_Some in Eitems.
      induction Eitems as [|e item es items He _ IHes]; constructor; [|exact IHes].
      by apply (IH e (depth + 1)%Z). }
    destruct (obj_is_object (h l)); [|by injection Hrun as <-].
    destruct (Has (h l) (B "toJSON") && IsFunction h (Get (h l) (B "toJSON")));
      [by apply (IH _ _ _ Hrun)|].
    destruct (10 <? depth)%Z; [by injection Hrun as <-|].
    destruct (mapM _ (List.filter _ (obj_keys (h l)))) as [members|] eqn:Emembers;
      cbn [mbind option_bind] in Hrun; [|discriminate Hrun].
    injection Hrun as <-. apply no_control_bracketed; [reflexivity..|].
    apply mapM_Some in Emembers.
    induction Emembers as [|key member ks members Hm _ IHms]; constructor;
      [|exact IHms].
    destruct (render g fuel h (Get (h l) key) (depth + 1)%Z) as [out|] eqn:Eout;
      cbn [mbind option_bind] in Hm; [|discriminate Hm].
    injection Hm as <-. unfold member_text.
    change (dq :: escape_bytes key ++ dq :: ":"%char :: out)
      with ([dq] ++ escape_bytes key ++ [dq; ":"%char] ++ out).
    rewrite !no_control_app, no_control_escape_bytes, (IH _ _ _ Eout). reflexivity.
Qed.

(** The text [stringify] returns holds no byte below 0x20: no raw line
    break and no raw tab, whatever the strings and keys of the value hold;
    it is one line. *)
Theorem Stringify_single_line (g : double → g_format) (fuel : nat) (h : Heap)
    (v : Value) (out : bytes) :
  Stringify g fuel h v = Some out →
  no_control out = true
  ∧ has_byte "010" out = false ∧ has_byte "013" out = false.
Proof.
  rewrite Stringify_render. intros Hrun.
  pose proof (render_no_control g fuel h v 0%Z out Hrun) as Hprint.
  split; [exact Hprint|].
  clear Hrun. induction out as [|c out IH]; [by split|].
  cbn [no_control forallb] in Hprint. apply andb_true_iff in Hprint as [Hc Hout].
  destruct (IH Hout) as [Hlf Hcr]. rewrite !has_byte_cons, Hlf, Hcr.
  split.
  - destruct (Ascii.eqb_spec c "010") as [->|]; [discriminate Hc | reflexivity].
  - destruct (Ascii.eqb_spec c "013") as [->|]; [discriminate Hc | reflexivity].
Qed.


(** ** The string emitter loses nothing *)

Lemma unescape_shape_checked (c : ascii) : unescape_shape_ok c = true.
Proof.
  destruct c as [[] [] [] [] [] [] [] []]; vm_compute; reflexivity.
Qed.

Lemma json_unescape_escape_byte (c : ascii) (rest : bytes) :
  json_unescape (escape_byte c ++ rest) = cons c <$> json_unescape rest.
Proof.
  pose proof (unescape_shape_checked c) as H. unfold unescape_shape_ok in H.
  destruct (escape_byte c) as [|x [|e [|h1 [|h2 [|h3 [|h4 [|]]]]]]];
    try discriminate H.
  - apply andb_true_iff in H as [H _].
    apply andb_true_iff in H as [H Hbs]. apply andb_true_iff in H as [Hx Hplain].
    apply Ascii.eqb_eq in Hx as ->. apply negb_true_iff in Hbs.
    cbn [app json_unescape]. rewrite Hbs, Hplain.
    by destruct (json_unescape rest).
  - apply andb_true_iff in H as [H Hb]. apply andb_true_iff in H as [Hbs Hu].
    apply Ascii.eqb_eq in Hbs as ->. apply negb_true_iff in Hu.
    cbn [app json_unescape]. rewrite Ascii.eqb_refl, Hu.
    destruct (unescape_letter e) as [b|]; [|discriminate Hb].
    apply Ascii.eqb_eq in Hb as ->. cbn [mbind option_bind].
    by destruct (json_unescape rest).
  - apply andb_true_iff in H as [H Hb]. apply andb_true_iff in H as [Hbs Hu].
    apply Ascii.eqb_eq in Hbs as ->. apply Ascii.eqb_eq in Hu as ->.
    cbn [app json_unescape]. rewrite !Ascii.eqb_refl.
    destruct (hex_digit_value h1) as [d1|]; [|discriminate Hb].
    destruct (hex_digit_value h2) as [d2|]; [|discriminate Hb].
    destruct (hex_digit_value h3) as [d3|]; [|discriminate Hb].
    destruct (hex_digit_value h4) as [d4|]; [|discriminate Hb].
    destruct (utf8_encode _) as [|b [|]]; try discriminate Hb.
    apply Ascii.eqb_eq in Hb as ->. by destruct (json_unescape rest).
Qed.

Lemma json_unescape_escape_bytes (s : bytes) :
  json_unescape (escape_bytes s) = Some s.
Proof.
  unfold escape_bytes. induction s as [|c s IH]; [reflexivity|].
  cbn [map concat]. by rewrite json_unescape_escape_byte, IH.
Qed.

(** What the string emitter appends for a string is a quote, a content
    that reads back (by the rules of RFC 8259) as the bytes of the string,
    and a quote; so two strings are written alike only if they are the
    same string. *)
Theorem escapeStringFast_lossless (sb : FastStringBuilder) (str : bytes) :
  builder_wf sb →
  (∃ body, toString (escapeStringFast sb str) = toString sb ++ dq :: body ++ [dq]
           ∧ json_unescape body = Some str)
  ∧ ∀ str', toString (escapeStringFast sb str') = toString (escapeStringFast sb str)
            → str' = str.
Proof.
  intros Hwf. destruct (escapeStringFast_spec sb str Hwf) as [Hts _]. split.
  - exists (escape_bytes str). split; [exact Hts | apply json_unescape_escape_bytes].
  - intros str' Heq. destruct (escapeStringFast_spec sb str' Hwf) as [Hts' _].
    rewrite Hts, Hts' in Heq. apply app_inv_head in Heq.
    injection Heq as Heq. apply app_inv_tail in Heq.
    pose proof (json_unescape_escape_bytes str') as Hback.
    rewrite Heq, json_unescape_escape_bytes in Hback. by injection Hback.
Qed.

Lemma escape_byte_size (c : ascii) :
  1 ≤ length (escape_byte c) ≤ 6
  ∧ (needs_escape c = false → escape_byte c = [c])
  ∧ (needs_escape c = true → 2 ≤ length (escape_byte c)).
Proof.
  split; [|split].
  - pose proof (unescape_shape_checked c) as H. unfold unescape_shape_ok in H.
    destruct (escape_byte c) as [|x [|e [|h1 [|h2 [|h3 [|h4 [|]]]]]]];
      try discriminate H; simpl; lia.
  - unfold escape_byte. by intros ->.
  - intros Hc. pose proof (unescape_shape_checked c) as H.
    unfold unescape_shape_ok in H.
    destruct (escape_byte c) as [|x [|e l]]; [discriminate H| |simpl; lia].
    rewrite Hc, andb_false_r in H. discriminate H.
Qed.

(** The string emitter appends between [n + 2] and [6 n + 2] bytes for a
    string of [n] bytes, and exactly [n + 2], the string between quotes,
    when no byte of it is below 0x20, a quote or a backslash; with such a
    byte it appends more. *)
Theorem escapeStringFast_size (sb : FastStringBuilder) (str : bytes) :
  builder_wf sb →
  let written := length (toString (escapeStringFast sb str)) - length (toString sb) in
  length str + 2 ≤ written ≤ 6 * length str + 2
  ∧ (existsb needs_escape str = false →
     toString (escapeStringFast sb str) = toString sb ++ dq :: str ++ [dq])
  ∧ (existsb needs_escape str = true → length str + 2 < written).
Proof.
  intros Hwf written. subst written.
  destruct (escapeStringFast_spec sb str Hwf) as [-> _].
  rewrite length_app. cbn [length]. rewrite length_app. cbn [length].
  replace (length (toString sb) + S (length (escape_bytes str) + 1)
           - length (toString sb)) with (length (escape_bytes str) + 2) by lia.
  unfold escape_bytes.
  assert (H : length str ≤ length (concat (map escape_byte str)) ≤ 6 * length str
              ∧ (existsb needs_escape str = false
                 → concat (map escape_byte str) = str)
              ∧ (existsb needs_escape str = true
                 → length str < length (concat (map escape_byte str)))).
  { induction str as [|c str IH]; [by split; [simpl; lia|]|].
    destruct IH as (Hlen & Hplain & Hmore).
    destruct (escape_byte_size c) as (Hc & Hcp & Hcm).
    cbn [map concat existsb length]. rewrite length_app. split; [lia|]. split.
    - intros Hno. apply orb_false_iff in Hno as [Hc0 Hno].
      by rewrite (Hcp Hc0), (Hplain Hno).
    - destruct (needs_escape c).
      + intros _. specialize (Hcm eq_refl). lia.
      + cbn [orb]. intros Hstr. specialize (Hmore Hstr). lia. }
  destruct H as (Hlen & Hplain & Hmore). split; [lia|]. split.
  - intros Hno. by rewrite (Hplain Hno).
  - intros Hyes. specialize (Hmore Hyes). lia.
Qed.


(** ** Safe integers read back *)

Lemma digit_char_value (n : N) : (N_of_ascii (digit_char n) - 48 = n mod 10)%N.
Proof.
  unfold digit_char. pose proof (N.mod_lt n 10 ltac:(discriminate)) as Hlt.
  set (m := (n mod 10)%N) in *.
  rewrite N_ascii_embedding; lia.
Qed.

Lemma read_decimal_loop (budget : nat) :
  ∀ (n : N) (acc : bytes),
    N.to_nat (N.log2 n) ≤ budget →
    read_decimal (decimal_loop budget n acc) = read_decimal_from n acc.
Proof.
  unfold read_decimal.
  induction budget as [|budget IH]; intros n acc Hlog.
  - assert (Hn : (n < 10)%N).
    { destruct (N.eq_dec n 0%N) as [->|Hn0]; [lia|].
      assert (N.log2 n = 0%N) as H0 by lia.
      destruct (N.log2_null n) as [Hnull _]. specialize (Hnull H0). lia. }
    cbn [decimal_loop read_decimal_from fold_left].
    rewrite digit_char_value, N.mod_small by exact Hn. reflexivity.
  - cbn [decimal_loop]. destruct (N.ltb_spec n 10) as [Hlt|Hge].
    + cbn [read_decimal_from fold_left].
      rewrite digit_char_value, N.mod_small by exact Hlt. reflexivity.
    + assert (Hlog' : N.to_nat (N.log2 (n / 10)) ≤ budget).
      { assert (n / 10 ≤ N.div2 n)%N.
        { rewrite N.div2_div. apply N.div_le_compat_l. lia. }
        assert (N.log2 (n / 10) ≤ N.log2 (N.div2 n))%N by (by apply N.log2_le_mono).
        assert (N.log2 (N.div2 n) = N.log2 n - 1)%N.
        { rewrite N.div2_spec. apply N.log2_shiftr. }
        assert (N.log2 n ≠ 0)%N.
        { intros Hz. apply N.log2_null in Hz. lia. }
        lia. }
      rewrite (IH (n / 10)%N (digit_char n :: acc) Hlog').
      cbn [read_decimal_from fold_left]. rewrite digit_char_value.
      replace (n / 10 * 10 + n mod 10)%N with n; [reflexivity|].
      rewrite N.mul_comm. apply N.div_mod. discriminate.
Qed.

Lemma read_decimal_decimal (n : N) : read_decimal (decimal n) = n.
Proof. unfold decimal. by rewrite read_decimal_loop. Qed.

Lemma decimal_head (n : N) :
  ∃ c ds, decimal n = c :: ds ∧ Ascii.eqb c "-" = false.
Proof.
  pose proof (decimal_digits n) as Hd.
  assert (Hlen : ∀ budget m acc, length acc < length (decimal_loop budget m acc)).
  { induction budget as [|budget IH]; intros m acc; [simpl; lia|].
    cbn [decimal_loop]. destruct (m <? 10)%N; [simpl; lia|].
    specialize (IH (m / 10)%N (digit_char m :: acc)). simpl in IH. lia. }
  assert (Hne : decimal n ≠ []).
  { intros Hnil. specialize (Hlen (N.to_nat (N.log2 n)) n []).
    unfold decimal in Hnil. rewrite Hnil in Hlen. simpl in Hlen. lia. }
  destruct (decimal n) as [|c ds]; [done|]. exists c, ds. split; [reflexivity|].
  cbn [forallb] in Hd. apply andb_true_iff in Hd as [Hc _].
  destruct (Ascii.eqb_spec c "-") as [->|]; [discriminate Hc | reflexivity].
Qed.

Lemma read_int_snprintf_ld (v : Z) : read_int (snprintf_ld v) = v.
Proof.
  unfold snprintf_ld. destruct (Z.ltb_spec v 0).
  - cbn [read_int]. rewrite Ascii.eqb_refl, read_decimal_decimal. lia.
  - destruct (decimal_head (Z.to_N v)) as (c & ds & Hdec & Hc).
    unfold read_int. rewrite Hdec, Hc, <- Hdec, read_decimal_decimal. lia.
Qed.

(** A number that is a safe integer is written as a text that reads back
    as the same integer: minus zero as [0], no digit lost up to
    [2^53 - 1] either way. *)
Theorem safe_integer_reads_back (g : double → g_format) (fuel : nat) (h : Heap)
    (d : double) (n : Z) :
  is_safe_integer d n →
  ∃ text, Stringify g (S fuel) h (VNumber d) = Some text
          ∧ read_int text = n
          ∧ text = snprintf_ld n.
Proof.
  intros Hn. exists (snprintf_ld n).
  rewrite Stringify_number, (number_text_safe_integer g d n Hn).
  split; [reflexivity|]. split; [apply read_int_snprintf_ld | reflexivity].
Qed.

(** ** Sequences of calls on the output buffer *)

Lemma length_memcpy (n : nat) :
  ∀ (src dst : bytes) (at_ : nat), length (memcpy dst at_ src n) = length dst.
Proof.
  induction n as [|n IH]; intros src dst at_; [by destruct src|].
  destruct src as [|c src]; [reflexivity|]. cbn [memcpy].
  by rewrite IH, length_insert.
Qed.

Lemma length_ensureCapacity (sb : FastStringBuilder) (needed : nat) :
  length (buffer_ (ensureCapacity sb needed))
  = if length (buffer_ sb) <? pos_ sb + needed
    then (pos_ sb + needed) * 2 else length (buffer_ sb).
Proof.
  unfold ensureCapacity.
  destruct (length (buffer_ sb) <? pos_ sb + needed); [|reflexivity].
  apply length_vector_resize.
Qed.

Lemma append_n_capacity (sb : FastStringBuilder) (str : bytes) (len : nat) :
  pos_ (append_n sb str len) = pos_ sb + len
  ∧ length (buffer_ sb) ≤ length (buffer_ (append_n sb str len))
  ∧ (length (buffer_ sb) ≤ Nat.max 4096 (2 * pos_ sb) →
     length (buffer_ (append_n sb str len))
     ≤ Nat.max 4096 (2 * pos_ (append_n sb str len))).
Proof.
  unfold append_n. cbn [buffer_ pos_].
  rewrite length_memcpy, length_ensureCapacity, ensureCapacity_pos.
  destruct (Nat.ltb_spec (length (buffer_ sb)) (pos_ sb + len)); lia.
Qed.

Lemma append_char_capacity (sb : FastStringBuilder) (c : ascii) :
  pos_ (append_char sb c) = pos_ sb + 1
  ∧ length (buffer_ sb) ≤ length (buffer_ (append_char sb c))
  ∧ (length (buffer_ sb) ≤ Nat.max 4096 (2 * pos_ sb) →
     length (buffer_ (append_char sb c))
     ≤ Nat.max 4096 (2 * pos_ (append_char sb c))).
Proof.
  unfold append_char. cbn [buffer_ pos_].
  rewrite length_insert, length_ensureCapacity, ensureCapacity_pos.
  destruct (Nat.ltb_spec (length (buffer_ sb)) (pos_ sb + 1)); lia.
Qed.

Lemma size_t_twice_small (size : nat) :
  (N.of_nat size < 2 ^ 63)%N → size_t_twice size = size * 2.
Proof.
  intros Hsize. unfold size_t_twice.
  change (2 ^ 63)%N with 9223372036854775808%N in Hsize.
  change (2 ^ 64)%N with 18446744073709551616%N.
  rewrite N.mod_small by lia. lia.
Qed.

Lemma reserve_toString (sb : FastStringBuilder) (size : nat) :
  builder_wf sb → (N.of_nat size < 2 ^ 63)%N →
  toString (reserve sb size) = toString sb
  ∧ builder_wf (reserve sb size)
  ∧ length (buffer_ sb) ≤ length (buffer_ (reserve sb size))
  ∧ size ≤ length (buffer_ (reserve sb size)).
Proof.
  unfold builder_wf, reserve, toString. intros Hwf Hsize.
  destruct (Nat.ltb_spec (length (buffer_ sb)) size); cbn [buffer_ pos_];
    [|by repeat split; lia].
  rewrite (size_t_twice_small size Hsize).
  rewrite length_vector_resize. split; [|lia].
  unfold vector_resize. rewrite (take_ge (buffer_ sb)) by lia.
  apply take_app_le. exact Hwf.
Qed.

Lemma run_call_step (sb : FastStringBuilder) (call : builder_call) :
  builder_wf sb → call_ok call = true →
  toString (run_call sb call) = toString sb ++ call_text call
  ∧ builder_wf (run_call sb call)
  ∧ length (buffer_ sb) ≤ length (buffer_ (run_call sb call))
  ∧ (is_reserve call = false →
     length (buffer_ sb) ≤ Nat.max 4096 (2 * pos_ sb) →
     length (buffer_ (run_call sb call))
     ≤ Nat.max 4096 (2 * pos_ (run_call sb call))).
Proof.
  intros Hwf Hok. destruct call as [size|c|str len|str]; cbn [run_call call_text].
  - cbn [call_ok] in Hok. apply N.ltb_lt in Hok.
    assert (Hsize : (N.of_nat size < 2 ^ 63)%N).
    { change (2 ^ 62)%N with 4611686018427387904%N in Hok.
      change (2 ^ 63)%N with 9223372036854775808%N. lia. }
    destruct (reserve_toString sb size Hwf Hsize) as (Hts & Hwf' & Hcap & _).
    rewrite Hts, app_nil_r. split; [reflexivity|]. split; [exact Hwf'|].
    split; [exact Hcap | discriminate].
  - destruct (append_char_toString sb c Hwf) as [Hts Hwf'].
    destruct (append_char_capacity sb c) as (_ & Hcap & Hup).
    split; [exact Hts|]. split; [exact Hwf'|]. split; [exact Hcap|]. by intros _.
  - cbn [call_ok] in Hok. apply Nat.leb_le in Hok.
    destruct (append_n_toString sb str len Hwf Hok) as [Hts Hwf'].
    destruct (append_n_capacity sb str len) as (_ & Hcap & Hup).
    split; [exact Hts|]. split; [exact Hwf'|]. split; [exact Hcap|]. by intros _.
  - destruct (append_cstr_toString sb str Hwf) as [Hts Hwf'].
    unfold append_cstr in *.
    destruct (append_n_capacity sb str (strlen str)) as (_ & Hcap & Hup).
    split; [exact Hts|]. split; [exact Hwf'|]. split; [exact Hcap|]. by intros _.
Qed.

Lemma run_calls_from (calls : list builder_call) :
  ∀ sb,
    builder_wf sb → forallb call_ok calls = true →
    let sb' := fold_left run_call calls sb in
    toString sb' = toString sb ++ concat (map call_text calls)
    ∧ builder_wf sb'
    ∧ length (buffer_ sb) ≤ length (buffer_ sb')
    ∧ (existsb is_reserve calls = false →
       length (buffer_ sb) ≤ Nat.max 4096 (2 * pos_ sb) →
       length (buffer_ sb') ≤ Nat.max 4096 (2 * pos_ sb')).
Proof.
  induction calls as [|call calls IH]; intros sb Hwf Hok.
  - cbn. rewrite app_nil_r. by repeat split.
  - cbn [forallb] in Hok. apply andb_true_iff in Hok as [Hcall Hcalls].
    destruct (run_call_step sb call Hwf Hcall) as (Hts1 & Hwf1 & Hcap1 & Hup1).
    destruct (IH (run_call sb call) Hwf1 Hcalls) as (Hts & Hwf' & Hcap & Hup).
    cbn [fold_left map concat existsb]. cbn zeta in *.
    split; [by rewrite Hts, Hts1, <- app_assoc|]. split; [exact Hwf'|].
    split; [lia|]. intros Hnone Hinit.
    apply orb_false_iff in Hnone as [Hc Hcs]. by apply Hup, Hup1.
Qed.

(** Whatever public methods are called on a fresh [FastStringBuilder], in
    whatever order, each reading within its source and reserving no more
    than [resize] takes: [toString] is the appended bytes in the order of
    the calls (of a C string, those before its first zero byte), the
    capacity never falls below 4096 bytes, and, unless [reserve] is called,
    never exceeds the larger of 4096 and twice the bytes held. *)
Theorem builder_calls_accumulate (calls : list builder_call) :
  forallb call_ok calls = true →
  let sb := fold_left run_call calls FastStringBuilder_new in
  toString sb = concat (map call_text calls)
  ∧ length (toString sb) = pos_ sb
  ∧ pos_ sb ≤ length (buffer_ sb)
  ∧ 4096 ≤ length (buffer_ sb)
  ∧ (existsb is_reserve calls = false →
     length (buffer_ sb) ≤ Nat.max 4096 (2 * pos_ sb)).
Proof.
  intros Hok sb.
  destruct (run_calls_from calls FastStringBuilder_new builder_wf_new Hok)
    as (Hts & Hwf & Hcap & Hup).
  fold sb in Hts, Hwf, Hcap, Hup. unfold builder_wf in Hwf.
  assert (Hnew : length (buffer_ FastStringBuilder_new) = 4096)
    by (vm_compute; reflexivity).
  rewrite Hnew in Hcap, Hup.
  split; [by rewrite Hts, toString_new|].
  split; [unfold toString; rewrite length_take; lia|].
  split; [exact Hwf|]. split; [exact Hcap|].
  intros Hnone. apply (Hup Hnone). lia.
Qed.


(** ** Further examples *)

Lemma initHexTable_overwrites_witness :
  length (repeat 7%Z 256) = 256
  ∧ UrlParser.initHexTable (repeat 7%Z 256) = UrlParser.HEX_TABLE
  ∧ UrlParser.initHexTable (UrlParser.initHexTable (repeat 7%Z 256))
    = UrlParser.initHexTable (repeat 7%Z 256)
  ∧ nth (nat_of_ascii "f") (UrlParser.initHexTable (repeat 7%Z 256)) 0%Z
    = default (-1)%Z (hex_digit_value "f").
Proof.
  split; [reflexivity|].
  exact (initHexTable_overwrites (repeat 7%Z 256) "f" eq_refl).
Defined.

Lemma DecodeURIComponent_plain_witness :
  has_byte "%" (B "/users/42") = false
  ∧ has_byte "+" (B "/users/42") = false
  ∧ UrlParser.DecodeURIComponent (B "/users/42") = B "/users/42".
Proof.
  split; [reflexivity|]. split; [reflexivity|].
  exact (DecodeURIComponent_plain (B "/users/42") eq_refl eq_refl).
Defined.

Lemma Parse_query_entries_origin_witness :
  UrlParser.query (UrlParser.Parse (B "/p?a%20b=1+2")) !! B "a b" = Some (B "1 2")
  ∧ B "a b" ≠ [].
Proof.
  assert (Hkv : UrlParser.query (UrlParser.Parse (B "/p?a%20b=1+2")) !! B "a b"
                = Some (B "1 2")) by (vm_compute; reflexivity).
  split; [exact Hkv|].
  exact (proj1 (Parse_query_entries_origin _ _ _ Hkv)).
Defined.

Lemma Parse_append_segment_witness :
  has_byte "?" (B "/p?a=1&b=2") = true
  ∧ has_byte "&" (B "a=3") = false
  ∧ UrlParser.query (UrlParser.Parse (B "/p?a=1&b=2" ++ "&"%char :: B "a=3"))
    = assign_entry (segment_entry (B "a=3"))
        (UrlParser.query (UrlParser.Parse (B "/p?a=1&b=2"))).
Proof.
  split; [reflexivity|]. split; [reflexivity|].
  exact (proj1 (proj2 (Parse_append_segment (B "/p?a=1&b=2") (B "a=3")
                         eq_refl eq_refl))).
Defined.

Lemma query_without_equals_empty_witness :
  has_byte "=" (B "?flag&other") = false
  ∧ ParseQuery sample_host [VString (B "?flag&other")] = Returned (RObject ∅).
Proof.
  split; [reflexivity|].
  exact (proj1 (query_without_equals_empty sample_host (B "?flag&other") eq_refl)).
Defined.

Lemma taken_as_is_sample :
  Forall (taken_as_is sample_host) (contributions (B "?a=1&b=x+y")).
Proof.
  assert (Hc : contributions (B "?a=1&b=x+y") = [(B "?a", B "1"); (B "b", B "x y")])
    by (vm_compute; reflexivity).
  rewrite Hc. repeat constructor; try reflexivity; discriminate.
Qed.

Lemma ParseUrl_query_is_ParseQuery_witness :
  has_byte "?" (B "/p") = false
  ∧ Forall (taken_as_is sample_host) (contributions (B "?a=1&b=x+y"))
  ∧ ∃ m, ParseUrl sample_host [VString (B "/p" ++ "?"%char :: B "?a=1&b=x+y")]
         = Returned (RUrl (String_New sample_host (B "/p")) m)
         ∧ ParseQuery sample_host [VString ("?"%char :: B "?a=1&b=x+y")]
           = Returned (RObject m)
         ∧ ((∀ rest', B "?a=1&b=x+y" ≠ "?"%char :: rest') →
            ParseQuery sample_host [VString (B "?a=1&b=x+y")] = Returned (RObject m))
         ∧ m = assign_all (contributions (B "?a=1&b=x+y")) ∅.
Proof.
  split; [reflexivity|]. split; [exact taken_as_is_sample|].
  exact (ParseUrl_query_is_ParseQuery sample_host (B "/p") (B "?a=1&b=x+y")
           eq_refl taken_as_is_sample).
Defined.

Lemma Stringify_single_line_witness :
  Stringify sample_g15 3 scenario_heap (VRef 0)
  = Some (J "{'a':1,'b':'hi\n','c':null}")
  ∧ no_control (J "{'a':1,'b':'hi\n','c':null}") = true.
Proof.
  assert (Hrun : Stringify sample_g15 3 scenario_heap (VRef 0)
                 = Some (J "{'a':1,'b':'hi\n','c':null}"))
    by (vm_compute; reflexivity).
  split; [exact Hrun|].
  exact (proj1 (Stringify_single_line _ _ _ _ _ Hrun)).
Defined.

Lemma escapeStringFast_lossless_witness :
  builder_wf FastStringBuilder_new
  ∧ ∃ body,
      toString (escapeStringFast FastStringBuilder_new
                  (J "a'b\c" ++ ["010"%char; "001"%char]))
      = toString FastStringBuilder_new ++ dq :: body ++ [dq]
      ∧ json_unescape body = Some (J "a'b\c" ++ ["010"%char; "001"%char]).
Proof.
  split; [apply Nat.le_0_l|].
  exact (proj1 (escapeStringFast_lossless FastStringBuilder_new
                  (J "a'b\c" ++ ["010"%char; "001"%char]) (Nat.le_0_l _))).
Defined.

Lemma escapeStringFast_size_witness :
  builder_wf FastStringBuilder_new
  ∧ (existsb needs_escape (B "plain text") = false →
     toString (escapeStringFast FastStringBuilder_new (B "plain text"))
     = toString FastStringBuilder_new ++ dq :: B "plain text" ++ [dq]).
Proof.
  split; [apply Nat.le_0_l|].
  exact (proj1 (proj2 (escapeStringFast_size FastStringBuilder_new
                         (B "plain text") (Nat.le_0_l _)))).
Defined.

Lemma safe_integer_reads_back_witness :
  is_safe_integer (S754_zero true) 0
  ∧ ∃ text, Stringify sample_g15 1 scenario_heap (VNumber (S754_zero true))
            = Some text
            ∧ read_int text = 0%Z ∧ text = snprintf_ld 0.
Proof.
  assert (Hn : is_safe_integer (S754_zero true) 0).
  { split; [reflexivity | lia]. }
  split; [exact Hn|].
  exact (safe_integer_reads_back sample_g15 0 scenario_heap _ _ Hn).
Defined.

Lemma builder_calls_accumulate_witness :
  forallb call_ok [CallAppendChar "["; CallAppend (B "nullable") 4;
                   CallReserve (4096 + 1); CallAppendStr (B "]")] = true
  ∧ toString (fold_left run_call
                [CallAppendChar "["; CallAppend (B "nullable") 4;
                 CallReserve (4096 + 1); CallAppendStr (B "]")]
                FastStringBuilder_new)
    = B "[null]".
Proof.
  split; [reflexivity|].
  exact (proj1 (builder_calls_accumulate
                  [CallAppendChar "["; CallAppend (B "nullable") 4;
                   CallReserve (4096 + 1); CallAppendStr (B "]")] eq_refl)).
Defined.


(** ** The recursion ends where [toJSON] settles *)

Lemma stringifyValueFast_settles_total (g : double → g_format) (h : Heap) :
  toJSON_settles h →
  ∀ fuel sb v depth,
    (if takes_toJSON h v then 2 else 1) ≤ fuel →
    (2 * (12 - depth) - (if takes_toJSON h v then 0 else 1) ≤ Z.of_nat fuel)%Z →
    ∃ sb', stringifyValueFast g fuel h sb v depth = Some sb'.
Proof.
  intros Hsettle. induction fuel as [|fuel IH]; intros sb v depth H1 Hfuel.
  { destruct (takes_toJSON h v); lia. }
  destruct v as [| |b|d|s|l|]; try (by eexists).
  - cbn [stringifyValueFast IsNull IsUndefined IsBoolean BooleanValue orb].
    destruct b; by eexists.
  - cbn [stringifyValueFast IsNull IsUndefined IsBoolean IsNumber orb].
    destruct (_ || _); [by eexists|]. destruct (_ && _ && _); by eexists.
  - rewrite stringifyValueFast_ref.
    assert (Hrec : (10 <? depth)%Z = false →
              ∀ sb0 v0, ∃ sb', stringifyValueFast g fuel h sb0 v0 (depth + 1)%Z
                               = Some sb').
    { intros Hd sb0 v0. apply Z.ltb_ge in Hd.
      apply IH; destruct (takes_toJSON h v0), (takes_toJSON h (VRef l)); lia. }
    pose proof (Hsettle l) as Hl. cbn [takes_toJSON] in H1, Hfuel, Hl.
    destruct (obj_is_array (h l)).
    { unfold stringifyArrayFast. destruct (10 <? depth)%Z; [by eexists|].
      destruct (array_loop_total _ (h l) depth (Hrec eq_refl) (Length (h l)) 0
                  (append_char sb "[")) as [sb1 ->].
      by eexists. }
    destruct (obj_is_object (h l)); [|by eexists].
    cbn [negb andb] in H1, Hfuel, Hl.
    destruct (Has (h l) (B "toJSON") && IsFunction h (Get (h l) (B "toJSON"))).
    { specialize (Hl eq_refl). apply IH; rewrite Hl; lia. }
    unfold stringifyObjectFast. destruct (10 <? depth)%Z; [by eexists|].
    destruct (object_loop_total _ (h l) (obj_keys (h l)) depth (Hrec eq_refl)
                (length (obj_keys (h l))) 0 true (append_char sb "{")) as [sb1 ->].
    by eexists.
Qed.

(** Where no [toJSON] that is called hands back an object whose [toJSON]
    would be called in turn, [stringify] returns a JSON text for every
    value, cyclic or not, on a stack of twenty-four calls: only a chain of
    [toJSON] results keeps the recursion from ending. *)
Theorem Stringify_returns_where_toJSON_settles (g : double → g_format)
    (h : Heap) (v : Value) :
  toJSON_settles h →
  ∃ out, Stringify g 24 h v = Some out ∧ json_text out.
Proof.
  intros Hsettle.
  destruct (stringifyValueFast_settles_total g h Hsettle 24 FastStringBuilder_new
              v 0%Z) as [sb' Hrun];
    [destruct (takes_toJSON h v); lia..|].
  destruct (stringifyValueFast_valid g 24 h _ _ _ _ builder_wf_new Hrun)
    as (_ & text & Hts & Htext).
  exists (toString sb'). split; [by apply Stringify_run|].
  rewrite Hts. by apply json_element_of_value.
Qed.

Lemma toJSON_settles_scenario : toJSON_settles scenario_heap.
Proof.
  intros l. destruct l as [|[|[|[|l]]]]; cbn; try discriminate; reflexivity.
Qed.

Lemma Stringify_returns_where_toJSON_settles_witness :
  toJSON_settles scenario_heap
  ∧ ∃ out, Stringify sample_g15 24 scenario_heap (VRef 2) = Some out
           ∧ json_text out.
Proof.
  split; [exact toJSON_settles_scenario|].
  exact (Stringify_returns_where_toJSON_settles sample_g15 scenario_heap (VRef 2)
           toJSON_settles_scenario).
Defined.


(** ** The escape table *)

Lemma list_insert_lookup_cases {A : Type} (l : list A) (i j : nat) (x : A) :
  j < length l →
  <[j := x]> l !! i = if Nat.eqb i j then Some x else l !! i.
Proof.
  intros Hj. destruct (Nat.eqb_spec i j) as [->|Hne].
  - by apply list_lookup_insert_eq.
  - by apply list_lookup_insert_ne.
Qed.

Lemma short_escape_at_cases (i : nat) :
  short_escape_at i
  = if Nat.eqb i (nat_of_ascii "009") then Some (B "\t")
    else if Nat.eqb i (nat_of_ascii "013") then Some (B "\r")
    else if Nat.eqb i (nat_of_ascii "010") then Some (B "\n")
    else if Nat.eqb i (nat_of_ascii "012") then Some (B "\f")
    else if Nat.eqb i (nat_of_ascii "008") then Some (B "\b")
    else if Nat.eqb i (nat_of_ascii "\") then Some (B "\\")
    else if Nat.eqb i (nat_of_ascii dq) then Some ["\"%char; dq]
    else None.
Proof.
  unfold short_escape_at. destruct (Nat.ltb_spec i 256) as [Hlt|Hge].
  - do 256 (destruct i as [|i]; [reflexivity|]). lia.
  - do 93 (destruct i as [|i]; [lia|]). reflexivity.
Qed.

Lemma initEscapeTable_lookup (table : list (option bytes)) (i : nat) :
  length table = 256 →
  initEscapeTable table !! i
  = match short_escape_at i with Some e => Some (Some e) | None => table !! i end.
Proof.
  intros Hlen. unfold initEscapeTable.
  rewrite !list_insert_lookup_cases
    by (rewrite ?length_insert, Hlen; vm_compute; lia).
  rewrite short_escape_at_cases.
  repeat (destruct (Nat.eqb i _); [reflexivity|]). reflexivity.
Qed.

Lemma length_initEscapeTable (table : list (option bytes)) :
  length (initEscapeTable table) = length table.
Proof. unfold initEscapeTable. by rewrite !length_insert. Qed.

Lemma short_escape_reads_back (c : ascii) :
  match short_escape c with
  | Some e => unescape_letter e = Some c ∧ needs_escape c = true
  | None => True
  end.
Proof.
  destruct c as [[] [] [] [] [] [] [] []]; vm_compute;
    first [exact I | split; reflexivity].
Qed.

(** [initEscapeTable] sets the entries of seven bytes and no other: the
    quote, the backslash and five control characters get a backslash and
    their letter, which reads back as the byte; every other entry is what
    it was before (null from the static initialiser).  Running it again
    changes nothing. *)
Theorem initEscapeTable_entries (table : list (option bytes)) (c : ascii) :
  length table = 256 →
  nth (nat_of_ascii c) (initEscapeTable table) None
  = match short_escape c with
    | Some e => Some ["\"%char; e]
    | None => nth (nat_of_ascii c) table None
    end
  ∧ (∀ e, short_escape c = Some e →
       unescape_letter e = Some c ∧ needs_escape c = true)
  ∧ initEscapeTable (initEscapeTable table) = initEscapeTable table
  ∧ escape_lookup c = (λ e, ["\"%char; e]) <$> short_escape c.
Proof.
  intros Hlen.
  assert (Hat : short_escape_at (nat_of_ascii c)
                = (λ e, ["\"%char; e]) <$> short_escape c).
  { unfold short_escape_at.
    pose proof (nat_ascii_bounded c) as Hc. apply Nat.ltb_lt in Hc.
    by rewrite Hc, ascii_nat_embedding. }
  assert (Hnth : ∀ t, length t = 256 →
            nth (nat_of_ascii c) (initEscapeTable t) None
            = match short_escape c with
              | Some e => Some ["\"%char; e]
              | None => nth (nat_of_ascii c) t None
              end).
  { intros t Ht. rewrite !nth_lookup, (initEscapeTable_lookup t _ Ht), Hat.
    by destruct (short_escape c). }
  split; [by apply Hnth|]. split; [|split].
  - intros e He. pose proof (short_escape_reads_back c) as H.
    by rewrite He in H.
  - apply list_eq. intros i.
    rewrite !initEscapeTable_lookup by (by rewrite ?length_initEscapeTable).
    by destruct (short_escape_at i).
  - unfold escape_lookup, ESCAPE_TABLE.
    rewrite (Hnth ESCAPE_TABLE_static) by reflexivity.
    destruct (short_escape c); [reflexivity|].
    unfold ESCAPE_TABLE_static. apply nth_repeat.
Qed.

Lemma initEscapeTable_entries_witness :
  length (repeat (Some (B "?")) 256) = 256
  ∧ nth (nat_of_ascii "010") (initEscapeTable (repeat (Some (B "?")) 256)) None
    = Some (B "\n")
  ∧ nth (nat_of_ascii "a") (initEscapeTable (repeat (Some (B "?")) 256)) None
    = Some (B "?").
Proof.
  split; [reflexivity|]. split.
  - exact (proj1 (initEscapeTable_entries (repeat (Some (B "?")) 256) "010" eq_refl)).
  - exact (proj1 (initEscapeTable_entries (repeat (Some (B "?")) 256) "a" eq_refl)).
Defined.


(** ** The entry points *)

(** C7. [ParseUrl] throws a [TypeError] exactly when its first argument is
    missing or is no string; [ParseQuery] and [DecodeURI] return for every
    argument list, the empty mapping and the empty string when the first
    argument is missing or is no string; [FastStringify] returns the string
    [undefined] without an argument.  [FastStringify] is the entry point
    that raises beside [ParseUrl]: on [{ toJSON() { return this; } }] the
    call ends in the host's [RangeError], whatever the stack; it returns
    wherever no [toJSON] result has a [toJSON] called in turn and the stack
    holds twenty-four calls. *)
Theorem entry_point_errors (host : Host) (g : double → g_format)
    (info : list Value) :
  ((∃ e, ParseUrl host info = Threw e)
   ↔ length info < 1 ∨ IsString (info_at info 0) = false)
  ∧ (∀ e, ParseUrl host info = Threw e → e = TypeError (B "URL string expected"))
  ∧ (∃ r, ParseQuery host info = Returned r)
  ∧ (length info < 1 ∨ IsString (info_at info 0) = false →
     ParseQuery host info = Returned (RObject ∅))
  ∧ (∃ r, DecodeURI host info = Returned r)
  ∧ (length info < 1 ∨ IsString (info_at info 0) = false →
     DecodeURI host info = Returned (RString []))
  ∧ (∀ fuel h, FastStringify g host fuel h [] = Returned (RString (B "undefined")))
  ∧ (∀ fuel, FastStringify g host fuel self_toJSON_heap [VRef 0]
             = Threw (RangeError (B "Maximum call stack size exceeded")))
  ∧ (∀ fuel h, 24 ≤ fuel → toJSON_settles h →
               ∃ r, FastStringify g host fuel h info = Returned r).
Proof.
  assert (Hguard : (length info <? 1) || negb (IsString (info_at info 0)) = true
                   ↔ length info < 1 ∨ IsString (info_at info 0) = false).
  { rewrite orb_true_iff, Nat.ltb_lt, negb_true_iff. reflexivity. }
  assert (Hstringify :
    (∀ fuel h, FastStringify g host fuel h [] = Returned (RString (B "undefined")))
    ∧ (∀ fuel, FastStringify g host fuel self_toJSON_heap [VRef 0]
               = Threw (RangeError (B "Maximum call stack size exceeded")))
    ∧ (∀ fuel h, 24 ≤ fuel → toJSON_settles h →
                 ∃ r, FastStringify g host fuel h info = Returned r)).
  { split; [|split].
    - intros fuel h. unfold FastStringify. cbn [length Nat.ltb Nat.leb].
      by rewrite String_New_ascii.
    - intros fuel. unfold FastStringify, Stringify.
      cbn [length Nat.ltb Nat.leb info_at nth].
      by rewrite self_toJSON_diverges.
    - intros fuel h Hfuel Hsettle. unfold FastStringify.
      destruct (length info <? 1); [by eexists|].
      destruct (stringifyValueFast_settles_total g h Hsettle fuel
                  FastStringBuilder_new (info_at info 0) 0%Z) as [sb' Hrun];
        [destruct (takes_toJSON h (info_at info 0)); lia..|].
      rewrite (Stringify_run g fuel h _ sb' Hrun). by eexists. }
  unfold ParseUrl, ParseQuery, DecodeURI.
  rewrite (String_New_ascii host []) by reflexivity.
  destruct ((length info <? 1) || negb (IsString (info_at info 0))) eqn:Eg.
  - pose proof (proj1 Hguard eq_refl) as Hbad.
    split; [split; eauto|]. split; [by intros e [= <-]|].
    split; [eauto|]. split; [eauto|]. split; [eauto|]. split; [eauto|].
    exact Hstringify.
  - assert (Hgood : ¬ (length info < 1 ∨ IsString (info_at info 0) = false)).
    { intros Hbad. apply Hguard in Hbad. discriminate Hbad. }
    split; [split; [by intros [e He] | by intros Hbad]|].
    split; [by intros e He|].
    split; [destruct (_ && _); eauto|]. split; [by intros Hbad|].
    split; [eauto|]. split; [by intros Hbad|].
    exact Hstringify.
Qed.


(** What the host makes of keys and of bytes that are no UTF-8: a key ends
    at its first zero byte, [__proto__] is not stored, and [%FF] decodes to
    a byte that the host reads as U+FFFD. *)
Example host_bridge_scenarios :
  ParseQuery sample_host [VString (B "a%00b=1")]
  = Returned (RObject {[ B "a" := B "1" ]})
  ∧ ParseQuery sample_host [VString (B "__proto__=1&a=2")]
    = Returned (RObject {[ B "a" := B "2" ]})
  ∧ ParseUrl sample_host [VString (B "/p?%00=1")]
    = Returned (RUrl (B "/p") {[ [] := B "1" ]})
  ∧ DecodeURI sample_host [VString (B "%FF")]
    = Returned (RString replacement_character)
  ∧ FastStringify sample_g15 sample_host 100 self_toJSON_heap [VRef 0]
    = Threw (RangeError (B "Maximum call stack size exceeded")).
Proof.
  split; [vm_compute; reflexivity|]. split; [vm_compute; reflexivity|].
  split; [vm_compute; reflexivity|]. split; vm_compute; reflexivity.
Qed.
